(** * Agent lifecycle registry: a shallow embedding of
      [src/types.ts], [src/storage/memory.ts], [src/storage/file.ts]
      and [src/registry.ts].

    The registry keeps agent records in two kinds of backends: one
    process-wide in-memory table (ephemeral, turn and context lifespans)
    and three file-backed stores (session, workflow, project) that share
    one directory tree.  The embedding keeps

    - records, filters and configurations as records of the fields the
      TypeScript interfaces declare; optional fields are [option]s;
    - the two [Map]s of the memory store as [gmap]s;
    - the directory tree as a finite map from normalised paths to nodes,
      with [path.join] and the [fs] calls the code uses written out,
      including the ways they throw;
    - exceptions and mutation as a state-and-error monad: a throwing call
      keeps the effects that happened before the throw;
    - the JavaScript runtime's [JSON.stringify]/[JSON.parse], the random
      UUID source and the clock as inputs.

    The registry is embedded with its logger off: with the default
    options ([debug] off) each method of the logger returns at once, and
    its constructor touches the file system only when a log path is
    given, which the registry does only with [debug] on.  The logger
    itself ([src/utils/logger.ts]), the path helpers
    ([src/utils/paths.ts]) and the two handlers of the hook script
    ([hooks/lifecycle-manager.ts]) are embedded after the registry.
    [async] calls are run to completion one after the other, as the
    [await]s of the code do. *)

From Stdlib Require Import Ascii String List.
From stdpp Require Import strings.
From stdpp Require Import base option list gmap fin_maps countable.

Local Open Scope string_scope.
Local Open Scope list_scope.

Set Warnings "-register-all,-clear-no-such-hyp".

(* ===================================================================== *)
(** ** Types ([src/types.ts]) *)
(* ===================================================================== *)

Inductive AgentLifespan :=
  | ephemeral | turn | context | session | workflow | project.

Inductive AgentModel := haiku | sonnet | opus.

Global Instance AgentLifespan_eq_dec : EqDecision AgentLifespan.
Proof. solve_decision. Defined.

Global Instance AgentModel_eq_dec : EqDecision AgentModel.
Proof. solve_decision. Defined.

(** The string literal a lifespan is at run time. *)
Definition lifespan_name (l : AgentLifespan) : string :=
  match l with
  | ephemeral => "ephemeral" | turn => "turn" | context => "context"
  | session => "session" | workflow => "workflow" | project => "project"
  end.

(** A [switch] over the lifespan literals: which case a run-time string
    selects, [None] standing for the [default] branch. *)
Definition parse_lifespan (s : string) : option AgentLifespan :=
  if String.eqb s "ephemeral" then Some ephemeral
  else if String.eqb s "turn" then Some turn
  else if String.eqb s "context" then Some context
  else if String.eqb s "session" then Some session
  else if String.eqb s "workflow" then Some workflow
  else if String.eqb s "project" then Some project
  else None.

(** Values a [Record<string, unknown>] can hold, as far as JSON is
    concerned.  [JUndefined] is there because the registry itself stores
    it ([metadata.workflowType] of a workflow agent without a type).
    Numbers are the integral ones. *)
Inductive JsValue :=
  | JUndefined
  | JNull
  | JBool (b : bool)
  | JNum (n : Z)
  | JStr (s : string)
  | JArr (items : list JsValue)
  | JObj (props : list (string * JsValue)).

Definition JsObject := list (string * JsValue).

(** [obj[k] = v]: an existing property keeps its place. *)
Fixpoint obj_set (k : string) (v : JsValue) (o : JsObject) : JsObject :=
  match o with
  | [] => [(k, v)]
  | (k', v') :: o' =>
      if String.eqb k' k then (k, v) :: o' else (k', v') :: obj_set k v o'
  end.

(** What survives [JSON.parse(JSON.stringify(v))]: a property whose value
    is [undefined] is dropped, an [undefined] array item becomes [null]. *)
Fixpoint json_clean (v : JsValue) : JsValue :=
  match v with
  | JArr items =>
      JArr (map (fun x => match x with
                          | JUndefined => JNull
                          | _ => json_clean x
                          end) items)
  | JObj props =>
      JObj ((fix go (ps : list (string * JsValue)) :=
               match ps with
               | [] => []
               | (k, JUndefined) :: ps' => go ps'
               | (k, x) :: ps' => (k, json_clean x) :: go ps'
               end) props)
  | _ => v
  end.

Definition json_clean_object (o : JsObject) : JsObject :=
  match json_clean (JObj o) with
  | JObj o' => o'
  | _ => []
  end.

(** A value JSON can represent: no [undefined] anywhere inside. *)
Fixpoint json_representable (v : JsValue) : bool :=
  match v with
  | JUndefined => false
  | JArr items => forallb json_representable items
  | JObj props => forallb (fun kv => json_representable (snd kv)) props
  | _ => true
  end.

(** [RegisteredAgent]. *)
Record RegisteredAgent := {
  agentId : string;
  name : string;
  lifespan : AgentLifespan;
  scope : string;
  model : AgentModel;
  createdAt : string;
  lastUsedAt : string;
  turnCount : nat;
  metadata : JsObject;
}.

Definition set_lastUsedAt (t : string) (a : RegisteredAgent) : RegisteredAgent :=
  {| agentId := agentId a; name := name a; lifespan := lifespan a;
     scope := scope a; model := model a; createdAt := createdAt a;
     lastUsedAt := t; turnCount := turnCount a; metadata := metadata a |}.

Definition incr_turnCount (a : RegisteredAgent) : RegisteredAgent :=
  {| agentId := agentId a; name := name a; lifespan := lifespan a;
     scope := scope a; model := model a; createdAt := createdAt a;
     lastUsedAt := lastUsedAt a; turnCount := S (turnCount a);
     metadata := metadata a |}.

Definition set_metadata (m : JsObject) (a : RegisteredAgent) : RegisteredAgent :=
  {| agentId := agentId a; name := name a; lifespan := lifespan a;
     scope := scope a; model := model a; createdAt := createdAt a;
     lastUsedAt := lastUsedAt a; turnCount := turnCount a; metadata := m |}.

(** The record as it comes back from a JSON document. *)
Definition agent_clean (a : RegisteredAgent) : RegisteredAgent :=
  set_metadata (json_clean_object (metadata a)) a.

Definition agent_representable (a : RegisteredAgent) : bool :=
  json_representable (JObj (metadata a)).

(** [AgentFilter]: three optional fields. *)
Record AgentFilter := {
  f_lifespan : option AgentLifespan;
  f_scope : option string;
  f_name : option string;
}.

(** [AnyAgentConfig]: the union of the four configuration interfaces, as
    the object [create] receives at run time.  [lifespan] and [name] can
    be absent or arbitrary there (the tests pass such objects), so they
    are raw.  [preload] and [systemPrompt] are never read by the code
    modelled here and are left out. *)
Record AnyAgentConfig := {
  c_lifespan : option string;
  c_name : option string;
  c_model : option AgentModel;
  c_metadata : option JsObject;
  c_sessionId : option string;
  c_workflowId : option string;
  c_workflowType : option string;
  c_projectPath : option string;
}.

Record CreateResult := {
  agent : RegisteredAgent;
  isNew : bool;
}.

(** The ambient process: [process.env.CLAUDE_SESSION_ID] and
    [process.cwd()]. *)
Record Env := {
  CLAUDE_SESSION_ID : option string;
  cwd : string;
}.

(** What the code throws.  [FsError] carries the system error code of a
    failed [fs] call; [UnsupportedLifespan] is the plain [Error] of
    [getAgentPath]; [SyntaxError] is what [JSON.parse] throws. *)
Inductive Error :=
  | InvalidConfigError (message : string)
  | AgentNotFoundError (identifier : string)
  | UnsupportedLifespan (l : AgentLifespan)
  | SyntaxError
  | FsError (code : string).

Inductive result (A : Type) :=
  | Ok (a : A)
  | Throw (e : Error).
Arguments Ok {A} a.
Arguments Throw {A} e.

(** JavaScript truthiness of an optional string: [undefined] and the
    empty string are falsy. *)
Definition truthy (o : option string) : bool :=
  match o with
  | Some s => negb (String.eqb s "")
  | None => false
  end.

(* ===================================================================== *)
(** ** State and exceptions *)
(* ===================================================================== *)

(** A computation over a store [S]: it returns a value or throws, and in
    both cases leaves a store behind. *)
Definition M (S A : Type) : Type := S -> result A * S.

Definition ret {S A} (a : A) : M S A := fun s => (Ok a, s).
Definition throw {S A} (e : Error) : M S A := fun s => (Throw e, s).
Definition bind {S A B} (m : M S A) (k : A -> M S B) : M S B :=
  fun s => match m s with
           | (Ok a, s') => k a s'
           | (Throw e, s') => (Throw e, s')
           end.
(** [try { m } catch { h }]. *)
Definition try_catch {S A} (m : M S A) (h : M S A) : M S A :=
  fun s => match m s with
           | (Ok a, s') => (Ok a, s')
           | (Throw _, s') => h s'
           end.
Definition gets {S A} (f : S -> A) : M S A := fun s => (Ok (f s), s).
Definition modify {S} (f : S -> S) : M S unit := fun s => (Ok tt, f s).
Definition lift_result {S A} (r : result A) : M S A := fun s => (r, s).

Declare Scope m_scope.
Delimit Scope m_scope with M.
Notation "x <- m ;; k" := (bind m (fun x => k))
  (at level 100, m at next level, right associativity) : m_scope.
Notation "m ;;; k" := (bind m (fun _ => k))
  (at level 100, right associativity) : m_scope.
Local Open Scope m_scope.

(** [for (const x of xs) body(x)]. *)
Fixpoint for_each {S A} (xs : list A) (body : A -> M S unit) : M S unit :=
  match xs with
  | [] => ret tt
  | x :: xs' => body x ;;; for_each xs' body
  end.

(** A loop that threads an accumulator (a counter, a result array). *)
Fixpoint for_fold {S A B} (xs : list A) (acc : B) (body : B -> A -> M S B)
  : M S B :=
  match xs with
  | [] => ret acc
  | x :: xs' => acc' <- body acc x ;; for_fold xs' acc' body
  end.

(* ===================================================================== *)
(** ** Paths and the directory tree ([path], [fs]) *)
(* ===================================================================== *)

(** A normalised absolute path, as its segments from the root. *)
Abbreviation path := (list string).

(** Cut a string at every ['/']. *)
Fixpoint split_sep (s : string) : list string :=
  match s with
  | EmptyString => [EmptyString]
  | String c s' =>
      if Ascii.eqb c "/" then EmptyString :: split_sep s'
      else match split_sep s' with
           | seg :: rest => String c seg :: rest
           | [] => [String c EmptyString]
           end
  end.

(** One step of [path.normalize]: empty and ["."] segments vanish,
    [".."] drops the segment before it. *)
Definition normalize_step (stack : path) (seg : string) : path :=
  if String.eqb seg "" then stack
  else if String.eqb seg "." then stack
  else if String.eqb seg ".." then removelast stack
  else stack ++ [seg].

(** [path.join(base, ...parts)], taken from the directory [base]:
    the parts are glued with ['/'] and the result normalised. *)
Definition join (base : path) (parts : list string) : path :=
  fold_left normalize_step (flat_map split_sep parts) base.

(** [path.dirname] of a normalised path. *)
Definition dirname (p : path) : path := removelast p.

(** [s.endsWith(suffix)]. *)
Fixpoint endsWith (s suffix : string) : bool :=
  String.eqb s suffix ||
  match s with
  | EmptyString => false
  | String _ s' => endsWith s' suffix
  end.

Inductive node :=
  | File (content : string)
  | Dir.

Global Instance node_eq_dec : EqDecision node.
Proof. solve_decision. Defined.

(** The tree: which paths exist, and what is there. *)
Abbreviation FS := (gmap path node).

Module Fs.

Definition existsSync (p : path) : M FS bool :=
  gets (fun fs => bool_decide (is_Some (fs !! p))).

Definition is_dir (fs : FS) (p : path) : bool :=
  bool_decide (fs !! p = Some Dir).

Definition is_file (fs : FS) (p : path) : bool :=
  match fs !! p with
  | Some (File _) => true
  | _ => false
  end.

(** The path itself and every directory above it. *)
Definition prefixes (p : path) : list path :=
  map (fun n => take n p) (seq 0 (S (length p))).

(** [mkdirSync(p, { recursive: true })]: every missing directory on the
    way is created; a regular file on the way is an error. *)
Definition mkdirSync_recursive (p : path) : M FS unit :=
  fun fs =>
    if existsb (is_file fs) (prefixes p)
    then (Throw (FsError "ENOTDIR"), fs)
    else (Ok tt, foldr (fun q m => <[q := Dir]> m) fs (prefixes p)).

(** [writeFileSync(p, content)]: the parent must be a directory and
    [p] must not be one. *)
Definition writeFileSync (p : path) (content : string) : M FS unit :=
  fun fs =>
    if negb (is_dir fs (dirname p)) then (Throw (FsError "ENOENT"), fs)
    else if is_dir fs p then (Throw (FsError "EISDIR"), fs)
    else (Ok tt, <[p := File content]> fs).

Definition readFileSync (p : path) : M FS string :=
  fun fs =>
    match fs !! p with
    | Some (File content) => (Ok content, fs)
    | Some Dir => (Throw (FsError "EISDIR"), fs)
    | None => (Throw (FsError "ENOENT"), fs)
    end.

(** The name under which [q] is an entry of the directory [p]. *)
Fixpoint child_name (p q : path) : option string :=
  match p, q with
  | [], [x] => Some x
  | a :: p', b :: q' => if String.eqb a b then child_name p' q' else None
  | _, _ => None
  end.

Definition entries (fs : FS) (p : path) : list (string * node) :=
  omap (fun qn => x ← child_name p qn.1; Some (x, qn.2)) (map_to_list fs).

(** [readdirSync(p, { withFileTypes: true })]. *)
Definition readdirSync_withFileTypes (p : path) : M FS (list (string * node)) :=
  fun fs =>
    match fs !! p with
    | Some Dir => (Ok (entries fs p), fs)
    | Some (File _) => (Throw (FsError "ENOTDIR"), fs)
    | None => (Throw (FsError "ENOENT"), fs)
    end.

(** [readdirSync(p)]. *)
Definition readdirSync (p : path) : M FS (list string) :=
  ds <- readdirSync_withFileTypes p ;; ret (map fst ds).

Definition isDirectory (d : string * node) : bool :=
  match d.2 with Dir => true | File _ => false end.

(** [unlinkSync(p)]: removes a regular file. *)
Definition unlinkSync (p : path) : M FS unit :=
  fun fs =>
    match fs !! p with
    | Some (File _) => (Ok tt, delete p fs)
    | Some Dir => (Throw (FsError "EISDIR"), fs)
    | None => (Throw (FsError "ENOENT"), fs)
    end.

(** [rmSync(p, { recursive: true })]: removes [p] and all below it. *)
Definition rmSync_recursive (p : path) : M FS unit :=
  fun fs =>
    match fs !! p with
    | Some _ =>
        (Ok tt, filter (fun qn => negb (bool_decide (p `prefix_of` qn.1))) fs)
    | None => (Throw (FsError "ENOENT"), fs)
    end.

(** [appendFileSync(p, data)]: the file is created when it is missing;
    its directory must be there. *)
Definition appendFileSync (p : path) (data : string) : M FS unit :=
  fun fs =>
    match fs !! p with
    | Some (File content) => (Ok tt, <[p := File (content +:+ data)]> fs)
    | Some Dir => (Throw (FsError "EISDIR"), fs)
    | None =>
        match fs !! dirname p with
        | Some Dir => (Ok tt, <[p := File data]> fs)
        | Some (File _) => (Throw (FsError "ENOTDIR"), fs)
        | None => (Throw (FsError "ENOENT"), fs)
        end
    end.

End Fs.

(* ===================================================================== *)
(** ** The JSON codec of the runtime *)
(* ===================================================================== *)

(** [JSON.stringify(agent, null, 2)] and [JSON.parse(content) as
    RegisteredAgent].  They belong to the JavaScript runtime, not to the
    repository, and are taken as given.  [JSON_parse] answers [None] where
    [JSON.parse] throws.  The cast in the source is unchecked: documents
    that are valid JSON but not agent records are outside this model. *)
Class Json := {
  JSON_stringify : RegisteredAgent -> string;
  JSON_parse : string -> option RegisteredAgent;
}.

(** The one law used: a record comes back from its document, up to the
    [undefined]s JSON cannot write. *)
Class JsonLaws `{Json} := {
  JSON_parse_stringify :
    forall a, JSON_parse (JSON_stringify a) = Some (agent_clean a);
}.

(* ===================================================================== *)
(** ** Filters (both backends carry the same [matchesFilter]) *)
(* ===================================================================== *)

(** [if (filter.f && agent.f !== filter.f) return false], three times. *)
Definition matchesFilter (a : RegisteredAgent) (flt : AgentFilter) : bool :=
  if match f_lifespan flt with
     | Some l => negb (bool_decide (lifespan a = l))
     | None => false
     end
  then false
  else if truthy (f_scope flt) && negb (bool_decide (Some (scope a) = f_scope flt))
  then false
  else if truthy (f_name flt) && negb (bool_decide (Some (name a) = f_name flt))
  then false
  else true.

(** [!filter || this.matchesFilter(agent, filter)]. *)
Definition passes (flt : option AgentFilter) (a : RegisteredAgent) : bool :=
  match flt with
  | None => true
  | Some f => matchesFilter a f
  end.

Definition by_scope (sc : string) : AgentFilter :=
  {| f_lifespan := None; f_scope := Some sc; f_name := None |}.

Definition by_lifespan (l : AgentLifespan) : AgentFilter :=
  {| f_lifespan := Some l; f_scope := None; f_name := None |}.

(* ===================================================================== *)
(** ** In-memory storage ([src/storage/memory.ts]) *)
(* ===================================================================== *)

(** The two [Map]s: [agents] by id, [nameIndex] from ["name:scope"] to
    id.  The stored objects are shared with the callers in the source;
    no caller modelled here changes a record without saving it under the
    same id, so a map of values says the same. *)
Record MemoryState := {
  agents : gmap string RegisteredAgent;
  nameIndex : gmap string string;
}.

Module MemoryStorage.

Definition getNameKey (nm sc : string) : string := nm +:+ ":" +:+ sc.

Definition save (a : RegisteredAgent) : M MemoryState unit :=
  modify (fun m =>
    {| agents := <[agentId a := a]> (agents m);
       nameIndex := <[getNameKey (name a) (scope a) := agentId a]> (nameIndex m) |}).

Definition load (id : string) : M MemoryState (option RegisteredAgent) :=
  gets (fun m => agents m !! id).

(** [if (!agentId) return null]: a missing entry and an empty id alike. *)
Definition findByNameAndScope (nm sc : string)
  : M MemoryState (option RegisteredAgent) :=
  gets (fun m =>
    match nameIndex m !! getNameKey nm sc with
    | Some id => if String.eqb id "" then None else agents m !! id
    | None => None
    end).

Definition delete_ (id : string) : M MemoryState unit :=
  modify (fun m =>
    match agents m !! id with
    | Some a =>
        {| agents := delete id (agents m);
           nameIndex := delete (getNameKey (name a) (scope a)) (nameIndex m) |}
    | None => m
    end).

(** [this.agents.values()]. *)
Definition values (m : MemoryState) : list RegisteredAgent :=
  map snd (map_to_list (agents m)).

Definition deleteMany (flt : AgentFilter) : M MemoryState nat :=
  vals <- gets values ;;
  let toDelete := map agentId (filter (fun a => matchesFilter a flt) vals) in
  for_fold toDelete 0 (fun deleted id => delete_ id ;;; ret (S deleted)).

Definition list_ (flt : option AgentFilter) : M MemoryState (list RegisteredAgent) :=
  vals <- gets values ;;
  ret (filter (fun a => passes flt a) vals).

Definition empty : MemoryState := {| agents := ∅; nameIndex := ∅ |}.

(** [get size()]. *)
Definition size (m : MemoryState) : nat := base.size (agents m).

End MemoryStorage.

(* ===================================================================== *)
(** ** File storage ([src/storage/file.ts]) *)
(* ===================================================================== *)

(** One instance: where the tree starts and which lifespan it serves.
    [basePath] is the directory the configured path resolves to. *)
Record FileStorageConfig := {
  basePath : path;
  storageLifespan : AgentLifespan;
}.

Module FileStorage.
Section WithJson.
Context `{Json}.

Definition getAgentPathByNameAndScope (this : FileStorageConfig)
    (nm sc : string) : result path :=
  match storageLifespan this with
  | session => Ok (join (basePath this) ["session"; sc; nm +:+ ".json"])
  | workflow => Ok (join (basePath this) ["workflow"; sc; nm +:+ ".json"])
  | project => Ok (join (basePath this) ["project"; nm +:+ ".json"])
  | l => Throw (UnsupportedLifespan l)
  end.

Definition getAgentPath (this : FileStorageConfig) (a : RegisteredAgent)
  : result path :=
  getAgentPathByNameAndScope this (name a) (scope a).

Definition lifespanDir (this : FileStorageConfig) : path :=
  join (basePath this) [lifespan_name (storageLifespan this)].

(** The constructor's [ensureBaseDir]. *)
Definition ensureBaseDir (this : FileStorageConfig) : M FS unit :=
  ex <- Fs.existsSync (lifespanDir this) ;;
  if negb ex then Fs.mkdirSync_recursive (lifespanDir this) else ret tt.

Definition save (this : FileStorageConfig) (a : RegisteredAgent) : M FS unit :=
  p <- lift_result (getAgentPath this a) ;;
  let dir := dirname p in
  ex <- Fs.existsSync dir ;;
  (if negb ex then Fs.mkdirSync_recursive dir else ret tt) ;;;
  Fs.writeFileSync p (JSON_stringify a).

(** [JSON.parse(readFileSync(p, 'utf-8'))]. *)
Definition read_json (p : path) : M FS RegisteredAgent :=
  content <- Fs.readFileSync p ;;
  match JSON_parse content with
  | Some a => ret a
  | None => throw SyntaxError
  end.

Definition findByNameAndScope (this : FileStorageConfig) (nm sc : string)
  : M FS (option RegisteredAgent) :=
  p <- lift_result (getAgentPathByNameAndScope this nm sc) ;;
  ex <- Fs.existsSync p ;;
  if negb ex then ret None
  else try_catch (a <- read_json p ;; ret (Some a)) (ret None).

(** The body of the loops in [list]: the [try] around one file. *)
Definition read_entry (flt : option AgentFilter) (p : path)
    (results : list RegisteredAgent) : M FS (list RegisteredAgent) :=
  try_catch
    (a <- read_json p ;;
     if passes flt a then ret (results ++ [a]) else ret results)
    (ret results).

Definition is_json (f : string) : bool := endsWith f ".json".

Definition list_ (this : FileStorageConfig) (flt : option AgentFilter)
  : M FS (list RegisteredAgent) :=
  ex <- Fs.existsSync (lifespanDir this) ;;
  if negb ex then ret []
  else if bool_decide (storageLifespan this = project) then
    names <- Fs.readdirSync (lifespanDir this) ;;
    for_fold (filter (fun f => is_json f) names) []
      (fun results file =>
         read_entry flt (join (lifespanDir this) [file]) results)
  else
    ds <- Fs.readdirSync_withFileTypes (lifespanDir this) ;;
    let scopeDirs := map fst (filter (fun d => Fs.isDirectory d) ds) in
    for_fold scopeDirs []
      (fun results sc =>
         let scopePath := join (lifespanDir this) [sc] in
         names <- Fs.readdirSync scopePath ;;
         for_fold (filter (fun f => is_json f) names) results
           (fun results file =>
              read_entry flt (join scopePath [file]) results)).

Definition load (this : FileStorageConfig) (id : string)
  : M FS (option RegisteredAgent) :=
  all <- list_ this None ;;
  ret (find (fun a => String.eqb (agentId a) id) all).

Definition delete_ (this : FileStorageConfig) (id : string) : M FS unit :=
  found <- load this id ;;
  match found with
  | Some a =>
      p <- lift_result (getAgentPath this a) ;;
      ex <- Fs.existsSync p ;;
      if ex then Fs.unlinkSync p else ret tt
  | None => ret tt
  end.

Definition cleanEmptyDirs (this : FileStorageConfig) : M FS unit :=
  ex <- Fs.existsSync (lifespanDir this) ;;
  if negb ex then ret tt
  else if negb (bool_decide (storageLifespan this = project)) then
    ds <- Fs.readdirSync_withFileTypes (lifespanDir this) ;;
    let scopeDirs := map fst (filter (fun d => Fs.isDirectory d) ds) in
    for_each scopeDirs
      (fun sc =>
         let scopePath := join (lifespanDir this) [sc] in
         files <- Fs.readdirSync scopePath ;;
         if Nat.eqb (length files) 0 then Fs.rmSync_recursive scopePath
         else ret tt)
  else ret tt.

Definition deleteMany (this : FileStorageConfig) (flt : AgentFilter)
  : M FS nat :=
  found <- list_ this (Some flt) ;;
  deleted <- for_fold found 0
    (fun deleted a =>
       p <- lift_result (getAgentPath this a) ;;
       ex <- Fs.existsSync p ;;
       if ex then Fs.unlinkSync p ;;; ret (S deleted) else ret deleted) ;;
  cleanEmptyDirs this ;;;
  ret deleted.

Definition deleteScope (this : FileStorageConfig) (sc : string) : M FS nat :=
  deleteMany this (by_scope sc).

End WithJson.
End FileStorage.

(* ===================================================================== *)
(** ** The registry ([src/registry.ts]) *)
(* ===================================================================== *)

(** Everything the registry can touch: the process-wide memory table and
    the directory tree the three file storages share. *)
Record State := {
  memory : MemoryState;
  disk : FS;
}.

Definition on_memory {A} (m : M MemoryState A) : M State A :=
  fun s => let (r, mem') := m (memory s) in
           (r, {| memory := mem'; disk := disk s |}).

Definition on_disk {A} (m : M FS A) : M State A :=
  fun s => let (r, fs') := m (disk s) in
           (r, {| memory := memory s; disk := fs' |}).

(** The [AgentStorage] interface has two implementations. *)
Inductive AgentStorage :=
  | MemoryBackend
  | FileBackend (this : FileStorageConfig).

(** The registry object.  Its [memoryStorage] is the process-wide
    singleton and its [fileStorages] are [createFileStorages(storagePath)].
    The logger is an observer the operations do not depend on and is
    left out. *)
Record AgentRegistry := {
  storagePath : path;
}.

Module Registry.
Section WithJson.
Context `{Json}.

Definition fileStorage (this : AgentRegistry) (l : AgentLifespan)
  : FileStorageConfig :=
  {| basePath := storagePath this; storageLifespan := l |}.

(** [Object.values(this.fileStorages)], in the order the object
    literal of [createFileStorages] lists them. *)
Definition fileStorages (this : AgentRegistry) : list FileStorageConfig :=
  [fileStorage this session; fileStorage this workflow;
   fileStorage this project].

(** The constructor: each file storage makes sure its directory is
    there. *)
Definition new_registry (base : path) : M State AgentRegistry :=
  let this := {| storagePath := base |} in
  on_disk (for_each (fileStorages this) FileStorage.ensureBaseDir) ;;;
  ret this.

Section Dispatch.
Definition storage_save (st : AgentStorage) (a : RegisteredAgent)
  : M State unit :=
  match st with
  | MemoryBackend => on_memory (MemoryStorage.save a)
  | FileBackend f => on_disk (FileStorage.save f a)
  end.

Definition storage_load (st : AgentStorage) (id : string)
  : M State (option RegisteredAgent) :=
  match st with
  | MemoryBackend => on_memory (MemoryStorage.load id)
  | FileBackend f => on_disk (FileStorage.load f id)
  end.

Definition storage_findByNameAndScope (st : AgentStorage) (nm sc : string)
  : M State (option RegisteredAgent) :=
  match st with
  | MemoryBackend => on_memory (MemoryStorage.findByNameAndScope nm sc)
  | FileBackend f => on_disk (FileStorage.findByNameAndScope f nm sc)
  end.

Definition storage_delete (st : AgentStorage) (id : string) : M State unit :=
  match st with
  | MemoryBackend => on_memory (MemoryStorage.delete_ id)
  | FileBackend f => on_disk (FileStorage.delete_ f id)
  end.

Definition storage_deleteMany (st : AgentStorage) (flt : AgentFilter)
  : M State nat :=
  match st with
  | MemoryBackend => on_memory (MemoryStorage.deleteMany flt)
  | FileBackend f => on_disk (FileStorage.deleteMany f flt)
  end.

Definition storage_list (st : AgentStorage) (flt : option AgentFilter)
  : M State (list RegisteredAgent) :=
  match st with
  | MemoryBackend => on_memory (MemoryStorage.list_ flt)
  | FileBackend f => on_disk (FileStorage.list_ f flt)
  end.
End Dispatch.

(** [getStorage(lifespan)]: the argument is the run-time string. *)
Definition getStorage (this : AgentRegistry) (l : option string)
  : result AgentStorage :=
  match l ≫= parse_lifespan with
  | Some ephemeral | Some turn | Some context => Ok MemoryBackend
  | Some session => Ok (FileBackend (fileStorage this session))
  | Some workflow => Ok (FileBackend (fileStorage this workflow))
  | Some project => Ok (FileBackend (fileStorage this project))
  | None => Throw (InvalidConfigError "Unknown lifespan")
  end.

(** [a ?? b]. *)
Definition nullish {A} (a : option A) (b : A) : A := default b a.

(** [getScope(config)]; [None] is [undefined], which only a workflow
    configuration without [workflowId] yields. *)
Definition getScope (env : Env) (config : AnyAgentConfig) : option string :=
  match c_lifespan config ≫= parse_lifespan with
  | Some ephemeral => Some "ephemeral"
  | Some turn => Some (nullish (CLAUDE_SESSION_ID env) "turn")
  | Some context => Some (nullish (CLAUDE_SESSION_ID env) "context")
  | Some session =>
      Some (nullish (c_sessionId config)
              (nullish (CLAUDE_SESSION_ID env) "unknown-session"))
  | Some workflow => c_workflowId config
  | Some project => Some (nullish (c_projectPath config) (cwd env))
  | None => Some "unknown"
  end.

Definition validateConfig (config : AnyAgentConfig) : result unit :=
  if negb (truthy (c_name config))
  then Throw (InvalidConfigError "Agent name is required")
  else if negb (truthy (c_lifespan config))
  then Throw (InvalidConfigError "Agent lifespan is required")
  else if bool_decide (c_lifespan config = Some "workflow")
          && negb (truthy (c_workflowId config))
  then Throw (InvalidConfigError "workflowId is required for workflow-scoped agents")
  else Ok tt.

Definition getDefaultScope (env : Env) (l : AgentLifespan) : string :=
  match l with
  | ephemeral => "ephemeral"
  | turn => nullish (CLAUDE_SESSION_ID env) "turn"
  | context => nullish (CLAUDE_SESSION_ID env) "context"
  | session => nullish (CLAUDE_SESSION_ID env) "unknown-session"
  | workflow => ""
  | project => cwd env
  end.

(** The record [create] builds when nothing is found; [now] and [later]
    are the two readings of the clock, in the order of the fields. *)
Definition new_agent (uuid now later : string) (config : AnyAgentConfig)
    (nm : string) (l : AgentLifespan) (sc : string) : RegisteredAgent :=
  let a :=
    {| agentId := uuid; name := nm; lifespan := l; scope := sc;
       model := nullish (c_model config) haiku;
       createdAt := now; lastUsedAt := later; turnCount := 0;
       metadata := nullish (c_metadata config) [] |} in
  if bool_decide (l = workflow)
  then set_metadata
         (obj_set "workflowType"
            (match c_workflowType config with
             | Some t => JStr t
             | None => JUndefined
             end)
            (metadata a)) a
  else a.

(** [create(config)].  [uuid] is what [randomUUID()] returns; [now] is
    what the first [new Date().toISOString()] of the call returns and
    [later] what the second one returns: a call that finds the record
    reads the clock once, a call that builds a record reads it for
    [createdAt] and again for [lastUsedAt].  Once
    [validateConfig] and [getStorage] have returned, the name and the
    lifespan of the configuration are a string and one of the six
    literals, and the scope is a string; the last branch of the match
    is never taken. *)
Definition create (this : AgentRegistry) (env : Env) (uuid now later : string)
    (config : AnyAgentConfig) : M State CreateResult :=
  lift_result (validateConfig config) ;;;
  let sc := getScope env config in
  storage <- lift_result (getStorage this (c_lifespan config)) ;;
  match c_name config, c_lifespan config ≫= parse_lifespan, sc with
  | Some nm, Some l, Some sc =>
      existing <- storage_findByNameAndScope storage nm sc ;;
      match existing with
      | Some existing =>
          let existing := set_lastUsedAt now existing in
          storage_save storage existing ;;;
          ret {| agent := existing; isNew := false |}
      | None =>
          let a := new_agent uuid now later config nm l sc in
          storage_save storage a ;;;
          ret {| agent := a; isNew := true |}
      end
  | _, _, _ => throw (InvalidConfigError "unreachable")
  end.

(** The tiers [resume] probes, in order. *)
Definition resume_storages (this : AgentRegistry)
  : list (AgentLifespan * AgentStorage) :=
  [(turn, MemoryBackend); (context, MemoryBackend);
   (session, FileBackend (fileStorage this session));
   (workflow, FileBackend (fileStorage this workflow));
   (project, FileBackend (fileStorage this project))].

Fixpoint resume_loop (env : Env) (now nm : string) (sc : option string)
    (storages : list (AgentLifespan * AgentStorage))
  : M State RegisteredAgent :=
  match storages with
  | [] => throw (AgentNotFoundError nm)
  | (l, storage) :: rest =>
      let searchScope := nullish sc (getDefaultScope env l) in
      found <- storage_findByNameAndScope storage nm searchScope ;;
      match found with
      | Some a =>
          let a := incr_turnCount (set_lastUsedAt now a) in
          storage_save storage a ;;;
          ret a
      | None => resume_loop env now nm sc rest
      end
  end.

Definition resume (this : AgentRegistry) (env : Env) (now nm : string)
    (sc : option string) : M State RegisteredAgent :=
  resume_loop env now nm sc (resume_storages this).

(** [get(agentId)]: memory first, then each file storage. *)
Fixpoint get_loop (id : string) (storages : list FileStorageConfig)
  : M State (option RegisteredAgent) :=
  match storages with
  | [] => ret None
  | f :: rest =>
      found <- on_disk (FileStorage.load f id) ;;
      match found with
      | Some a => ret (Some a)
      | None => get_loop id rest
      end
  end.

Definition get (this : AgentRegistry) (id : string)
  : M State (option RegisteredAgent) :=
  found <- on_memory (MemoryStorage.load id) ;;
  match found with
  | Some a => ret (Some a)
  | None => get_loop id (fileStorages this)
  end.

Definition dispose (this : AgentRegistry) (id : string) : M State unit :=
  found <- get this id ;;
  match found with
  | None => ret tt
  | Some a =>
      storage <- lift_result
                   (getStorage this (Some (lifespan_name (lifespan a)))) ;;
      storage_delete storage id
  end.

Definition disposeByLifespan (this : AgentRegistry) (l : AgentLifespan)
  : M State nat :=
  storage <- lift_result (getStorage this (Some (lifespan_name l))) ;;
  storage_deleteMany storage (by_lifespan l).

Definition disposeByScope (this : AgentRegistry) (sc : string) : M State nat :=
  n <- on_memory (MemoryStorage.deleteMany (by_scope sc)) ;;
  for_fold (fileStorages this) n
    (fun totalDisposed f =>
       k <- on_disk (FileStorage.deleteMany f (by_scope sc)) ;;
       ret (totalDisposed + k)).

Definition list_ (this : AgentRegistry) (flt : option AgentFilter)
  : M State (list RegisteredAgent) :=
  mem <- on_memory (MemoryStorage.list_ flt) ;;
  for_fold (fileStorages this) mem
    (fun results f =>
       more <- on_disk (FileStorage.list_ f flt) ;;
       ret (results ++ more)).

Definition startWorkflow (this : AgentRegistry) (env : Env)
    (uuid now later : string) (config : AnyAgentConfig) : M State RegisteredAgent :=
  r <- create this env uuid now later config ;;
  ret (agent r).

Definition completeWorkflow (this : AgentRegistry) (workflowId : string)
  : M State nat :=
  on_disk (FileStorage.deleteMany (fileStorage this workflow)
             (by_scope workflowId)).

Definition getWorkflowAgents (this : AgentRegistry) (workflowId : string)
  : M State (list RegisteredAgent) :=
  on_disk (FileStorage.list_ (fileStorage this workflow)
             (Some (by_scope workflowId))).

End WithJson.
End Registry.

(* ===================================================================== *)
(** ** The lifecycle hooks ([hooks/lifecycle-manager.ts]) *)
(* ===================================================================== *)

(** The two handlers the script registers with the hook manager, as
    they run with [isDebugMode] off: the [console] calls of the source
    all sit behind that flag.  [registry] is the registry the script
    constructs. *)
Module LifecycleManager.
Section WithJson.
Context `{Json}.

(** The handler of the [Stop] event. *)
Definition onStop (registry : AgentRegistry) : M State unit :=
  try_catch
    (disposed <- Registry.disposeByLifespan registry turn ;; ret tt)
    (ret tt).

(** The handler of the [SessionEnd] event; [session_id] is
    [input.session_id]. *)
Definition onSessionEnd (registry : AgentRegistry) (session_id : string)
  : M State unit :=
  try_catch
    (disposed <- Registry.disposeByScope registry session_id ;; ret tt)
    (ret tt).

End WithJson.
End LifecycleManager.

(* ===================================================================== *)
(** ** Path helpers ([src/utils/paths.ts]) *)
(* ===================================================================== *)

(** [basePath] is, as for a file storage, the directory the configured
    path resolves to; the lifespan is the run-time string. *)
Module Paths.

Definition DEFAULT_STORAGE_PATH : string := ".agent/agents".

Definition DEFAULT_LOG_PATH : string := ".agent/agents/lifecycle.log".

Definition getLifespanPath (basePath : path) (l : string) : path :=
  join basePath [l].

(** [None] is the [throw new Error(...)] of the [default] branch. *)
Definition getAgentPath (basePath : path) (l sc nm : string) : option path :=
  if String.eqb l "session"
  then Some (join basePath ["session"; sc; nm +:+ ".json"])
  else if String.eqb l "workflow"
  then Some (join basePath ["workflow"; sc; nm +:+ ".json"])
  else if String.eqb l "project"
  then Some (join basePath ["project"; nm +:+ ".json"])
  else None.

Definition resolveStoragePath (basePath : option string) : string :=
  Registry.nullish basePath DEFAULT_STORAGE_PATH.

End Paths.

(* ===================================================================== *)
(** ** The lifecycle logger ([src/utils/logger.ts]) *)
(* ===================================================================== *)

(** The logger prints on the console and appends to a log file.  The
    console is the list of the lines printed so far; the log file lives
    in a directory tree like the one of the file storages.  The time
    stamp [new Date().toISOString()] of a call is an input, [now], and
    [JSON.stringify] of a payload is an input as it is for records. *)

Inductive LifecycleEvent :=
  | agent_created | agent_resumed | agent_disposed | agent_updated
  | workflow_started | workflow_completed | lifecycle_cleanup.

Definition event_name (e : LifecycleEvent) : string :=
  match e with
  | agent_created => "agent:created"
  | agent_resumed => "agent:resumed"
  | agent_disposed => "agent:disposed"
  | agent_updated => "agent:updated"
  | workflow_started => "workflow:started"
  | workflow_completed => "workflow:completed"
  | lifecycle_cleanup => "lifecycle:cleanup"
  end.

(** [lifespan] is the string the caller passes (the methods cast it
    with [as any]). *)
Record LifecycleEventPayload := {
  p_event : LifecycleEvent;
  p_timestamp : string;
  p_agentId : option string;
  p_agentName : option string;
  p_lifespan : option string;
  p_scope : option string;
  p_metadata : option JsObject;
}.

Inductive LogFormat := format_json | format_text.

(** [cfg_logPath] is the path the configured string resolves to;
    [None] stands for a missing and for an empty string, which
    [if (this.logPath)] treats alike. *)
Record LoggerConfig := {
  cfg_debug : option bool;
  cfg_logPath : option path;
  cfg_format : option LogFormat;
  cfg_timestamps : option bool;
  cfg_prefix : option string;
}.

Record LifecycleLogger := {
  log_debug : bool;
  log_path : option path;
  log_format : LogFormat;
  log_prefix : string;
}.

Record LogState := {
  console : list string;
  log_disk : FS;
}.

Class PayloadJson := {
  JSON_stringify_payload : LifecycleEventPayload -> string;
}.

Definition newline : string := String "010"%char EmptyString.

Module Logger.
Section WithJson.
Context `{PayloadJson}.

Definition console_log (line : string) : M LogState unit :=
  modify (fun st => {| console := console st ++ [line]; log_disk := log_disk st |}).

Definition on_log_disk {A} (m : M FS A) : M LogState A :=
  fun st => let (r, fs') := m (log_disk st) in
            (r, {| console := console st; log_disk := fs' |}).

(** The fields the constructor sets; [AGENT_LIFECYCLE_DEBUG] is
    [process.env.AGENT_LIFECYCLE_DEBUG]. *)
Definition make (AGENT_LIFECYCLE_DEBUG : option string) (config : LoggerConfig)
  : LifecycleLogger :=
  {| log_debug := bool_decide (AGENT_LIFECYCLE_DEBUG = Some "true")
                  || bool_decide (cfg_debug config = Some true);
     log_path := cfg_logPath config;
     log_format := Registry.nullish (cfg_format config) format_json;
     log_prefix := Registry.nullish (cfg_prefix config) "[agent-lifecycle]" |}.

(** The constructor: it makes the directory of the log file. *)
Definition new_logger (AGENT_LIFECYCLE_DEBUG : option string)
    (config : LoggerConfig) : M LogState LifecycleLogger :=
  let this := make AGENT_LIFECYCLE_DEBUG config in
  match log_path this with
  | Some p =>
      let dir := dirname p in
      ex <- on_log_disk (Fs.existsSync dir) ;;
      (if negb ex then on_log_disk (Fs.mkdirSync_recursive dir) else ret tt) ;;;
      ret this
  | None => ret this
  end.

Definition isEnabled (this : LifecycleLogger) : bool := log_debug this.

(** The line of the [text] format: the truthy fields, joined by blanks. *)
Definition text_line (this : LifecycleLogger) (payload : LifecycleEventPayload)
  : string :=
  let parts := [log_prefix this; p_timestamp payload; event_name (p_event payload)] in
  let parts := match p_agentName payload with
               | Some n => if String.eqb n "" then parts else parts ++ ["agent=" +:+ n]
               | None => parts
               end in
  let parts := match p_lifespan payload with
               | Some l => if String.eqb l "" then parts else parts ++ ["lifespan=" +:+ l]
               | None => parts
               end in
  let parts := match p_scope payload with
               | Some sc => if String.eqb sc "" then parts else parts ++ ["scope=" +:+ sc]
               | None => parts
               end in
  String.concat " " parts.

Definition logToConsole (this : LifecycleLogger) (payload : LifecycleEventPayload)
  : M LogState unit :=
  match log_format this with
  | format_json => console_log (JSON_stringify_payload payload)
  | format_text => console_log (text_line this payload)
  end.

Definition logToFile (this : LifecycleLogger) (payload : LifecycleEventPayload)
  : M LogState unit :=
  match log_path this with
  | None => ret tt
  | Some p =>
      on_log_disk (Fs.appendFileSync p (JSON_stringify_payload payload +:+ newline))
  end.

(** The [data] argument of [log]: the fields the callers pass. *)
Record LogData := {
  d_agentId : option string;
  d_agentName : option string;
  d_lifespan : option string;
  d_scope : option string;
  d_metadata : option JsObject;
}.

Definition payload_of (event : LifecycleEvent) (now : string) (data : LogData)
  : LifecycleEventPayload :=
  {| p_event := event; p_timestamp := now;
     p_agentId := d_agentId data; p_agentName := d_agentName data;
     p_lifespan := d_lifespan data; p_scope := d_scope data;
     p_metadata := d_metadata data |}.

Definition log (this : LifecycleLogger) (now : string) (event : LifecycleEvent)
    (data : LogData) : M LogState unit :=
  if negb (log_debug this) then ret tt
  else
    let payload := payload_of event now data in
    logToConsole this payload ;;;
    match log_path this with
    | Some _ => logToFile this payload
    | None => ret tt
    end.

Definition agentCreated (this : LifecycleLogger) (now agentId nm l sc : string)
  : M LogState unit :=
  log this now agent_created
    {| d_agentId := Some agentId; d_agentName := Some nm;
       d_lifespan := Some l; d_scope := Some sc; d_metadata := None |}.

Definition agentResumed (this : LifecycleLogger) (now agentId nm l sc : string)
  : M LogState unit :=
  log this now agent_resumed
    {| d_agentId := Some agentId; d_agentName := Some nm;
       d_lifespan := Some l; d_scope := Some sc; d_metadata := None |}.

Definition agentDisposed (this : LifecycleLogger) (now agentId nm l sc : string)
  : M LogState unit :=
  log this now agent_disposed
    {| d_agentId := Some agentId; d_agentName := Some nm;
       d_lifespan := Some l; d_scope := Some sc; d_metadata := None |}.

Definition workflowStarted (this : LifecycleLogger)
    (now workflowId agentId nm : string) : M LogState unit :=
  log this now workflow_started
    {| d_agentId := Some agentId; d_agentName := Some nm;
       d_lifespan := None; d_scope := None;
       d_metadata := Some [("workflowId", JStr workflowId)] |}.

Definition workflowCompleted (this : LifecycleLogger) (now workflowId : string)
  : M LogState unit :=
  log this now workflow_completed
    {| d_agentId := None; d_agentName := None; d_lifespan := None;
       d_scope := None; d_metadata := Some [("workflowId", JStr workflowId)] |}.

Definition lifecycleCleanup (this : LifecycleLogger) (now l : string) (count : nat)
  : M LogState unit :=
  log this now lifecycle_cleanup
    {| d_agentId := None; d_agentName := None; d_lifespan := Some l;
       d_scope := None;
       d_metadata := Some [("disposedCount", JNum (Z.of_nat count))] |}.

End WithJson.
End Logger.

(* ===================================================================== *)
(** ** A codec that satisfies the law *)
(* ===================================================================== *)

(** The statements below hold for every codec with the law
    [JSON_parse_stringify].  To run the definitions on concrete inputs a
    codec is needed; this one writes a record as a string of binary
    digits.  It is not JSON, and nothing below depends on its format. *)
Module RefCodec.

Definition leaf : Type := Z + string.

Fixpoint value_tree (v : JsValue) : gen_tree leaf :=
  match v with
  | JUndefined => GenNode 0 []
  | JNull => GenNode 1 []
  | JBool true => GenNode 2 []
  | JBool false => GenNode 3 []
  | JNum n => GenLeaf (inl n)
  | JStr s => GenLeaf (inr s)
  | JArr items => GenNode 4 (map value_tree items)
  | JObj props =>
      GenNode 5 (map (fun '(k, x) => GenNode 6 [GenLeaf (inr k); value_tree x])
                     props)
  end.

Fixpoint tree_value (t : gen_tree leaf) : JsValue :=
  match t with
  | GenLeaf (inl n) => JNum n
  | GenLeaf (inr s) => JStr s
  | GenNode 0 _ => JUndefined
  | GenNode 1 _ => JNull
  | GenNode 2 _ => JBool true
  | GenNode 3 _ => JBool false
  | GenNode 4 ts => JArr (map tree_value ts)
  | GenNode 5 ts =>
      JObj (map (fun t => match t with
                          | GenNode _ [GenLeaf (inr k); t'] => (k, tree_value t')
                          | _ => ("", JNull)
                          end) ts)
  | GenNode _ _ => JNull
  end.

Definition lifespan_index (l : AgentLifespan) : Z :=
  match l with
  | ephemeral => 0 | turn => 1 | context => 2
  | session => 3 | workflow => 4 | project => 5
  end%Z.

Definition index_lifespan (n : Z) : option AgentLifespan :=
  match n with
  | 0 => Some ephemeral | 1 => Some turn | 2 => Some context
  | 3 => Some session | 4 => Some workflow | 5 => Some project
  | _ => None
  end%Z.

Definition model_index (m : AgentModel) : Z :=
  match m with haiku => 0 | sonnet => 1 | opus => 2 end%Z.

Definition index_model (n : Z) : option AgentModel :=
  match n with
  | 0 => Some haiku | 1 => Some sonnet | 2 => Some opus
  | _ => None
  end%Z.

Definition agent_tree (a : RegisteredAgent) : gen_tree leaf :=
  GenNode 7
    [GenLeaf (inr (agentId a)); GenLeaf (inr (name a));
     GenLeaf (inl (lifespan_index (lifespan a))); GenLeaf (inr (scope a));
     GenLeaf (inl (model_index (model a))); GenLeaf (inr (createdAt a));
     GenLeaf (inr (lastUsedAt a)); GenLeaf (inl (Z.of_nat (turnCount a)));
     value_tree (JObj (metadata a))].

Definition tree_agent (t : gen_tree leaf) : option RegisteredAgent :=
  match t with
  | GenNode 7
      [GenLeaf (inr id); GenLeaf (inr nm); GenLeaf (inl l); GenLeaf (inr sc);
       GenLeaf (inl m); GenLeaf (inr created); GenLeaf (inr used);
       GenLeaf (inl turns); meta] =>
      l ← index_lifespan l;
      m ← index_model m;
      match tree_value meta with
      | JObj props =>
          Some {| agentId := id; name := nm; lifespan := l; scope := sc;
                  model := m; createdAt := created; lastUsedAt := used;
                  turnCount := Z.to_nat turns; metadata := props |}
      | _ => None
      end
  | _ => None
  end.

Fixpoint pos_bits (p : positive) : string :=
  match p with
  | xH => EmptyString
  | xO q => String "0" (pos_bits q)
  | xI q => String "1" (pos_bits q)
  end.

Fixpoint bits_pos (s : string) : option positive :=
  match s with
  | EmptyString => Some xH
  | String c s' =>
      q ← bits_pos s';
      if Ascii.eqb c "0" then Some (xO q)
      else if Ascii.eqb c "1" then Some (xI q)
      else None
  end.

Definition stringify (a : RegisteredAgent) : string :=
  pos_bits (encode (agent_tree (agent_clean a))).

Definition parse (s : string) : option RegisteredAgent :=
  p ← bits_pos s; t ← decode p; tree_agent t.

#[export] Instance json : Json :=
  {| JSON_stringify := stringify; JSON_parse := parse |}.

End RefCodec.

(** A payload writer to run the logger on concrete inputs: the event
    name and the time stamp.  It is not JSON, and nothing below depends
    on its format. *)
Module RefPayload.
#[export] Instance json : PayloadJson :=
  {| JSON_stringify_payload p := event_name (p_event p) +:+ "@" +:+ p_timestamp p |}.
End RefPayload.

(* ===================================================================== *)
(** * Vocabulary of the statements *)
(* ===================================================================== *)

(** The reading of the filter contract in the specification: every field
    that is present must be equal. *)
Definition matches_present_fields (a : RegisteredAgent) (flt : AgentFilter)
  : Prop :=
  (forall l, f_lifespan flt = Some l -> lifespan a = l) /\
  (forall s, f_scope flt = Some s -> scope a = s) /\
  (forall n, f_name flt = Some n -> name a = n).

Definition sample_agent (nm sc : string) (l : AgentLifespan) : RegisteredAgent :=
  {| agentId := "id-" +:+ nm; name := nm; lifespan := l; scope := sc;
     model := haiku; createdAt := "t0"; lastUsedAt := "t0"; turnCount := 0;
     metadata := [] |}.

Definition base_config (l nm : string) : AnyAgentConfig :=
  {| c_lifespan := Some l; c_name := Some nm; c_model := None;
     c_metadata := None; c_sessionId := None; c_workflowId := None;
     c_workflowType := None; c_projectPath := None |}.

(** The configurations C6 speaks of. *)
Definition invalid_config (config : AnyAgentConfig) : Prop :=
  truthy (c_name config) = false \/
  c_lifespan config = None \/
  (c_lifespan config ≫= parse_lifespan) = None \/
  (c_lifespan config = Some "workflow" /\
   truthy (c_workflowId config) = false).

(** A string without a ['/']. *)
Fixpoint has_sep (s : string) : bool :=
  match s with
  | EmptyString => false
  | String c s' => Ascii.eqb c "/" || has_sep s'
  end.

(** A single path segment: a string [path.join] appends as it is. *)
Definition is_segment (s : string) : bool :=
  negb (has_sep s) && negb (String.eqb s "") && negb (String.eqb s ".")
  && negb (String.eqb s "..").

(** The lifespans a file storage serves. *)
Definition durable (l : AgentLifespan) : Prop :=
  l = session \/ l = workflow \/ l = project.

(** What a write to [p] needs from the tree: no regular file on the way
    down to the directory of [p], and no directory at [p] itself. *)
Definition can_write (fs : FS) (p : path) : Prop :=
  existsb (Fs.is_file fs) (Fs.prefixes (dirname p)) = false /\
  Fs.is_dir fs p = false.

(** The tree after [save] has written [content] at [p]: the directory of
    [p] is created, with the directories above it, when it is missing. *)
Definition written (fs : FS) (p : path) (content : string) : FS :=
  <[p := File content]>
    (if bool_decide (is_Some (fs !! dirname p)) then fs
     else foldr (fun q m => <[q := Dir]> m) fs (Fs.prefixes (dirname p))).

(** What [save] on a backend needs in order not to fail: nothing for the
    memory table, a writable document path for a file storage. *)
Definition storage_can_save `{Json} (st : AgentStorage) (nm sc : string)
    (s : State) : Prop :=
  match st with
  | MemoryBackend => True
  | FileBackend f =>
      forall p, FileStorage.getAgentPathByNameAndScope f nm sc = Ok p ->
                can_write (disk s) p
  end.

(** *** What a file storage lists *)

(** Names in the tree are what a file system allows: single segments. *)
Definition tree_names_valid (fs : FS) : Prop :=
  forall p, is_Some (fs !! p) -> Forall (fun x => is_segment x = true) p.

(** The record a document holds, when [p] is a regular file whose
    content parses. *)
Definition document_at `{Json} (fs : FS) (p : path) : option RegisteredAgent :=
  match fs !! p with
  | Some (File content) => JSON_parse content
  | _ => None
  end.

(** Where [list] looks for documents: the [.json] entries of the
    lifespan directory for the project storage, and of its
    subdirectories for the others. *)
Definition document_position (this : FileStorageConfig) (fs : FS) (p : path)
  : Prop :=
  if bool_decide (storageLifespan this = project)
  then exists f, p = FileStorage.lifespanDir this ++ [f] /\
                 FileStorage.is_json f = true
  else exists d f, p = FileStorage.lifespanDir this ++ [d; f] /\
                   fs !! (FileStorage.lifespanDir this ++ [d]) = Some Dir /\
                   FileStorage.is_json f = true.

(** A file name with the extension [.json]. *)
Definition json_name (f : string) : Prop := exists stem, f = stem +:+ ".json".

(** The documents of the storage for lifespan [l] under [base], said
    without the code: the [.json] entries of [base/project] for the
    project storage, and the [.json] entries of the directories
    [base/<lifespan>/<scope>] for the others. *)
Definition json_document (base : path) (l : AgentLifespan) (fs : FS) (p : path)
  : Prop :=
  (l = project /\
   exists f, json_name f /\ p = base ++ ["project"; f]) \/
  (l <> project /\
   exists d f, json_name f /\
               fs !! (base ++ [lifespan_name l; d]) = Some Dir /\
               p = base ++ [lifespan_name l; d; f]).

(** The listing, computed without the loops and the [try]. *)
Definition doc_list `{Json} (flt : option AgentFilter) (fs : FS) (p : path)
  : list RegisteredAgent :=
  match document_at fs p with
  | Some a => if passes flt a then [a] else []
  | None => []
  end.

Definition dir_documents `{Json} (flt : option AgentFilter) (fs : FS)
    (dir : path) : list RegisteredAgent :=
  filter (fun f => FileStorage.is_json f) (map fst (Fs.entries fs dir))
    ≫= (fun f => doc_list flt fs (dir ++ [f])).

Definition listing `{Json} (this : FileStorageConfig)
    (flt : option AgentFilter) (fs : FS) : list RegisteredAgent :=
  if bool_decide (storageLifespan this = project)
  then dir_documents flt fs (FileStorage.lifespanDir this)
  else map fst (filter (fun d => Fs.isDirectory d)
                  (Fs.entries fs (FileStorage.lifespanDir this)))
       ≫= (fun sc => dir_documents flt fs (FileStorage.lifespanDir this ++ [sc])).

(** The paths [list] reads, in the order it reads them. *)
Definition dir_paths (fs : FS) (dir : path) : list path :=
  map (fun f => dir ++ [f])
    (filter (fun f => FileStorage.is_json f) (map fst (Fs.entries fs dir))).

Definition listing_paths (this : FileStorageConfig) (fs : FS) : list path :=
  if bool_decide (storageLifespan this = project)
  then dir_paths fs (FileStorage.lifespanDir this)
  else map fst (filter (fun d => Fs.isDirectory d)
                  (Fs.entries fs (FileStorage.lifespanDir this)))
       ≫= (fun sc => dir_paths fs (FileStorage.lifespanDir this ++ [sc])).

(** *** Sample data *)

Definition demo_registry : AgentRegistry := {| storagePath := ["srv"; "agents"] |}.

Definition demo_env : Env := {| CLAUDE_SESSION_ID := None; cwd := "/work" |}.

(** A fresh process on an empty disk, after the registry is constructed. *)
Definition demo_state : State :=
  snd (Registry.new_registry (storagePath demo_registry)
         {| memory := MemoryStorage.empty; disk := ∅ |}).

Definition project_config (nm projectPath : string) : AnyAgentConfig :=
  {| c_lifespan := Some "project"; c_name := Some nm; c_model := None;
     c_metadata := None; c_sessionId := None; c_workflowId := None;
     c_workflowType := None; c_projectPath := Some projectPath |}.

Definition workflow_config (nm workflowId : string) : AnyAgentConfig :=
  {| c_lifespan := Some "workflow"; c_name := Some nm; c_model := None;
     c_metadata := None; c_sessionId := None; c_workflowId := Some workflowId;
     c_workflowType := None; c_projectPath := None |}.

Definition session_config (nm sessionId : string) : AnyAgentConfig :=
  {| c_lifespan := Some "session"; c_name := Some nm; c_model := None;
     c_metadata := None; c_sessionId := Some sessionId; c_workflowId := None;
     c_workflowType := None; c_projectPath := None |}.

(** *** The layout of a tree the registry has built *)

(** Where the document of a record of a durable lifespan belongs. *)
Definition agent_path (base : path) (a : RegisteredAgent) : path :=
  match lifespan a with
  | project => base ++ ["project"; name a +:+ ".json"]
  | l => base ++ [lifespan_name l; scope a; name a +:+ ".json"]
  end.

(** A record whose name and scope are usable as file and directory
    names: no ['/'] in the name and, where the scope is a directory
    name, a scope that is a single segment. *)
Definition placeable (a : RegisteredAgent) : Prop :=
  durable (lifespan a) /\ has_sep (name a) = false /\
  (lifespan a <> project -> is_segment (scope a) = true).

(** The tree holds the three lifespan directories under [base], scope
    directories under the session and workflow ones, and documents of
    placeable records, each at its own path; nothing else. *)
Definition tree_ok `{Json} (base : path) (fs : FS) : Prop :=
  Forall (fun x => is_segment x = true) base /\
  (forall l, durable l -> fs !! (base ++ [lifespan_name l]) = Some Dir) /\
  (forall q, fs !! q = Some Dir ->
     q `prefix_of` base \/
     (exists l, durable l /\ q = base ++ [lifespan_name l]) \/
     (exists l sc, durable l /\ l <> project /\ is_segment sc = true /\
                   q = base ++ [lifespan_name l; sc])) /\
  (forall p content, fs !! p = Some (File content) ->
     exists a, JSON_parse content = Some a /\ placeable a /\
               p = agent_path base a /\ fs !! dirname p = Some Dir).

(** Every record of the memory table sits under its own id and has one
    of the lifespans the memory table serves. *)
Definition memory_ok (m : MemoryState) : Prop :=
  forall k a, agents m !! k = Some a ->
    agentId a = k /\ ~ durable (lifespan a).

Definition state_ok `{Json} (this : AgentRegistry) (s : State) : Prop :=
  memory_ok (memory s) /\ tree_ok (storagePath this) (disk s).

(** The file storage for lifespan [l] under [base]. *)
Definition store (base : path) (l : AgentLifespan) : FileStorageConfig :=
  {| basePath := base; storageLifespan := l |}.

(** The tree after the documents of [found] have been unlinked. *)
Definition unlink_all (base : path) (fs : FS) (found : list RegisteredAgent)
  : FS :=
  foldl (fun m a => delete (agent_path base a) m) fs found.

(** *** The records of a backend *)

(** The four backends of a registry. *)
Definition backends (this : AgentRegistry) : list AgentStorage :=
  MemoryBackend :: map FileBackend (Registry.fileStorages this).

(** The records a backend holds: what its [list()] returns. *)
Definition listed `{Json} (st : AgentStorage) (s : State) : list RegisteredAgent :=
  match Registry.storage_list st None s with
  | (Ok found, _) => found
  | (Throw _, _) => []
  end.

Definition in_scope (sc : string) (a : RegisteredAgent) : Prop := scope a = sc.

Global Instance in_scope_dec sc a : Decision (in_scope sc a).
Proof. unfold in_scope. apply _. Defined.

(** How many records of the backends carry the scope [sc]. *)
Definition count_in_scope `{Json} (sc : string) (sts : list AgentStorage)
    (s : State) : nat :=
  sum_list (map (fun st => length (filter (in_scope sc) (listed st s))) sts).

(** The records a deletion by the scope [sc] removes: those with that
    scope, and all of them when [sc] is the empty string. *)
Definition scope_selected (sc : string) (a : RegisteredAgent) : Prop :=
  sc = "" \/ scope a = sc.

Global Instance scope_selected_dec sc a : Decision (scope_selected sc a).
Proof. unfold scope_selected. apply _. Defined.

Definition count_selected `{Json} (sc : string) (sts : list AgentStorage)
    (s : State) : nat :=
  sum_list (map (fun st => length (filter (scope_selected sc) (listed st s))) sts).

(** *** States the registry reaches *)

(** The public operations of the registry, with their arguments and the
    ambient inputs of the call. *)
Inductive Call :=
  | Create (env : Env) (uuid now later : string) (config : AnyAgentConfig)
  | StartWorkflow (env : Env) (uuid now later : string) (config : AnyAgentConfig)
  | Resume (env : Env) (now nm : string) (sc : option string)
  | Get (id : string)
  | Dispose (id : string)
  | DisposeByLifespan (l : AgentLifespan)
  | DisposeByScope (sc : string)
  | ListAgents (flt : option AgentFilter)
  | CompleteWorkflow (workflowId : string)
  | GetWorkflowAgents (workflowId : string).

(** The state a call leaves behind, whether it returns or throws. *)
Definition after `{Json} (this : AgentRegistry) (c : Call) (s : State) : State :=
  match c with
  | Create env uuid now later config =>
      snd (Registry.create this env uuid now later config s)
  | StartWorkflow env uuid now later config =>
      snd (Registry.startWorkflow this env uuid now later config s)
  | Resume env now nm sc => snd (Registry.resume this env now nm sc s)
  | Get id => snd (Registry.get this id s)
  | Dispose id => snd (Registry.dispose this id s)
  | DisposeByLifespan l => snd (Registry.disposeByLifespan this l s)
  | DisposeByScope sc => snd (Registry.disposeByScope this sc s)
  | ListAgents flt => snd (Registry.list_ this flt s)
  | CompleteWorkflow workflowId =>
      snd (Registry.completeWorkflow this workflowId s)
  | GetWorkflowAgents workflowId =>
      snd (Registry.getWorkflowAgents this workflowId s)
  end.

(** A configuration whose name and scope can serve as a file name and a
    directory name: for the durable lifespans the name has no ['/'], and
    for the session and workflow lifespans the scope is one segment. *)
Definition safe_config (env : Env) (config : AnyAgentConfig) : Prop :=
  forall l nm sc,
    c_lifespan config ≫= parse_lifespan = Some l -> durable l ->
    c_name config = Some nm -> Registry.getScope env config = Some sc ->
    has_sep nm = false /\ (l <> project -> is_segment sc = true).

(** The same for the arguments of [resume]; without a scope argument the
    session identifier of the environment is the directory name. *)
Definition safe_resume (env : Env) (nm : string) (sc : option string) : Prop :=
  has_sep nm = false /\
  match sc with
  | Some x => is_segment x = true
  | None => forall id, CLAUDE_SESSION_ID env = Some id -> is_segment id = true
  end.

Definition safe (c : Call) : Prop :=
  match c with
  | Create env _ _ _ config | StartWorkflow env _ _ _ config => safe_config env config
  | Resume env _ nm sc => safe_resume env nm sc
  | _ => True
  end.

(** The states a registry over [storagePath this] reaches from a fresh
    process on an empty disk through calls with safe arguments, and
    through new processes on the disk the earlier ones left: the memory
    table starts empty and the constructor runs again. *)
Inductive reachable `{Json} (this : AgentRegistry) : State -> Prop :=
  | reachable_fresh :
      Forall (fun x => is_segment x = true) (storagePath this) ->
      reachable this
        (snd (Registry.new_registry (storagePath this)
                {| memory := MemoryStorage.empty; disk := ∅ |}))
  | reachable_call s c :
      reachable this s -> safe c -> reachable this (after this c s)
  | reachable_restart s :
      reachable this s ->
      reachable this
        (snd (Registry.new_registry (storagePath this)
                {| memory := MemoryStorage.empty; disk := disk s |})).

(** A tree with directories only, all of them on the way to a lifespan
    directory or a scope directory: what the constructor builds. *)
Definition skeleton (base : path) (fs : FS) : Prop :=
  (forall p content, fs !! p <> Some (File content)) /\
  (forall q, fs !! q = Some Dir ->
     q `prefix_of` base \/
     (exists l, durable l /\ q = base ++ [lifespan_name l]) \/
     (exists l sc, durable l /\ l <> project /\ is_segment sc = true /\
                   q = base ++ [lifespan_name l; sc])).

(** A record with nested metadata. *)
Definition nested_agent : RegisteredAgent :=
  {| agentId := "u-7"; name := "executor"; lifespan := workflow;
     scope := "FEAT-001"; model := sonnet; createdAt := "t0";
     lastUsedAt := "t1"; turnCount := 3;
     metadata :=
       [("workflowType", JStr "story");
        ("plan", JObj [("steps", JArr [JNum 1; JNum 2; JObj [("done", JBool false)]]);
                       ("owner", JNull)])] |}.

(** A session directory with one document that parses and one that does
    not. *)
Definition damaged_tree : FS :=
  <[ ["srv"; "agents"; "session"; "s-1"; "broken.json"] := File "{ not json" ]>
    (disk (after (H := RefCodec.json) demo_registry
             (Create demo_env "u-1" "t1" "t1" (session_config "advisor" "s-1"))
             demo_state)).

(** *** Vocabulary of the further properties *)

(** Every record of the memory table sits under its own id: what [save]
    keeps, since it files a record under [agentId]. *)
Definition memory_keyed (m : MemoryState) : Prop :=
  forall k a, agents m !! k = Some a -> agentId a = k.

Definition has_lifespan (l : AgentLifespan) (a : RegisteredAgent) : Prop :=
  lifespan a = l.

Global Instance has_lifespan_dec l a : Decision (has_lifespan l a).
Proof. unfold has_lifespan. apply _. Defined.

(** Every record the registry holds, backend by backend: memory, session, workflow, project. *)
Definition all_listed `{Json} (this : AgentRegistry) (s : State)
  : list RegisteredAgent :=
  backends this ≫= (fun st => listed st s).

(** A configuration [create] does not reject: [validateConfig] accepts
    it and its lifespan is one of the six literals. *)
Definition valid_config (config : AnyAgentConfig) : Prop :=
  Registry.validateConfig config = Ok tt /\
  is_Some (c_lifespan config ≫= parse_lifespan).

(** The backend [getStorage] selects for a lifespan. *)
Definition backend_of (this : AgentRegistry) (l : AgentLifespan) : AgentStorage :=
  match l with
  | ephemeral | turn | context => MemoryBackend
  | l => FileBackend (store (storagePath this) l)
  end.

(** [agents.find(a => a.agentId === id)]. *)
Definition find_id (id : string) (found : list RegisteredAgent)
  : option RegisteredAgent :=
  find (fun a => String.eqb (agentId a) id) found.

(** A directory without entries. *)
Definition empty_dir (fs : FS) (p : path) : Prop :=
  fs !! p = Some Dir /\ forall x, fs !! (p ++ [x]) = None.

(** The calls the registry makes on its logger. *)
Inductive LogCall :=
  | AgentCreated (agentId nm l sc : string)
  | AgentResumed (agentId nm l sc : string)
  | AgentDisposed (agentId nm l sc : string)
  | WorkflowStarted (workflowId agentId nm : string)
  | WorkflowCompleted (workflowId : string)
  | LifecycleCleanup (l : string) (count : nat).

Definition run_log `{PayloadJson} (this : LifecycleLogger) (now : string)
    (c : LogCall) : M LogState unit :=
  match c with
  | AgentCreated agentId nm l sc => Logger.agentCreated this now agentId nm l sc
  | AgentResumed agentId nm l sc => Logger.agentResumed this now agentId nm l sc
  | AgentDisposed agentId nm l sc => Logger.agentDisposed this now agentId nm l sc
  | WorkflowStarted workflowId agentId nm =>
      Logger.workflowStarted this now workflowId agentId nm
  | WorkflowCompleted workflowId => Logger.workflowCompleted this now workflowId
  | LifecycleCleanup l count => Logger.lifecycleCleanup this now l count
  end.

(** The payload a call logs. *)
Definition call_payload (now : string) (c : LogCall) : LifecycleEventPayload :=
  match c with
  | AgentCreated agentId nm l sc =>
      {| p_event := agent_created; p_timestamp := now; p_agentId := Some agentId;
         p_agentName := Some nm; p_lifespan := Some l; p_scope := Some sc;
         p_metadata := None |}
  | AgentResumed agentId nm l sc =>
      {| p_event := agent_resumed; p_timestamp := now; p_agentId := Some agentId;
         p_agentName := Some nm; p_lifespan := Some l; p_scope := Some sc;
         p_metadata := None |}
  | AgentDisposed agentId nm l sc =>
      {| p_event := agent_disposed; p_timestamp := now; p_agentId := Some agentId;
         p_agentName := Some nm; p_lifespan := Some l; p_scope := Some sc;
         p_metadata := None |}
  | WorkflowStarted workflowId agentId nm =>
      {| p_event := workflow_started; p_timestamp := now;
         p_agentId := Some agentId; p_agentName := Some nm; p_lifespan := None;
         p_scope := None; p_metadata := Some [("workflowId", JStr workflowId)] |}
  | WorkflowCompleted workflowId =>
      {| p_event := workflow_completed; p_timestamp := now; p_agentId := None;
         p_agentName := None; p_lifespan := None; p_scope := None;
         p_metadata := Some [("workflowId", JStr workflowId)] |}
  | LifecycleCleanup l count =>
      {| p_event := lifecycle_cleanup; p_timestamp := now; p_agentId := None;
         p_agentName := None; p_lifespan := Some l; p_scope := None;
         p_metadata := Some [("disposedCount", JNum (Z.of_nat count))] |}
  end.

(** The content of a regular file, the empty string where there is none. *)
Definition file_content (fs : FS) (p : path) : string :=
  match fs !! p with
  | Some (File content) => content
  | _ => ""
  end.

(** The lines a list of calls writes to the log file. *)
Definition log_lines `{PayloadJson} (calls : list (string * LogCall)) : string :=
  foldr (fun nc rest =>
           JSON_stringify_payload (call_payload nc.1 nc.2) +:+ newline +:+ rest)
    "" calls.

(** *** More sample data *)

(** Two records of the memory table, a turn agent and a context agent. *)
Definition demo_memory : MemoryState :=
  snd (MemoryStorage.save (sample_agent "scratch" "s-1" turn)
         (snd (MemoryStorage.save (sample_agent "notes" "s-1" context)
                 MemoryStorage.empty))).

(** One session agent on disk. *)
Definition demo_session_state : State :=
  after (H := RefCodec.json) demo_registry
    (Create demo_env "u-1" "t1" "t1" (session_config "advisor" "s-1")) demo_state.

(** A turn agent in memory beside the session agent. *)
Definition demo_mixed_state : State :=
  after (H := RefCodec.json) demo_registry
    (Create demo_env "u-2" "t2" "t2" (base_config "turn" "scratch")) demo_session_state.

(** The tree of [demo_session_state] with an empty scope directory. *)
Definition tree_with_empty_scope : FS :=
  <[ ["srv"; "agents"; "session"; "old"] := Dir ]> (disk demo_session_state).

Definition silent_config : LoggerConfig :=
  {| cfg_debug := None; cfg_logPath := None; cfg_format := None;
     cfg_timestamps := None; cfg_prefix := None |}.

(** The configuration the registry passes with [debug] on. *)
Definition debug_config : LoggerConfig :=
  {| cfg_debug := Some true;
     cfg_logPath := Some ["srv"; "agents"; "lifecycle.log"];
     cfg_format := None; cfg_timestamps := None; cfg_prefix := None |}.

Definition demo_calls : list (string * LogCall) :=
  [("t1", AgentCreated "u-1" "advisor" "session" "s-1");
   ("t2", LifecycleCleanup "turn" 0)].

Definition demo_log_state : LogState :=
  {| console := []; log_disk := disk demo_state |}.

(* ===================================================================== *)
(** * Properties *)
(* ===================================================================== *)

Ltac unfold_m :=
  unfold bind, ret, throw, gets, modify, lift_result, try_catch,
    on_memory, on_disk in *.

Lemma bind_Ok {S A B} (m : M S A) (k : A -> M S B) (s s' : S) (a : A) :
  m s = (Ok a, s') -> bind m k s = k a s'.
Proof. intros E. unfold bind. by rewrite E. Qed.

(** ** Basic facts about strings and lifespans *)

Lemma eqb_false_iff (s t : string) : String.eqb s t = false <-> s <> t.
Proof. apply String.eqb_neq. Qed.

Lemma truthy_Some (s : string) : truthy (Some s) = true <-> s <> "".
Proof.
  unfold truthy. destruct (String.eqb_spec s ""); simpl; split; congruence.
Qed.

Lemma parse_lifespan_name (l : AgentLifespan) :
  parse_lifespan (lifespan_name l) = Some l.
Proof. by destruct l. Qed.

(** ** The codec of [RefCodec] satisfies the law *)

Lemma tree_value_value_tree (v : JsValue) :
  RefCodec.tree_value (RefCodec.value_tree v) = v.
Proof.
  revert v. fix IH 1. intros [| |[]|n|s|items|props]; simpl; try done.
  - f_equal. induction items as [|x xs IHxs]; simpl; [done|].
    by rewrite IH, IHxs.
  - f_equal. induction props as [|[k x] ps IHps]; simpl; [done|].
    by rewrite IH, IHps.
Qed.

Lemma bits_pos_pos_bits (p : positive) :
  RefCodec.bits_pos (RefCodec.pos_bits p) = Some p.
Proof. induction p as [q IH|q IH|]; simpl; by rewrite ?IH. Qed.

Lemma tree_agent_agent_tree (a : RegisteredAgent) :
  RefCodec.tree_agent (RefCodec.agent_tree a) = Some a.
Proof.
  destruct a as [id nm l sc m cr us tc md].
  unfold RefCodec.agent_tree, RefCodec.tree_agent. cbn [agentId name lifespan
    scope model createdAt lastUsedAt turnCount metadata].
  replace (RefCodec.index_lifespan (RefCodec.lifespan_index l)) with (Some l)
    by (by destruct l).
  replace (RefCodec.index_model (RefCodec.model_index m)) with (Some m)
    by (by destruct m).
  cbn [mbind option_bind]. rewrite tree_value_value_tree.
  by rewrite Nat2Z.id.
Qed.

Lemma RefCodec_laws : @JsonLaws RefCodec.json.
Proof.
  constructor. intros a. cbn. unfold RefCodec.parse, RefCodec.stringify.
  rewrite bits_pos_pos_bits. cbn [mbind option_bind].
  rewrite decode_encode. cbn [mbind option_bind].
  apply tree_agent_agent_tree.
Qed.

(** ** Filters *)

(** C4, as stated, fails: a filter whose scope is present and empty
    accepts a record whose scope is not empty. *)
Lemma matchesFilter_empty_scope_counterexample :
  let a := sample_agent "a" "session-1" session in
  let flt := by_scope "" in
  matchesFilter a flt = true /\ ~ matches_present_fields a flt.
Proof.
  split; [reflexivity|].
  intros (_ & Hsc & _). specialize (Hsc "" eq_refl). discriminate.
Qed.

(** C4, amended: [matchesFilter] holds iff every field of the filter
    that is present and not the empty string equals the record's field;
    a field that is present but empty constrains nothing. *)
Theorem matchesFilter_spec (a : RegisteredAgent) (flt : AgentFilter) :
  matchesFilter a flt = true <->
  (forall l, f_lifespan flt = Some l -> lifespan a = l) /\
  (forall s, f_scope flt = Some s -> s <> "" -> scope a = s) /\
  (forall n, f_name flt = Some n -> n <> "" -> name a = n).
Proof.
  unfold matchesFilter. destruct flt as [fl fsc fn]; simpl.
  destruct fl as [l|], fsc as [s|], fn as [n|]; simpl;
    repeat match goal with
           | |- context [String.eqb ?x ""] =>
               destruct (String.eqb_spec x ""); simpl
           end;
    repeat case_bool_decide; simplify_eq; simpl;
    (split; [intros; repeat split; intros; simplify_eq; done
            | intros (Hl & Hs & Hn); first [done | naive_solver]]).
Qed.

Lemma matchesFilter_by_scope (a : RegisteredAgent) (sc : string) :
  sc <> "" -> matchesFilter a (by_scope sc) = bool_decide (scope a = sc).
Proof.
  intros Hsc. unfold matchesFilter, by_scope; simpl.
  apply eqb_false_iff in Hsc. rewrite Hsc. simpl.
  repeat case_bool_decide; simplify_eq; done.
Qed.

Lemma matchesFilter_by_scope_empty (a : RegisteredAgent) :
  matchesFilter a (by_scope "") = true.
Proof. done. Qed.

(** ** Scope resolution *)

(** C5, as stated, fails: every identifier a configuration can carry is
    set to ["explicit"], and a turn agent still gets the ambient session
    identifier as its scope. *)
Lemma getScope_turn_override_counterexample :
  let config :=
    {| c_lifespan := Some "turn"; c_name := Some "a"; c_model := None;
       c_metadata := None; c_sessionId := Some "explicit";
       c_workflowId := Some "explicit"; c_workflowType := None;
       c_projectPath := Some "explicit" |} in
  let env := {| CLAUDE_SESSION_ID := Some "ambient"; cwd := "/work" |} in
  Registry.getScope env config = Some "ambient" /\
  Registry.getScope env config <> Some "explicit".
Proof. split; [reflexivity | discriminate]. Qed.

(** C5, amended: for the turn and context lifespans the scope is the
    ambient session identifier when the environment has one and the
    literal ["turn"] (resp. ["context"]) otherwise; no field of the
    configuration overrides it. *)
Theorem getScope_turn_context (env : Env) (config : AnyAgentConfig)
    (l : AgentLifespan) :
  l = turn \/ l = context ->
  c_lifespan config = Some (lifespan_name l) ->
  Registry.getScope env config =
    Some (match CLAUDE_SESSION_ID env with
          | Some id => id
          | None => lifespan_name l
          end).
Proof.
  intros [-> | ->] Hl; unfold Registry.getScope; rewrite Hl; simpl;
    by destruct (CLAUDE_SESSION_ID env).
Qed.

Lemma getScope_turn_context_witness :
  Registry.getScope {| CLAUDE_SESSION_ID := None; cwd := "/work" |}
    (base_config "context" "notes") = Some "context".
Proof.
  apply (getScope_turn_context {| CLAUDE_SESSION_ID := None; cwd := "/work" |}
           (base_config "context" "notes") context);
    [right; reflexivity | reflexivity].
Defined.

Section RegistryBasics.
Context `{Json}.
Variable this : AgentRegistry.
Variable env : Env.

(** ** Validation *)

(** C6: [create] on an invalid configuration throws
    [InvalidConfigError]; the outcome is the same whatever the stores
    hold, and the stores are left as they were. *)
Theorem create_invalid_config (uuid now later : string) (config : AnyAgentConfig) :
  invalid_config config ->
  exists message, forall s : State,
    Registry.create this env uuid now later config s
    = (Throw (InvalidConfigError message), s).
Proof.
  intros Hbad. unfold Registry.create, Registry.validateConfig.
  destruct (truthy (c_name config)) eqn:Hname; simpl.
  2: { eexists. intros s. reflexivity. }
  destruct (truthy (c_lifespan config)) eqn:Hlife; simpl.
  2: { eexists. intros s. reflexivity. }
  destruct (bool_decide (c_lifespan config = Some "workflow")
            && negb (truthy (c_workflowId config))) eqn:Hwf; simpl.
  { eexists. intros s. reflexivity. }
  destruct Hbad as [Hbad | [Hbad | [Hbad | [Hbad1 Hbad2]]]].
  - congruence.
  - rewrite Hbad in Hlife. discriminate.
  - unfold Registry.getStorage. rewrite Hbad.
    eexists. intros s. reflexivity.
  - rewrite Hbad1, Hbad2 in Hwf. discriminate.
Qed.

(** ** [resume] reaches ephemeral records *)

(** C10: an ephemeral agent sits in the memory table under the scope
    ["ephemeral"]; [resume] with that scope finds it at its first
    probe, although no tier of [resume] is the ephemeral one, and hands
    it back with its turn count raised. *)
Theorem resume_finds_ephemeral (uuid now later now' nm : string) (s : State) :
  nm <> "" -> uuid <> "" ->
  nameIndex (memory s) !! (MemoryStorage.getNameKey nm "ephemeral") = None ->
  exists a0 s1 a s2,
    Registry.create this env uuid now later (base_config "ephemeral" nm) s
    = (Ok {| agent := a0; isNew := true |}, s1) /\
    lifespan a0 = ephemeral /\ scope a0 = "ephemeral" /\
    turnCount a0 = 0 /\
    ~ In ephemeral (map fst (Registry.resume_storages this)) /\
    Registry.storage_findByNameAndScope MemoryBackend nm "ephemeral" s1
    = (Ok (Some a0), s1) /\
    Registry.resume this env now' nm (Some "ephemeral") s1 = (Ok a, s2) /\
    agentId a = agentId a0 /\ lifespan a = ephemeral /\ turnCount a = 1.
Proof.
  intros Hnm Huuid Hfree.
  apply eqb_false_iff in Hnm. apply eqb_false_iff in Huuid.
  unfold Registry.create, Registry.validateConfig. simpl.
  rewrite Hnm. simpl.
  unfold Registry.resume, Registry.resume_storages, Registry.resume_loop.
  unfold Registry.storage_findByNameAndScope, Registry.storage_save,
    MemoryStorage.findByNameAndScope, MemoryStorage.save.
  unfold_m. simpl. rewrite Hfree. simpl.
  eexists _, _, _, _. split; [reflexivity|].
  split; [done|]. split; [done|]. split; [done|].
  split.
  { simpl. intuition discriminate. }
  cbn [memory disk agents nameIndex].
  rewrite lookup_insert_eq. cbn iota. rewrite Huuid, lookup_insert_eq.
  split; [reflexivity|].
  cbn [memory disk agents nameIndex].
  split; [reflexivity|]. done.
Qed.

End RegistryBasics.

Lemma create_invalid_config_witness :
  exists message, forall s : State,
    Registry.create (H := RefCodec.json) {| storagePath := ["srv"; "agents"] |}
      {| CLAUDE_SESSION_ID := None; cwd := "/work" |} "u-1" "t1" "t1"
      (base_config "turn" "") s
    = (Throw (InvalidConfigError message), s).
Proof.
  apply (create_invalid_config (H := RefCodec.json)).
  left. reflexivity.
Defined.

(** ** Paths *)

Lemma length_append_json (s : string) :
  String.length (s +:+ ".json") = String.length s + 5.
Proof. induction s as [|c s IH]; simpl; [done | by rewrite IH]. Qed.

Lemma append_json_neq (s t : string) :
  String.length t < 5 -> s +:+ ".json" <> t.
Proof.
  intros Hlen E. apply (f_equal String.length) in E.
  rewrite length_append_json in E. lia.
Qed.

Lemma append_json_inj (s t : string) :
  s +:+ ".json" = t +:+ ".json" -> s = t.
Proof.
  revert t. induction s as [|c s IH]; intros [|d t]; simpl; intros E.
  - done.
  - exfalso. apply (f_equal String.length) in E. simpl in E.
    rewrite length_append_json in E. lia.
  - exfalso. apply (f_equal String.length) in E. simpl in E.
    rewrite length_append_json in E. lia.
  - injection E as -> E. f_equal. by apply IH.
Qed.

Lemma endsWith_append (s suffix : string) : endsWith (s +:+ suffix) suffix = true.
Proof.
  induction s as [|c s IH]; simpl.
  - destruct suffix; simpl; rewrite ?String.eqb_refl, ?Ascii.eqb_refl; done.
  - rewrite IH. apply orb_true_r.
Qed.

Lemma normalize_step_push (stack : path) (seg : string) :
  seg <> "" -> seg <> "." -> seg <> ".." ->
  normalize_step stack seg = stack ++ [seg].
Proof.
  intros H1 H2 H3. unfold normalize_step.
  apply eqb_false_iff in H1, H2, H3. by rewrite H1, H2, H3.
Qed.

Lemma split_sep_json (s : string) :
  exists init seg, split_sep (s +:+ ".json") = init ++ [seg +:+ ".json"].
Proof.
  induction s as [|c s (init & seg & IH)].
  - by exists [], "".
  - simpl. destruct (Ascii.eqb c "/").
    + exists ("" :: init), seg. by rewrite IH.
    + rewrite IH. destruct init as [|seg0 init]; simpl.
      * by exists [], (String c seg).
      * by exists (String c seg0 :: init), seg.
Qed.

(** A path built for a record always ends in a segment [….json]. *)
Lemma join_json (base : path) (parts : list string) (nm : string) :
  exists d seg, join base (parts ++ [nm +:+ ".json"]) = d ++ [seg +:+ ".json"].
Proof.
  unfold join. rewrite flat_map_app. simpl. rewrite app_nil_r.
  destruct (split_sep_json nm) as (init & seg & ->).
  rewrite app_assoc, fold_left_app. simpl.
  eexists _, seg. apply normalize_step_push; apply append_json_neq; simpl; lia.
Qed.

Lemma split_sep_no_sep (s : string) : has_sep s = false -> split_sep s = [s].
Proof.
  induction s as [|c s IH]; simpl; [done|].
  destruct (Ascii.eqb c "/"); simpl; [done|].
  intros Hs. by rewrite IH.
Qed.

Lemma has_sep_append (s t : string) :
  has_sep (s +:+ t) = has_sep s || has_sep t.
Proof.
  induction s as [|c s IH]; simpl; [done|].
  rewrite IH. by rewrite orb_assoc.
Qed.

Lemma is_segment_spec (s : string) :
  is_segment s = true <->
  has_sep s = false /\ s <> "" /\ s <> "." /\ s <> "..".
Proof.
  unfold is_segment. rewrite !andb_true_iff, !negb_true_iff, !eqb_false_iff.
  tauto.
Qed.

Lemma is_segment_json (nm : string) :
  has_sep nm = false -> is_segment (nm +:+ ".json") = true.
Proof.
  intros Hnm. apply is_segment_spec. rewrite has_sep_append, Hnm.
  split; [reflexivity|].
  split; [|split]; apply append_json_neq; simpl; lia.
Qed.

Lemma join_segments (base : path) (segs : list string) :
  Forall (fun s => is_segment s = true) segs -> join base segs = base ++ segs.
Proof.
  unfold join. revert base. induction segs as [|s segs IH]; intros base Hs.
  - simpl. by rewrite app_nil_r.
  - inversion_clear Hs as [|? ? Hs' Hsegs].
    apply is_segment_spec in Hs' as (Hsep & H1 & H2 & H3).
    simpl. rewrite (split_sep_no_sep s Hsep). simpl.
    rewrite normalize_step_push by done.
    rewrite IH by done. by rewrite <- app_assoc.
Qed.

Lemma is_segment_lifespan_name (l : AgentLifespan) :
  is_segment (lifespan_name l) = true.
Proof. by destruct l. Qed.

Lemma lifespan_name_inj (l l' : AgentLifespan) :
  lifespan_name l = lifespan_name l' -> l = l'.
Proof. by destruct l, l'. Qed.

Lemma dirname_snoc (d : path) (x : string) : dirname (d ++ [x]) = d.
Proof. apply removelast_last. Qed.

(** ** The directory tree *)

Lemma elem_of_prefixes (p q : path) : q ∈ Fs.prefixes p <-> q `prefix_of` p.
Proof.
  unfold Fs.prefixes. rewrite list_elem_of_fmap. split.
  - intros (n & -> & _). apply prefix_take.
  - intros [k ->]. exists (length q). split.
    + by rewrite take_app_length.
    + apply elem_of_seq. rewrite length_app. lia.
Qed.

Lemma lookup_mkdirs (fs : FS) (qs : list path) (q : path) :
  foldr (fun q m => <[q := Dir]> m) fs qs !! q
  = if decide (q ∈ qs) then Some Dir else fs !! q.
Proof.
  induction qs as [|q' qs IH]; simpl.
  - destruct (decide (q ∈ [])) as [Hin|]; [by apply elem_of_nil in Hin | done].
  - destruct (decide (q' = q)) as [->|Hne].
    + rewrite lookup_insert_eq.
      destruct (decide (q ∈ q :: qs)) as [|Hin]; [done|].
      exfalso. apply Hin. left.
    + rewrite lookup_insert_ne by done. rewrite IH.
      destruct (decide (q ∈ qs)) as [H1|H1],
               (decide (q ∈ q' :: qs)) as [H2|H2]; try done.
      * exfalso. apply H2. by right.
      * exfalso. apply elem_of_cons in H2 as [H2|H2]; [by subst | done].
Qed.

Lemma existsSync_eq (fs : FS) (p : path) :
  Fs.existsSync p fs = (Ok (bool_decide (is_Some (fs !! p))), fs).
Proof. done. Qed.

(** ** JSON values *)

Lemma json_clean_representable (v : JsValue) :
  json_representable v = true -> json_clean v = v.
Proof.
  revert v. fix IH 1. intros [| |b|n|s|items|props]; simpl; try done.
  - intros Hall. f_equal. induction items as [|x xs IHxs]; simpl in *; [done|].
    apply andb_true_iff in Hall as [Hx Hxs].
    rewrite IHxs by done. f_equal.
    rewrite (IH x Hx). by destruct x.
  - intros Hall. f_equal. induction props as [|[k x] ps IHps]; simpl in *; [done|].
    apply andb_true_iff in Hall as [Hx Hps].
    rewrite IHps by done. rewrite (IH x Hx). by destruct x.
Qed.

Lemma agent_clean_representable (a : RegisteredAgent) :
  agent_representable a = true -> agent_clean a = a.
Proof.
  unfold agent_representable, agent_clean, json_clean_object. intros Hrep.
  rewrite (json_clean_representable _ Hrep). by destruct a.
Qed.

(** ** Saving and finding a document *)

Section FileRoundTrip.
Context `{JsonLaws}.
Variable this : FileStorageConfig.

Lemma getAgentPath_snoc (nm sc : string) (p : path) :
  FileStorage.getAgentPathByNameAndScope this nm sc = Ok p ->
  exists d seg, p = d ++ [seg +:+ ".json"].
Proof.
  unfold FileStorage.getAgentPathByNameAndScope.
  destruct (storageLifespan this); try discriminate; intros [= <-].
  - apply (join_json _ ["session"; sc]).
  - apply (join_json _ ["workflow"; sc]).
  - apply (join_json _ ["project"]).
Qed.

Lemma save_written (a : RegisteredAgent) (fs : FS) (p : path) :
  FileStorage.getAgentPath this a = Ok p ->
  can_write fs p ->
  FileStorage.save this a fs = (Ok tt, written fs p (JSON_stringify a)).
Proof.
  intros Hp [Hfiles Hnodir].
  destruct (getAgentPath_snoc _ _ _ Hp) as (d & seg & ->).
  unfold FileStorage.save, written. rewrite Hp. unfold_m.
  rewrite existsSync_eq. rewrite dirname_snoc in *.
  assert (Hd : Fs.is_file fs d = false).
  { apply not_true_iff_false. intros Hf.
    assert (existsb (Fs.is_file fs) (Fs.prefixes d) = true) as Hex; [|congruence].
    apply existsb_exists. exists d. split; [|done].
    apply list_elem_of_In, elem_of_prefixes. done. }
  case_bool_decide as Hex; simpl.
  - unfold Fs.writeFileSync. rewrite dirname_snoc.
    destruct Hex as [n Hn]. unfold Fs.is_file in Hd. rewrite Hn in Hd.
    destruct n; [done|].
    unfold Fs.is_dir at 1. rewrite Hn, bool_decide_eq_true_2 by done. simpl.
    by rewrite Hnodir.
  - unfold Fs.mkdirSync_recursive. rewrite Hfiles.
    unfold Fs.writeFileSync. rewrite dirname_snoc.
    unfold Fs.is_dir. rewrite !lookup_mkdirs.
    rewrite decide_True by (by apply elem_of_prefixes).
    rewrite bool_decide_eq_true_2 by done. simpl.
    rewrite decide_False.
    2: { rewrite elem_of_prefixes. intros Hpre%prefix_length.
         rewrite length_app in Hpre. simpl in Hpre. lia. }
    unfold Fs.is_dir in Hnodir. by rewrite Hnodir.
Qed.

Lemma find_written (nm sc : string) (a : RegisteredAgent) (fs : FS) (p : path) :
  FileStorage.getAgentPathByNameAndScope this nm sc = Ok p ->
  let fs' := written fs p (JSON_stringify a) in
  FileStorage.findByNameAndScope this nm sc fs' = (Ok (Some (agent_clean a)), fs').
Proof.
  intros Hp fs'. unfold FileStorage.findByNameAndScope. rewrite Hp. unfold_m.
  rewrite existsSync_eq.
  assert (Hlook : fs' !! p = Some (File (JSON_stringify a)))
    by apply lookup_insert_eq.
  rewrite bool_decide_eq_true_2 by (by rewrite Hlook). simpl.
  unfold FileStorage.read_json, Fs.readFileSync. unfold_m.
  rewrite Hlook. by rewrite JSON_parse_stringify.
Qed.

Lemma getAgentPath_durable (nm sc : string) :
  durable (storageLifespan this) ->
  exists p, FileStorage.getAgentPathByNameAndScope this nm sc = Ok p.
Proof.
  unfold FileStorage.getAgentPathByNameAndScope.
  intros [-> | [-> | ->]]; eauto.
Qed.

(** C9: in a file storage for one of the three durable lifespans,
    [save] followed by [findByNameAndScope] with the record's name and
    scope returns the record itself, metadata included, whenever the
    metadata is JSON-representable and the tree lets the document be
    written at the record's path. *)
Theorem save_then_findByNameAndScope (r : RegisteredAgent) (fs : FS) :
  durable (storageLifespan this) ->
  (forall p, FileStorage.getAgentPath this r = Ok p -> can_write fs p) ->
  agent_representable r = true ->
  exists fs',
    FileStorage.save this r fs = (Ok tt, fs') /\
    FileStorage.findByNameAndScope this (name r) (scope r) fs'
    = (Ok (Some r), fs').
Proof.
  intros Hd Hw Hrep.
  destruct (getAgentPath_durable (name r) (scope r) Hd) as [p Hp].
  eexists. split; [by apply save_written, Hw|].
  pose proof (find_written (name r) (scope r) r fs p Hp) as Hf.
  simpl in Hf. by rewrite (agent_clean_representable r Hrep) in Hf.
Qed.

End FileRoundTrip.

(** ** Find-or-create *)

Section Create.
Context `{JsonLaws}.
Variable this : AgentRegistry.
Variable env : Env.

Lemma getStorage_Ok (raw : option string) (st : AgentStorage) :
  Registry.getStorage this raw = Ok st ->
  exists l, raw ≫= parse_lifespan = Some l.
Proof.
  unfold Registry.getStorage.
  destruct (raw ≫= parse_lifespan) as [l|]; [eauto | discriminate].
Qed.

Lemma new_agent_fields (uuid now later : string) (config : AnyAgentConfig)
    (nm : string) (l : AgentLifespan) (sc : string) :
  let a := Registry.new_agent uuid now later config nm l sc in
  agentId a = uuid /\ name a = nm /\ lifespan a = l /\ scope a = sc /\
  createdAt a = now /\ turnCount a = 0.
Proof. unfold Registry.new_agent. by case_bool_decide. Qed.

(** The two ways through [create]. *)
Lemma create_miss (uuid now later : string) (config : AnyAgentConfig)
    (st : AgentStorage) (nm sc : string) (l : AgentLifespan) (s s1 : State) :
  Registry.validateConfig config = Ok tt ->
  Registry.getStorage this (c_lifespan config) = Ok st ->
  c_name config = Some nm ->
  c_lifespan config ≫= parse_lifespan = Some l ->
  Registry.getScope env config = Some sc ->
  Registry.storage_findByNameAndScope st nm sc s = (Ok None, s) ->
  Registry.storage_save st (Registry.new_agent uuid now later config nm l sc) s
  = (Ok tt, s1) ->
  Registry.create this env uuid now later config s
  = (Ok {| agent := Registry.new_agent uuid now later config nm l sc;
           isNew := true |}, s1).
Proof.
  intros Hv Hst Hnm Hl Hsc Hfind Hsave. unfold Registry.create.
  rewrite Hv, Hst, Hnm, Hl, Hsc. unfold_m. by rewrite Hfind, Hsave.
Qed.

Lemma create_hit (uuid now later : string) (config : AnyAgentConfig)
    (st : AgentStorage) (nm sc : string) (l : AgentLifespan)
    (existing : RegisteredAgent) (s s1 : State) :
  Registry.validateConfig config = Ok tt ->
  Registry.getStorage this (c_lifespan config) = Ok st ->
  c_name config = Some nm ->
  c_lifespan config ≫= parse_lifespan = Some l ->
  Registry.getScope env config = Some sc ->
  Registry.storage_findByNameAndScope st nm sc s = (Ok (Some existing), s) ->
  Registry.storage_save st (set_lastUsedAt now existing) s = (Ok tt, s1) ->
  Registry.create this env uuid now later config s
  = (Ok {| agent := set_lastUsedAt now existing; isNew := false |}, s1).
Proof.
  intros Hv Hst Hnm Hl Hsc Hfind Hsave. unfold Registry.create.
  rewrite Hv, Hst, Hnm, Hl, Hsc. unfold_m. by rewrite Hfind, Hsave.
Qed.

Lemma file_find_state (f : FileStorageConfig) (nm sc : string) (fs : FS) :
  snd (FileStorage.findByNameAndScope f nm sc fs) = fs.
Proof.
  unfold FileStorage.findByNameAndScope, FileStorage.read_json,
    Fs.readFileSync. unfold_m.
  destruct (FileStorage.getAgentPathByNameAndScope f nm sc); [|done].
  rewrite existsSync_eq. case_bool_decide; simpl; [|done].
  destruct (fs !! a) as [[c|]|]; try done.
  by destruct (JSON_parse c).
Qed.

Lemma storage_find_state (st : AgentStorage) (nm sc : string) (s : State) :
  snd (Registry.storage_findByNameAndScope st nm sc s) = s.
Proof.
  destruct st as [|f]; simpl; unfold_m.
  - by destruct s as [[] ?].
  - pose proof (file_find_state f nm sc (disk s)) as Hs.
    destruct (FileStorage.findByNameAndScope f nm sc (disk s)) as [r fs'].
    simpl in *. subst. by destruct s.
Qed.

Lemma can_write_written (fs : FS) (p : path) (content : string) :
  (exists d x, p = d ++ [x]) ->
  can_write fs p -> can_write (written fs p content) p.
Proof.
  intros (d & x & ->) [Hfiles Hnodir]. unfold can_write, written in *.
  rewrite dirname_snoc in *. split.
  - apply not_true_iff_false. intros (q & Hq & Hfile)%existsb_exists.
    apply list_elem_of_In in Hq.
    assert (q <> d ++ [x]) as Hne.
    { intros ->. apply elem_of_prefixes, prefix_length in Hq.
      rewrite length_app in Hq. simpl in Hq. lia. }
    unfold Fs.is_file in Hfile. rewrite lookup_insert_ne in Hfile by done.
    assert (existsb (Fs.is_file fs) (Fs.prefixes d) = true) as Hex; [|congruence].
    apply existsb_exists. exists q. split; [by apply list_elem_of_In|].
    case_bool_decide; [done|].
    rewrite lookup_mkdirs in Hfile. by rewrite decide_True in Hfile.
  - unfold Fs.is_dir. rewrite lookup_insert_eq. by apply bool_decide_eq_false_2.
Qed.

(** C1, amended: when the lookup of the selected backend finds nothing
    under the configuration's name and scope, two [create] calls in a
    row return a new record and then that same record. *)
Theorem create_twice (uuid1 uuid2 now1 now2 later1 later2 : string)
    (config : AnyAgentConfig) (st : AgentStorage) (nm sc : string)
    (s : State) :
  Registry.validateConfig config = Ok tt ->
  Registry.getStorage this (c_lifespan config) = Ok st ->
  c_name config = Some nm ->
  Registry.getScope env config = Some sc ->
  fst (Registry.storage_findByNameAndScope st nm sc s) = Ok None ->
  storage_can_save st nm sc s ->
  uuid1 <> "" ->
  exists r1 s1 r2 s2,
    Registry.create this env uuid1 now1 later1 config s = (Ok r1, s1) /\
    Registry.create this env uuid2 now2 later2 config s1 = (Ok r2, s2) /\
    isNew r1 = true /\ isNew r2 = false /\
    agentId (agent r1) = uuid1 /\
    agentId (agent r2) = agentId (agent r1) /\
    createdAt (agent r2) = createdAt (agent r1) /\
    turnCount (agent r2) = turnCount (agent r1).
Proof.
  intros Hv Hst Hnm Hsc Hfind Hsave Huuid.
  destruct (getStorage_Ok _ _ Hst) as [l Hl].
  pose proof (storage_find_state st nm sc s) as Hfs.
  destruct (Registry.storage_findByNameAndScope st nm sc s) as [r0 s0] eqn:Hf.
  simpl in Hfind, Hfs. subst r0 s0.
  set (a := Registry.new_agent uuid1 now1 later1 config nm l sc).
  destruct (new_agent_fields uuid1 now1 later1 config nm l sc)
    as (Hid & Hname & _ & Hscope & _ & _). fold a in Hid, Hname, Hscope.
  destruct st as [|f].
  - (* the memory table *)
    set (s1 := snd (Registry.storage_save MemoryBackend a s)).
    assert (Hfind1 : Registry.storage_findByNameAndScope MemoryBackend nm sc s1
                     = (Ok (Some a), s1)).
    { subst s1. simpl. unfold MemoryStorage.findByNameAndScope,
        MemoryStorage.save. unfold_m. simpl.
      rewrite Hname, Hscope, Hid, lookup_insert_eq. cbn iota.
      apply eqb_false_iff in Huuid. rewrite Huuid.
      by rewrite lookup_insert_eq. }
    eexists _, s1, _, _. split.
    { eapply create_miss; eauto. }
    split.
    { eapply create_hit; eauto. }
    done.
  - (* a file storage *)
    destruct (getAgentPath_durable f nm sc) as [p Hp].
    { revert Hst. unfold Registry.getStorage, durable. rewrite Hl.
      destruct l; intros [= <-]; simpl; auto. }
    specialize (Hsave p Hp).
    assert (Hpa : FileStorage.getAgentPath f a = Ok p).
    { unfold FileStorage.getAgentPath. by rewrite Hname, Hscope. }
    set (fs1 := written (disk s) p (JSON_stringify a)).
    set (s1 := {| memory := memory s; disk := fs1 |}).
    set (e := set_lastUsedAt now2 (agent_clean a)).
    set (s2 := {| memory := memory s;
                  disk := written fs1 p (JSON_stringify e) |}).
    exists {| agent := a; isNew := true |}, s1,
           {| agent := e; isNew := false |}, s2.
    split.
    { eapply create_miss; eauto. simpl. unfold_m.
      by rewrite (save_written f a (disk s) p Hpa Hsave). }
    split.
    { eapply create_hit; eauto.
      - unfold s1, fs1. simpl. unfold_m. simpl.
        by rewrite (find_written f nm sc a (disk s) p Hp).
      - unfold s1, s2. simpl. unfold_m. simpl.
        rewrite (save_written f e fs1 p); [done | |].
        + unfold FileStorage.getAgentPath. subst e. simpl.
          by rewrite Hname, Hscope.
        + apply can_write_written; [|done].
          destruct (getAgentPath_snoc f nm sc p Hp) as (d & seg & ->). eauto. }
    done.
Qed.

End Create.

(** ** Reading directories *)

Lemma child_name_Some (p q : path) (x : string) :
  Fs.child_name p q = Some x <-> q = p ++ [x].
Proof.
  revert q. induction p as [|a p IH]; intros q; simpl.
  - destruct q as [|y [|z q]]; split; intros E; simplify_eq; done.
  - destruct q as [|b q]; [split; intros E; simplify_eq|].
    destruct (String.eqb_spec a b) as [->|Hne].
    + rewrite IH. split; intros E; simplify_eq; done.
    + split; intros E; simplify_eq.
Qed.

Lemma elem_of_entries (fs : FS) (p : path) (x : string) (n : node) :
  (x, n) ∈ Fs.entries fs p <-> fs !! (p ++ [x]) = Some n.
Proof.
  unfold Fs.entries. rewrite list_elem_of_omap. split.
  - intros ([q m] & Hin & Hg). simpl in Hg.
    destruct (Fs.child_name p q) as [y|] eqn:Hc; simplify_eq/=.
    apply child_name_Some in Hc as ->. by apply elem_of_map_to_list.
  - intros Hl. exists (p ++ [x], n). split; [by apply elem_of_map_to_list|].
    simpl. by rewrite (proj2 (child_name_Some p (p ++ [x]) x) eq_refl).
Qed.

Lemma NoDup_omap_inj {A B} (f : A -> option B) (l : list A) :
  NoDup l ->
  (forall x y z, x ∈ l -> y ∈ l -> f x = Some z -> f y = Some z -> x = y) ->
  NoDup (omap f l).
Proof.
  induction 1 as [|x l Hx Hl IH]; intros Hinj; simpl; [constructor|].
  destruct (f x) as [z|] eqn:Hfx.
  - constructor.
    + rewrite list_elem_of_omap. intros (y & Hy & Hfy).
      assert (x = y) as <- by (eapply Hinj; eauto; set_solver). done.
    + apply IH. intros ??????. eapply Hinj; eauto; set_solver.
  - apply IH. intros ??????. eapply Hinj; eauto; set_solver.
Qed.

Lemma NoDup_entries (fs : FS) (p : path) : NoDup (map fst (Fs.entries fs p)).
Proof.
  unfold Fs.entries.
  assert (map fst (omap (fun qn : path * node =>
                           x ← Fs.child_name p qn.1; Some (x, qn.2))
                        (map_to_list fs))
          = omap (fun qn : path * node => Fs.child_name p qn.1) (map_to_list fs))
    as ->.
  { induction (map_to_list fs) as [|[q n] l IH]; [done|].
    cbn [omap list_omap fst snd]. destruct (Fs.child_name p q); cbn; [f_equal|]; exact IH. }
  apply NoDup_omap_inj; [apply NoDup_map_to_list|].
  intros [q1 n1] [q2 n2] z Hin1 Hin2 H1 H2. simpl in *.
  apply child_name_Some in H1, H2. subst.
  apply elem_of_map_to_list in Hin1, Hin2. congruence.
Qed.

Lemma entries_segment (fs : FS) (p : path) (x : string) (n : node) :
  tree_names_valid fs -> (x, n) ∈ Fs.entries fs p -> is_segment x = true.
Proof.
  intros Hv Hin%elem_of_entries.
  assert (Hs : is_Some (fs !! (p ++ [x]))) by eauto.
  apply Hv, Forall_app in Hs as [_ Hx]. by inversion Hx.
Qed.

Lemma readdirSync_withFileTypes_dir (fs : FS) (p : path) :
  fs !! p = Some Dir ->
  Fs.readdirSync_withFileTypes p fs = (Ok (Fs.entries fs p), fs).
Proof. intros Hp. unfold Fs.readdirSync_withFileTypes. by rewrite Hp. Qed.

Lemma readdirSync_dir (fs : FS) (p : path) :
  fs !! p = Some Dir ->
  Fs.readdirSync p fs = (Ok (map fst (Fs.entries fs p)), fs).
Proof.
  intros Hp. unfold Fs.readdirSync. unfold_m.
  by rewrite readdirSync_withFileTypes_dir.
Qed.

Lemma lifespanDir_eq (this : FileStorageConfig) :
  FileStorage.lifespanDir this
  = basePath this ++ [lifespan_name (storageLifespan this)].
Proof.
  unfold FileStorage.lifespanDir. apply join_segments.
  repeat constructor. apply is_segment_lifespan_name.
Qed.

(** ** Listing a file storage *)

Section Listing.
Context `{Json}.

Lemma read_entry_eq (flt : option AgentFilter) (p : path)
    (results : list RegisteredAgent) (fs : FS) :
  FileStorage.read_entry flt p results fs
  = (Ok (results ++ doc_list flt fs p), fs).
Proof.
  unfold FileStorage.read_entry, FileStorage.read_json, Fs.readFileSync,
    doc_list, document_at. unfold_m.
  destruct (fs !! p) as [[c|]|]; rewrite ?app_nil_r; try done.
  destruct (JSON_parse c) as [a|]; rewrite ?app_nil_r; [|done].
  destruct (passes flt a); by rewrite ?app_nil_r.
Qed.

Lemma for_fold_read_entries (flt : option AgentFilter) (dir : path)
    (names : list string) (results : list RegisteredAgent) (fs : FS) :
  Forall (fun x => is_segment x = true) names ->
  for_fold names results
    (fun results file => FileStorage.read_entry flt (join dir [file]) results) fs
  = (Ok (results ++ (names ≫= fun f => doc_list flt fs (dir ++ [f]))), fs).
Proof.
  revert results. induction names as [|f names IH]; intros results Hseg; simpl.
  - by rewrite app_nil_r.
  - inversion_clear Hseg as [|? ? Hf Hnames]. unfold_m.
    rewrite read_entry_eq. unfold bind in IH. rewrite IH by done.
    rewrite join_segments by (by repeat constructor).
    by rewrite <- app_assoc.
Qed.

Lemma json_entries_segments (fs : FS) (dir : path) :
  tree_names_valid fs ->
  Forall (fun x => is_segment x = true)
    (filter (fun f => FileStorage.is_json f) (map fst (Fs.entries fs dir))).
Proof.
  intros Hv. apply list.Forall_forall. intros x [_ Hx]%list_elem_of_filter.
  apply list_elem_of_fmap in Hx as ([y n] & -> & Hin).
  by eapply entries_segment.
Qed.

Lemma read_directory (flt : option AgentFilter) (dir : path)
    (results : list RegisteredAgent) (fs : FS) :
  tree_names_valid fs ->
  for_fold (filter (fun f => FileStorage.is_json f) (map fst (Fs.entries fs dir)))
    results
    (fun results file => FileStorage.read_entry flt (join dir [file]) results) fs
  = (Ok (results ++ dir_documents flt fs dir), fs).
Proof.
  intros Hv. rewrite for_fold_read_entries; [done|].
  by apply json_entries_segments.
Qed.

(** [list] is the listing: it never throws once the lifespan directory
    is a directory. *)
Lemma list_eq (this : FileStorageConfig) (flt : option AgentFilter) (fs : FS) :
  tree_names_valid fs ->
  fs !! FileStorage.lifespanDir this = Some Dir ->
  FileStorage.list_ this flt fs = (Ok (listing this flt fs), fs).
Proof.
  intros Hv Hdir. unfold FileStorage.list_, listing. unfold_m.
  rewrite existsSync_eq, bool_decide_eq_true_2 by (by rewrite Hdir). simpl.
  case_bool_decide as Hproj.
  - rewrite readdirSync_dir by done. by rewrite read_directory.
  - rewrite readdirSync_withFileTypes_dir by done.
    set (ld := FileStorage.lifespanDir this) in *.
    assert (Hdirs : Forall (fun sc => fs !! (ld ++ [sc]) = Some Dir
                                      /\ is_segment sc = true)
                      (map fst (filter (fun d => Fs.isDirectory d)
                                  (Fs.entries fs ld)))).
    { apply list.Forall_forall. intros sc ([x n] & -> & Hin)%list_elem_of_fmap.
      apply list_elem_of_filter in Hin as [Hd Hin]. simpl.
      split; [|by eapply entries_segment].
      apply elem_of_entries in Hin.
      unfold Fs.isDirectory in Hd. simpl in Hd. by destruct n. }
    revert Hdirs. generalize (map fst (filter (fun d => Fs.isDirectory d)
                                         (Fs.entries fs ld))).
    intros dirs Hdirs.
    enough (forall results,
      for_fold dirs results
        (fun results sc =>
           names <- Fs.readdirSync (join ld [sc]) ;;
           for_fold (filter (fun f => FileStorage.is_json f) names) results
             (fun results file =>
                FileStorage.read_entry flt (join (join ld [sc]) [file]) results)) fs
      = (Ok (results ++ (dirs ≫= fun sc => dir_documents flt fs (ld ++ [sc]))), fs))
      as Hgen by apply (Hgen []).
    induction dirs as [|sc dirs IH]; intros results; simpl.
    + by rewrite app_nil_r.
    + inversion_clear Hdirs as [|? ? [Hsc Hseg] Hrest]. unfold_m.
      rewrite join_segments by (by repeat constructor).
      rewrite readdirSync_dir by done. rewrite read_directory by done.
      unfold bind in IH. rewrite IH by done. by rewrite <- app_assoc.
Qed.

Lemma elem_of_doc_list (flt : option AgentFilter) (fs : FS) (p : path)
    (a : RegisteredAgent) :
  a ∈ doc_list flt fs p <-> document_at fs p = Some a /\ passes flt a = true.
Proof.
  unfold doc_list. destruct (document_at fs p) as [b|].
  - destruct (passes flt b) eqn:Hp.
    + rewrite list_elem_of_singleton. split; [by intros -> | by intros [[= ->] _]].
    + split; [by intros ?%elem_of_nil | intros [[= ->] ?]; congruence].
  - split; [by intros ?%elem_of_nil | by intros [? _]].
Qed.

Lemma elem_of_dir_documents (flt : option AgentFilter) (fs : FS) (dir : path)
    (a : RegisteredAgent) :
  a ∈ dir_documents flt fs dir <->
  exists f, FileStorage.is_json f = true /\
            document_at fs (dir ++ [f]) = Some a /\ passes flt a = true.
Proof.
  unfold dir_documents. rewrite list_elem_of_bind. split.
  - intros (f & Ha & Hf). apply list_elem_of_filter in Hf as [Hj _].
    apply elem_of_doc_list in Ha as [Hd Hp]. exists f.
    split; [by destruct (FileStorage.is_json f)|done].
  - intros (f & Hj & Hd & Hp). exists f.
    split; [by apply elem_of_doc_list|].
    apply list_elem_of_filter. split; [by rewrite Hj|].
    unfold document_at in Hd. revert Hd.
    destruct (fs !! (dir ++ [f])) as [n|] eqn:Hl; [intros _|done].
    apply list_elem_of_fmap. exists (f, n). split; [done|].
    by apply elem_of_entries.
Qed.

(** The listing holds exactly the records of the parseable documents
    that pass the filter. *)
Lemma elem_of_listing (this : FileStorageConfig) (flt : option AgentFilter)
    (fs : FS) (a : RegisteredAgent) :
  a ∈ listing this flt fs <->
  exists p, document_position this fs p /\
            document_at fs p = Some a /\ passes flt a = true.
Proof.
  unfold listing, document_position. case_bool_decide as Hproj.
  - rewrite elem_of_dir_documents. split.
    + intros (f & Hj & Hd & Hp). eauto 10.
    + intros (p & (f & -> & Hj) & Hd & Hp). eauto.
  - rewrite list_elem_of_bind. split.
    + intros (sc & Ha & Hsc). apply elem_of_dir_documents in Ha as (f & Hj & Hd & Hp).
      apply list_elem_of_fmap in Hsc as ([x n] & -> & Hin).
      apply list_elem_of_filter in Hin as [Hdir Hin]. simpl in *.
      apply elem_of_entries in Hin.
      unfold Fs.isDirectory in Hdir. simpl in Hdir. destruct n; [done|].
      exists (FileStorage.lifespanDir this ++ [x; f]). split; [eauto|].
      split; [|done]. rewrite <- Hd. f_equal.
      by rewrite <- app_assoc.
    + intros (p & (d & f & -> & Hdir & Hj) & Hd & Hp). exists d. split.
      * apply elem_of_dir_documents. exists f. split; [done|]. split; [|done].
        rewrite <- Hd. f_equal. by rewrite <- app_assoc.
      * apply list_elem_of_fmap. exists (d, Dir). split; [done|].
        apply list_elem_of_filter. split; [done|]. by apply elem_of_entries.
Qed.

End Listing.

(** C1, as stated, fails: the project storage holds a record named
    ["architect"] with scope ["/repo-a"] and none with scope ["/repo-b"],
    yet [create] for ["architect"] in ["/repo-b"] is answered with the
    old record: the project storage addresses documents by name alone. *)
Lemma create_project_counterexample :
  let s := snd (Registry.create (H := RefCodec.json) demo_registry demo_env
                  "u-1" "t1" "t1" (project_config "architect" "/repo-a") demo_state) in
  let config := project_config "architect" "/repo-b" in
  exists st found r s',
    Registry.validateConfig config = Ok tt /\
    Registry.getStorage demo_registry (c_lifespan config) = Ok st /\
    Registry.getScope demo_env config = Some "/repo-b" /\
    Registry.storage_list (H := RefCodec.json) st None s = (Ok found, s) /\
    (forall a, a ∈ found -> ~ (name a = "architect" /\ scope a = "/repo-b")) /\
    Registry.create (H := RefCodec.json) demo_registry demo_env "u-2" "t2" "t2" config s
    = (Ok r, s') /\
    isNew r = false /\ scope (agent r) = "/repo-a".
Proof.
  eexists _, _, _, _.
  split; [reflexivity|]. split; [reflexivity|]. split; [reflexivity|].
  split; [vm_compute; reflexivity|].
  split.
  { intros a Hin [_ Hsc]. apply list_elem_of_singleton in Hin. subst a.
    discriminate Hsc. }
  split; [vm_compute; reflexivity|].
  split; reflexivity.
Qed.

(** ** Trees the registry has built *)

Lemma prefix_snoc_eq {A} (d : list A) (x y : A) (r : list A) :
  d ++ [x] `prefix_of` d ++ y :: r -> x = y.
Proof.
  intros Hp. apply prefix_app_inv in Hp. by apply prefix_cons_inv_1 in Hp.
Qed.

Section Layout.
Context `{Json}.
Variable base : path.

Lemma agent_path_segments (a : RegisteredAgent) :
  Forall (fun x => is_segment x = true) base ->
  placeable a ->
  Forall (fun x => is_segment x = true) (agent_path base a).
Proof.
  intros Hb (Hd & Hn & Hs). unfold agent_path.
  pose proof (is_segment_json _ Hn) as Hj.
  pose proof (is_segment_lifespan_name (lifespan a)) as Hl.
  destruct (lifespan a) eqn:E; apply Forall_app; split; try done;
    repeat constructor; try done; by apply Hs.
Qed.

Lemma tree_ok_names_valid (fs : FS) : tree_ok base fs -> tree_names_valid fs.
Proof.
  intros (Hb & _ & Hdirs & Hfiles) p [[c|] Hp].
  - destruct (Hfiles p c Hp) as (a & _ & Hpl & -> & _).
    by apply agent_path_segments.
  - destruct (Hdirs p Hp) as [[k ->] | [(l & _ & ->) | (l & sc & _ & _ & Hsc & ->)]].
    + by apply Forall_app in Hb as [? _].
    + apply Forall_app. split; [done|]. repeat constructor.
      apply is_segment_lifespan_name.
    + apply Forall_app. split; [done|]. repeat constructor; [|done].
      apply is_segment_lifespan_name.
Qed.

Lemma document_at_Some (fs : FS) (p : path) (a : RegisteredAgent) :
  document_at fs p = Some a <->
  exists content, fs !! p = Some (File content) /\ JSON_parse content = Some a.
Proof.
  unfold document_at. destruct (fs !! p) as [[c|]|]; split;
    try done; try (intros (? & ? & ?); simplify_eq; done); eauto.
Qed.

Lemma well_placed (fs : FS) (p : path) (a : RegisteredAgent) :
  tree_ok base fs -> document_at fs p = Some a ->
  placeable a /\ p = agent_path base a /\ fs !! dirname p = Some Dir.
Proof.
  intros (_ & _ & _ & Hfiles) (c & Hp & Hparse)%document_at_Some.
  destruct (Hfiles p c Hp) as (a' & Hparse' & Hrest). by simplify_eq.
Qed.

Lemma getAgentPath_placed (a : RegisteredAgent) :
  placeable a ->
  FileStorage.getAgentPath (store base (lifespan a)) a = Ok (agent_path base a).
Proof.
  intros (Hd & Hn & Hs). unfold FileStorage.getAgentPath,
    FileStorage.getAgentPathByNameAndScope, agent_path. simpl.
  pose proof (is_segment_json _ Hn) as Hj.
  destruct (lifespan a) eqn:E; try (by destruct Hd as [|[|]]);
    rewrite join_segments; try done; repeat constructor; try done;
    by apply Hs.
Qed.

(** A document found in the area of a storage belongs to that storage. *)
Lemma position_lifespan (l : AgentLifespan) (fs : FS) (a : RegisteredAgent) :
  document_position (store base l) fs (agent_path base a) -> lifespan a = l.
Proof.
  unfold document_position, agent_path. rewrite lifespanDir_eq. simpl.
  case_bool_decide as Hl.
  - intros (f & E & _). subst l. rewrite <- app_assoc in E.
    destruct (lifespan a); apply app_inv_head in E; simplify_eq/=; done.
  - intros (d & f & E & _). rewrite <- app_assoc in E.
    destruct (lifespan a) eqn:Ea; apply app_inv_head in E; simplify_eq/=;
      by destruct l.
Qed.

Lemma position_of_placed (fs : FS) (a : RegisteredAgent) :
  fs !! dirname (agent_path base a) = Some Dir ->
  document_position (store base (lifespan a)) fs (agent_path base a).
Proof.
  unfold document_position, agent_path. rewrite lifespanDir_eq. simpl.
  intros Hdir. destruct (lifespan a) eqn:E; simpl.
  all: try (exists (scope a), (name a +:+ ".json");
            rewrite <- !app_assoc; simpl; split; [done|];
            split; [|apply endsWith_append];
            rewrite <- Hdir; unfold dirname;
            change [?x; ?y; ?z] with ([x; y] ++ [z]);
            by rewrite app_assoc, removelast_last).
  exists (name a +:+ ".json"). rewrite <- app_assoc. simpl.
  split; [done | apply endsWith_append].
Qed.

(** In a well-built tree, the listing of a storage is made of the
    records of its lifespan that sit at their own path. *)
Lemma elem_of_listing_ok (l : AgentLifespan) (flt : option AgentFilter)
    (fs : FS) (a : RegisteredAgent) :
  tree_ok base fs ->
  a ∈ listing (store base l) flt fs <->
  document_at fs (agent_path base a) = Some a /\ lifespan a = l /\
  passes flt a = true.
Proof.
  intros Hok. rewrite elem_of_listing. split.
  - intros (p & Hpos & Hdoc & Hpass).
    destruct (well_placed fs p a Hok Hdoc) as (_ & -> & _).
    split; [done|]. split; [|done]. by eapply position_lifespan.
  - intros (Hdoc & <- & Hpass). exists (agent_path base a).
    split; [|done]. apply position_of_placed.
    by destruct (well_placed _ _ _ Hok Hdoc) as (_ & _ & ?).
Qed.

End Layout.

(** ** Bulk deletion in a file storage *)

Lemma filter_bind {A B} (P : B -> Prop) `{forall x, Decision (P x)}
    (f : A -> list B) (l : list A) :
  filter P (l ≫= f) = l ≫= (fun x => filter P (f x)).
Proof.
  induction l as [|x l IH]; csimpl; [done|]. by rewrite list.filter_app, IH.
Qed.

Lemma bind_ext {A B} (f g : A -> list B) (l : list A) :
  (forall x, f x = g x) -> l ≫= f = l ≫= g.
Proof.
  intros E. induction l as [|x l IH]; csimpl; [done|]. by rewrite E, IH.
Qed.

Lemma NoDup_fst_filter {A B} (P : A * B -> Prop) `{forall x, Decision (P x)}
    (l : list (A * B)) :
  NoDup (map fst l) -> NoDup (map fst (filter P l)).
Proof.
  induction l as [|x l IH]; simpl; [done|].
  intros [Hx Hl]%list.NoDup_cons. rewrite list.filter_cons.
  destruct (decide (P x)); simpl; [|by apply IH].
  apply list.NoDup_cons. split; [|by apply IH].
  intros (y & Hy & Hin)%list_elem_of_fmap. apply Hx.
  apply list_elem_of_fmap. exists y. split; [done|].
  by apply list_elem_of_filter in Hin as [_ ?].
Qed.

Section BulkDelete.
Context `{Json}.
Variable base : path.

Lemma doc_list_filter (flt : AgentFilter) (fs : FS) (p : path) :
  doc_list (Some flt) fs p
  = filter (fun a => matchesFilter a flt) (doc_list None fs p).
Proof.
  unfold doc_list. destruct (document_at fs p) as [a|]; [|done]. simpl.
  rewrite list.filter_cons, list.filter_nil.
  destruct (matchesFilter a flt) eqn:E; by destruct (decide _).
Qed.

Lemma listing_filter (this : FileStorageConfig) (flt : AgentFilter) (fs : FS) :
  listing this (Some flt) fs
  = filter (fun a => matchesFilter a flt) (listing this None fs).
Proof.
  assert (Hdir : forall dir,
    dir_documents (Some flt) fs dir
    = filter (fun a => matchesFilter a flt) (dir_documents None fs dir)).
  { intros dir. unfold dir_documents. rewrite filter_bind.
    apply bind_ext. intros f. apply doc_list_filter. }
  unfold listing. case_bool_decide; [apply Hdir|].
  rewrite filter_bind. apply bind_ext. intros sc. apply Hdir.
Qed.

Lemma NoDup_doc_list (flt : option AgentFilter) (fs : FS) (p : path) :
  NoDup (doc_list flt fs p).
Proof.
  unfold doc_list. destruct (document_at fs p) as [a|]; [|constructor].
  destruct (passes flt a); [apply NoDup_singleton | constructor].
Qed.

Lemma NoDup_dir_documents (flt : option AgentFilter) (fs : FS) (dir : path) :
  tree_ok base fs -> NoDup (dir_documents flt fs dir).
Proof.
  intros Hok. unfold dir_documents. apply NoDup_bind.
  - intros f1 f2 a _ _ [H1 _]%elem_of_doc_list [H2 _]%elem_of_doc_list.
    destruct (well_placed base fs _ a Hok H1) as (_ & E1 & _).
    destruct (well_placed base fs _ a Hok H2) as (_ & E2 & _).
    rewrite <- E2 in E1. apply app_inv_head in E1. by simplify_eq.
  - intros f _. apply NoDup_doc_list.
  - apply list.NoDup_filter, NoDup_entries.
Qed.

Lemma NoDup_listing (l : AgentLifespan) (flt : option AgentFilter) (fs : FS) :
  tree_ok base fs -> NoDup (listing (store base l) flt fs).
Proof.
  intros Hok. unfold listing. case_bool_decide.
  - by apply NoDup_dir_documents.
  - apply NoDup_bind.
    + intros d1 d2 a _ _ (f1 & _ & H1 & _)%elem_of_dir_documents
        (f2 & _ & H2 & _)%elem_of_dir_documents.
      destruct (well_placed base fs _ a Hok H1) as (_ & E1 & _).
      destruct (well_placed base fs _ a Hok H2) as (_ & E2 & _).
      rewrite <- E2 in E1. apply app_inj_2 in E1 as [E1 _]; [|done].
      apply app_inv_head in E1. by simplify_eq.
    + intros d _. by apply NoDup_dir_documents.
    + apply NoDup_fst_filter, NoDup_entries.
Qed.

Lemma lookup_unlink_all (fs : FS) (found : list RegisteredAgent) (q : path) :
  unlink_all base fs found !! q
  = if decide (q ∈ map (agent_path base) found) then None else fs !! q.
Proof.
  unfold unlink_all. revert fs.
  induction found as [|a found IH]; intros fs; simpl.
  - destruct (decide (q ∈ [])) as [Hin|]; [by apply elem_of_nil in Hin | done].
  - rewrite IH.
    destruct (decide (q ∈ map (agent_path base) found)) as [H1|H1],
             (decide (q ∈ agent_path base a :: map (agent_path base) found))
               as [H2|H2]; try done.
    + exfalso. apply H2. by right.
    + apply elem_of_cons in H2 as [E|H2]; [|done]. subst q.
      apply lookup_delete_eq.
    + rewrite lookup_delete_ne; [done|]. intros E. subst q. apply H2. left.
Qed.

(** The loop of [deleteMany] over records that all sit at their own,
    distinct paths. *)
Lemma delete_loop (l : AgentLifespan) (found : list RegisteredAgent)
    (n : nat) (fs : FS) :
  NoDup (map (agent_path base) found) ->
  (forall a, a ∈ found ->
     FileStorage.getAgentPath (store base l) a = Ok (agent_path base a) /\
     exists content, fs !! agent_path base a = Some (File content)) ->
  for_fold found n
    (fun deleted a =>
       p <- lift_result (FileStorage.getAgentPath (store base l) a) ;;
       ex <- Fs.existsSync p ;;
       if ex then Fs.unlinkSync p ;;; ret (S deleted) else ret deleted) fs
  = (Ok (n + length found), unlink_all base fs found).
Proof.
  revert n fs. induction found as [|a found IH]; intros n fs Hnd Hall; simpl.
  - by rewrite Nat.add_0_r.
  - apply list.NoDup_cons in Hnd as [Hnotin Hnd].
    destruct (Hall a) as (Hp & c & Hc); [left|].
    unfold_m. rewrite Hp, existsSync_eq.
    rewrite bool_decide_eq_true_2 by (by rewrite Hc).
    unfold Fs.unlinkSync. rewrite Hc.
    unfold bind in IH. rewrite IH; [by rewrite Nat.add_succ_r | done |].
    intros a' Ha'. destruct (Hall a') as (Hp' & c' & Hc'); [by right|].
    split; [done|]. exists c'. rewrite lookup_delete_ne; [done|].
    intros E. apply Hnotin. rewrite E. by apply list_elem_of_fmap_2.
Qed.

Lemma lookup_rm (fs : FS) (p q : path) (n : node) :
  (filter (fun qn : path * node => negb (bool_decide (p `prefix_of` qn.1))) fs
     : FS) !! q = Some n
  <-> fs !! q = Some n /\ ~ p `prefix_of` q.
Proof.
  rewrite map_lookup_filter_Some. simpl.
  rewrite negb_True, bool_decide_spec. done.
Qed.

Lemma clean_loop (ld : path) (dirs : list string) (fs : FS) :
  NoDup dirs ->
  (forall sc, sc ∈ dirs ->
     fs !! (ld ++ [sc]) = Some Dir /\ is_segment sc = true) ->
  exists fs',
    for_each dirs
      (fun sc =>
         let scopePath := join ld [sc] in
         files <- Fs.readdirSync scopePath ;;
         if Nat.eqb (length files) 0 then Fs.rmSync_recursive scopePath
         else ret tt) fs
    = (Ok tt, fs') /\
    (forall q n, fs' !! q = Some n -> fs !! q = Some n) /\
    (forall q n, fs !! q = Some n ->
       (forall sc, sc ∈ dirs -> ld ++ [sc] `prefix_of` q ->
          exists x, is_Some (fs !! (ld ++ [sc; x]))) ->
       fs' !! q = Some n).
Proof.
  revert fs. induction dirs as [|sc dirs IH]; intros fs Hnd Hdirs; simpl.
  - exists fs. by split.
  - apply list.NoDup_cons in Hnd as [Hsc Hnd].
    destruct (Hdirs sc) as [Hdir Hseg]; [left|].
    unfold_m. rewrite join_segments by (by repeat constructor).
    rewrite readdirSync_dir by done.
    destruct (Fs.entries fs (ld ++ [sc])) as [|[x nx] es] eqn:Hes; simpl.
    + (* an empty scope directory is removed *)
      unfold Fs.rmSync_recursive. rewrite Hdir.
      set (fs1 := filter (fun qn : path * node =>
                    negb (bool_decide (ld ++ [sc] `prefix_of` qn.1))) fs : FS).
      destruct (IH fs1) as (fs' & Hrun & Hsub & Hkept); [done| |].
      { intros sc' Hin. destruct (Hdirs sc') as [Hd' Hs']; [by right|].
        split; [|done]. apply lookup_rm. split; [done|].
        intros Hpre. apply prefix_snoc_eq in Hpre. by subst. }
      unfold bind in Hrun. exists fs'. split; [done|]. split.
      * intros q n Hq. by apply Hsub, lookup_rm in Hq as [? _].
      * intros q n Hq Hne. apply Hkept.
        -- apply lookup_rm. split; [done|]. intros Hpre.
           destruct (Hne sc) as (x & n' & Hx); [left | done |].
           assert ((x, n') ∈ Fs.entries fs (ld ++ [sc])) as Hin.
           { apply elem_of_entries. by rewrite <- app_assoc. }
           rewrite Hes in Hin. by apply elem_of_nil in Hin.
        -- intros sc' Hin Hpre. destruct (Hne sc') as (x & n' & Hx);
             [by right | done |].
           exists x, n'. apply lookup_rm. split; [done|].
           intros Hpre'. apply prefix_snoc_eq in Hpre'.
           apply Hsc. by subst.
    + destruct (IH fs) as (fs' & Hrun & Hsub & Hkept); [done| |].
      { intros sc' Hin. apply Hdirs. by right. }
      unfold bind in Hrun. exists fs'. split; [done|]. split; [done|].
      intros q n Hq Hne. apply Hkept; [done|].
      intros sc' Hin. apply Hne. by right.
Qed.

Lemma scope_dirs (fs : FS) (ld : path) (sc : string) :
  tree_names_valid fs ->
  sc ∈ map fst (filter (fun d => Fs.isDirectory d) (Fs.entries fs ld)) ->
  fs !! (ld ++ [sc]) = Some Dir /\ is_segment sc = true.
Proof.
  intros Hv ([x n] & -> & Hin)%list_elem_of_fmap.
  apply list_elem_of_filter in Hin as [Hd Hin]. simpl.
  split; [|by eapply entries_segment].
  apply elem_of_entries in Hin.
  unfold Fs.isDirectory in Hd. simpl in Hd. by destruct n.
Qed.

Lemma cleanEmptyDirs_spec (l : AgentLifespan) (fs : FS) :
  tree_names_valid fs ->
  fs !! (base ++ [lifespan_name l]) = Some Dir ->
  exists fs',
    FileStorage.cleanEmptyDirs (store base l) fs = (Ok tt, fs') /\
    (forall q n, fs' !! q = Some n -> fs !! q = Some n) /\
    (forall q n, fs !! q = Some n ->
       (l <> project -> forall sc,
          base ++ [lifespan_name l; sc] `prefix_of` q ->
          exists x, is_Some (fs !! (base ++ [lifespan_name l; sc; x]))) ->
       fs' !! q = Some n).
Proof.
  intros Hv Hdir. unfold FileStorage.cleanEmptyDirs.
  rewrite lifespanDir_eq. simpl. unfold_m.
  rewrite existsSync_eq, bool_decide_eq_true_2 by (by rewrite Hdir). simpl.
  case_bool_decide as Hl; simpl.
  - exists fs. by split.
  - rewrite readdirSync_withFileTypes_dir by done.
    destruct (clean_loop (base ++ [lifespan_name l])
                (map fst (filter (fun d => Fs.isDirectory d)
                            (Fs.entries fs (base ++ [lifespan_name l])))) fs)
      as (fs' & Hrun & Hsub & Hkept).
    { apply NoDup_fst_filter, NoDup_entries. }
    { intros sc. by apply scope_dirs. }
    exists fs'. split; [done|]. split; [done|].
    intros q n Hq Hne. apply Hkept; [done|].
    intros sc _ Hpre. rewrite <- app_assoc in Hpre.
    destruct (Hne Hl sc Hpre) as (x & Hx). exists x.
    by rewrite <- app_assoc.
Qed.

Lemma dirname_agent_path (a : RegisteredAgent) :
  dirname (agent_path base a)
  = match lifespan a with
    | project => base ++ ["project"]
    | l => base ++ [lifespan_name l; scope a]
    end.
Proof.
  unfold agent_path, dirname.
  destruct (lifespan a); by rewrite removelast_app.
Qed.

Lemma prefix_agent_path (l : AgentLifespan) (sc : string) (a : RegisteredAgent) :
  l <> project ->
  base ++ [lifespan_name l; sc] `prefix_of` agent_path base a ->
  agent_path base a = base ++ [lifespan_name l; sc; name a +:+ ".json"].
Proof.
  intros Hl. unfold agent_path.
  destruct (lifespan a); intros Hpre%prefix_app_inv;
    pose proof (prefix_cons_inv_1 _ _ _ _ Hpre) as E1;
    apply prefix_cons_inv_2 in Hpre;
    try (pose proof (prefix_cons_inv_1 _ _ _ _ Hpre) as E2; by rewrite E1, E2).
  by destruct l.
Qed.

Lemma prefix_dirname_agent_path (l : AgentLifespan) (sc : string)
    (a : RegisteredAgent) :
  base ++ [lifespan_name l; sc] `prefix_of` dirname (agent_path base a) ->
  agent_path base a = base ++ [lifespan_name l; sc; name a +:+ ".json"].
Proof.
  rewrite dirname_agent_path. unfold agent_path.
  destruct (lifespan a); intros Hpre%prefix_app_inv;
    pose proof (prefix_cons_inv_1 _ _ _ _ Hpre) as E1;
    apply prefix_cons_inv_2 in Hpre;
    try (pose proof (prefix_cons_inv_1 _ _ _ _ Hpre) as E2; by rewrite E1, E2).
  by apply prefix_nil_inv in Hpre.
Qed.

Lemma same_path_same_agent (fs : FS) (a b : RegisteredAgent) :
  document_at fs (agent_path base a) = Some a ->
  document_at fs (agent_path base b) = Some b ->
  agent_path base a = agent_path base b -> a = b.
Proof. intros Ha Hb E. rewrite E in Ha. congruence. Qed.

(** [deleteMany] on a well-built tree: it returns the number of listed
    records that match, removes exactly their documents, and leaves a
    well-built tree. *)
Lemma deleteMany_spec (l : AgentLifespan) (flt : AgentFilter) (fs : FS) :
  tree_ok base fs -> durable l ->
  exists fs',
    FileStorage.deleteMany (store base l) flt fs
    = (Ok (length (filter (fun a => matchesFilter a flt)
                     (listing (store base l) None fs))), fs') /\
    tree_ok base fs' /\
    (forall a,
       document_at fs' (agent_path base a) = Some a <->
       document_at fs (agent_path base a) = Some a /\
       ~ (lifespan a = l /\ matchesFilter a flt = true)).
Proof.
  intros Hok Hl.
  pose proof (tree_ok_names_valid base fs Hok) as Hv.
  destruct Hok as (Hb & Htiers & Hdirs & Hfiles).
  assert (Hok : tree_ok base fs) by done.
  set (found := listing (store base l) (Some flt) fs).
  assert (Hfound : forall a, a ∈ found <->
            document_at fs (agent_path base a) = Some a /\ lifespan a = l /\
            matchesFilter a flt = true).
  { intros a. unfold found. by rewrite elem_of_listing_ok. }
  assert (Hpaths : forall q, q ∈ map (agent_path base) found ->
            exists a, q = agent_path base a /\ a ∈ found).
  { intros q Hq. by apply list_elem_of_fmap in Hq. }
  set (fs1 := unlink_all base fs found).
  assert (Hfs1 : forall q n, fs1 !! q = Some n <->
            fs !! q = Some n /\ q ∉ map (agent_path base) found).
  { intros q n. unfold fs1. rewrite lookup_unlink_all.
    destruct (decide (q ∈ map (agent_path base) found)) as [Hin|Hin].
    - split; [done | by intros [_ ?]].
    - split; [by intros ? | by intros [? _]]. }
  assert (Hfs1_dir : forall q, fs !! q = Some Dir -> fs1 !! q = Some Dir).
  { intros q Hq. apply Hfs1. split; [done|]. intros (a & -> & Ha)%Hpaths.
    apply Hfound in Ha as (Hdoc & _).
    apply document_at_Some in Hdoc as (c & Hc & _). congruence. }
  destruct (cleanEmptyDirs_spec l fs1) as (fs2 & Hclean & Hsub & Hkept).
  { intros p [n Hp]. apply Hv. exists n. by apply Hfs1 in Hp as [? _]. }
  { apply Hfs1_dir, Htiers, Hl. }
  exists fs2. split; [|split].
  - unfold FileStorage.deleteMany.
    erewrite bind_Ok;
      [|apply list_eq; [done|by rewrite lifespanDir_eq; apply Htiers]].
    fold found. erewrite bind_Ok; [|apply (delete_loop l found 0 fs)].
    + fold fs1. erewrite bind_Ok by exact Hclean. unfold ret, found.
      by rewrite listing_filter.
    + apply (NoDup_fmap_2_strong (agent_path base)).
      * intros a b Ha Hb' E. apply Hfound in Ha as (Ha & _).
        apply Hfound in Hb' as (Hb' & _). by eapply same_path_same_agent.
      * by apply NoDup_listing.
    + intros a Ha. apply Hfound in Ha as (Hdoc & Hla & _).
      destruct (well_placed base fs _ a Hok Hdoc) as (Hpl & _ & _).
      split.
      * rewrite <- Hla. by apply getAgentPath_placed.
      * apply document_at_Some in Hdoc as (c & Hc & _). eauto.
  - (* the tree is still well built *)
    split; [done|]. split; [|split].
    + intros l' Hl'. apply Hkept; [by apply Hfs1_dir, Htiers|].
      intros _ sc Hpre%prefix_length. rewrite !length_app in Hpre.
      simpl in Hpre. lia.
    + intros q Hq. apply Hdirs. by apply Hsub, Hfs1 in Hq as [? _].
    + intros p c Hp.
      pose proof Hp as Hp1. apply Hsub in Hp1.
      pose proof Hp1 as Hp0. apply Hfs1 in Hp0 as [Hp0 _].
      destruct (Hfiles p c Hp0) as (a & Hparse & Hpl & -> & Hd).
      exists a. split; [done|]. split; [done|]. split; [done|].
      apply Hkept; [by apply Hfs1_dir|].
      intros Hnp sc Hpre. apply prefix_dirname_agent_path in Hpre.
      exists (name a +:+ ".json"). rewrite <- Hpre. eauto.
  - intros a. split.
    + intros (c & Hc & Hparse)%document_at_Some.
      apply Hsub, Hfs1 in Hc as [Hc Hnot].
      assert (Hdoc : document_at fs (agent_path base a) = Some a).
      { apply document_at_Some. eauto. }
      split; [done|]. intros [Hla Hm]. apply Hnot.
      apply list_elem_of_fmap_2. by apply Hfound.
    + intros [Hdoc Hnot].
      pose proof Hdoc as (c & Hc & Hparse)%document_at_Some.
      apply document_at_Some. exists c. split; [|done].
      assert (Hc1 : fs1 !! agent_path base a = Some (File c)).
      { apply Hfs1. split; [done|]. intros (b & E & Hb')%Hpaths.
        apply Hfound in Hb' as (Hb' & Hlb & Hmb).
        assert (a = b) as <- by (by eapply same_path_same_agent).
        by apply Hnot. }
      apply Hkept; [done|].
      intros Hnp sc Hpre. apply prefix_agent_path in Hpre; [|done].
      exists (name a +:+ ".json"). rewrite <- Hpre. eauto.
Qed.

End BulkDelete.

(** ** The documents a listing reads *)

Lemma endsWith_iff (s suffix : string) :
  endsWith s suffix = true <-> exists stem, s = stem +:+ suffix.
Proof.
  split; [|intros [stem ->]; apply endsWith_append].
  induction s as [|c s IH].
  - destruct suffix; [by exists "" | done].
  - change (endsWith (String c s) suffix)
      with (String.eqb (String c s) suffix || endsWith s suffix).
    intros [E%String.eqb_eq | E]%orb_true_iff.
    + by exists "".
    + destruct (IH E) as [stem ->]. by exists (String c stem).
Qed.

Lemma is_json_name (f : string) : FileStorage.is_json f = true <-> json_name f.
Proof. apply endsWith_iff. Qed.

Section ListedDocuments.
Context `{Json}.

Lemma dir_documents_paths (flt : option AgentFilter) (fs : FS) (dir : path) :
  dir_documents flt fs dir = dir_paths fs dir ≫= doc_list flt fs.
Proof. unfold dir_documents, dir_paths. by rewrite list_fmap_bind. Qed.

Lemma bind_bind {A B C} (f : A -> list B) (g : B -> list C) (l : list A) :
  (l ≫= f) ≫= g = l ≫= (fun x => f x ≫= g).
Proof.
  induction l as [|x l IH]; [done|].
  by rewrite !bind_cons, bind_app, IH.
Qed.

Lemma listing_paths_eq (this : FileStorageConfig) (flt : option AgentFilter)
    (fs : FS) :
  listing this flt fs = listing_paths this fs ≫= doc_list flt fs.
Proof.
  unfold listing, listing_paths. case_bool_decide.
  - apply dir_documents_paths.
  - rewrite bind_bind. apply list_bind_ext; [|done].
    intros sc. apply dir_documents_paths.
Qed.

Lemma elem_of_dir_paths (fs : FS) (dir p : path) :
  p ∈ dir_paths fs dir <->
  exists f, json_name f /\ p = dir ++ [f] /\ is_Some (fs !! p).
Proof.
  unfold dir_paths. rewrite list_elem_of_fmap. split.
  - intros (f & -> & [Hj Hin]%list_elem_of_filter).
    apply list_elem_of_fmap in Hin as ([x n] & -> & Hin%elem_of_entries).
    simpl in *. exists x. split; [apply is_json_name; by destruct (FileStorage.is_json x)|].
    split; [done|]. eauto.
  - intros (f & Hj%is_json_name & -> & [n Hn]). exists f. split; [done|].
    apply list_elem_of_filter. split; [by rewrite Hj|].
    apply list_elem_of_fmap. exists (f, n). split; [done|].
    by apply elem_of_entries.
Qed.

Lemma NoDup_dir_paths (fs : FS) (dir : path) : NoDup (dir_paths fs dir).
Proof.
  unfold dir_paths. apply NoDup_fmap_2_strong.
  - intros f1 f2 _ _ E%app_inv_head. by simplify_eq.
  - apply list.NoDup_filter, NoDup_entries.
Qed.

Lemma elem_of_listing_paths (base : path) (l : AgentLifespan) (fs : FS)
    (p : path) :
  p ∈ listing_paths (store base l) fs <->
  json_document base l fs p /\ is_Some (fs !! p).
Proof.
  unfold listing_paths, json_document. rewrite lifespanDir_eq. simpl.
  case_bool_decide as Hl.
  - subst l. rewrite elem_of_dir_paths. simpl. split.
    + intros (f & Hj & -> & Hp). split; [|done]. left. split; [done|].
      exists f. by rewrite <- app_assoc.
    + intros [[(_ & f & Hj & ->) | [? _]] Hp]; [|done].
      exists f. by rewrite <- app_assoc in *.
  - rewrite list_elem_of_bind. split.
    + intros (d & (f & Hj & -> & Hp)%elem_of_dir_paths & Hd).
      apply list_elem_of_fmap in Hd as ([x n] & -> & Hin).
      apply list_elem_of_filter in Hin as [Hdir Hin%elem_of_entries].
      simpl in *. unfold Fs.isDirectory in Hdir. simpl in Hdir.
      destruct n; [done|]. rewrite <- !app_assoc in *. simpl in *.
      split; [|done]. right. split; [done|]. by exists x, f.
    + intros [[[? _] | (_ & d & f & Hj & Hd & ->)] Hp]; [done|].
      exists d. split.
      * apply elem_of_dir_paths. exists f. rewrite <- !app_assoc. simpl.
        done.
      * apply list_elem_of_fmap. exists (d, Dir). split; [done|].
        apply list_elem_of_filter. split; [done|]. apply elem_of_entries.
        by rewrite <- app_assoc.
Qed.

Lemma NoDup_listing_paths (this : FileStorageConfig) (fs : FS) :
  NoDup (listing_paths this fs).
Proof.
  unfold listing_paths. case_bool_decide; [apply NoDup_dir_paths|].
  apply NoDup_bind.
  - intros d1 d2 p _ _ (f1 & _ & -> & _)%elem_of_dir_paths
      (f2 & _ & E & _)%elem_of_dir_paths.
    apply app_inj_2 in E as [E _]; [|done].
    apply app_inv_head in E. by simplify_eq.
  - intros d _. apply NoDup_dir_paths.
  - apply NoDup_fst_filter, NoDup_entries.
Qed.

Lemma doc_list_Forall2 (fs : FS) (cs : list path) :
  Forall2 (fun p a => document_at fs p = Some a)
    (filter (fun p => is_Some (document_at fs p)) cs)
    (cs ≫= doc_list None fs).
Proof.
  induction cs as [|p cs IH]; [constructor|].
  rewrite list.filter_cons, bind_cons. unfold doc_list at 1.
  destruct (document_at fs p) as [a|] eqn:Hd.
  - rewrite decide_True by eauto. simpl. by constructor.
  - rewrite decide_False by (by intros [? ?]). done.
Qed.

(** C7: with the lifespan directory in place, [list] returns without an
    error and leaves the tree as it is; what it returns is, document by
    document, the record of every [.json] file of the storage whose
    content parses: one record for each such file and nothing else.  A
    [.json] file whose content does not parse is none of these
    documents, so it adds no record and raises no error. *)
Theorem list_skips_unparseable (base : path) (l : AgentLifespan) (fs : FS) :
  tree_names_valid fs ->
  fs !! (base ++ [lifespan_name l]) = Some Dir ->
  exists found paths,
    FileStorage.list_ (store base l) None fs = (Ok found, fs) /\
    NoDup paths /\
    (forall p, p ∈ paths <->
       json_document base l fs p /\
       exists content a,
         fs !! p = Some (File content) /\ JSON_parse content = Some a) /\
    Forall2 (fun p a => exists content,
                 fs !! p = Some (File content) /\ JSON_parse content = Some a)
      paths found.
Proof.
  intros Hv Hdir.
  exists (listing (store base l) None fs),
    (filter (fun p => is_Some (document_at fs p))
       (listing_paths (store base l) fs)).
  split; [apply list_eq; [done | by rewrite lifespanDir_eq]|].
  split; [apply list.NoDup_filter, NoDup_listing_paths|]. split.
  - intros p. rewrite list_elem_of_filter, elem_of_listing_paths. split.
    + intros ([a Ha] & Hpos & _). split; [done|].
      apply document_at_Some in Ha as (c & Hc & Hparse). eauto.
    + intros (Hpos & c & a & Hc & Hparse). split; [|split; [done|eauto]].
      exists a. apply document_at_Some. eauto.
  - rewrite listing_paths_eq.
    eapply Forall2_impl; [|apply doc_list_Forall2].
    intros p a Ha. by apply document_at_Some in Ha.
Qed.

End ListedDocuments.

(** ** Bulk deletion in the memory table *)

Lemma elem_of_values (m : MemoryState) (a : RegisteredAgent) :
  a ∈ MemoryStorage.values m <-> exists k, agents m !! k = Some a.
Proof.
  unfold MemoryStorage.values. rewrite list_elem_of_fmap. split.
  - intros ([k b] & -> & Hin). exists k. by apply elem_of_map_to_list.
  - intros (k & Hk). exists (k, a). split; [done|]. by apply elem_of_map_to_list.
Qed.

Lemma filter_fmap_snd {A B} (P : B -> Prop) `{forall x, Decision (P x)}
    (l : list (A * B)) :
  map snd (filter (fun kv => P kv.2) l) = filter P (map snd l).
Proof.
  induction l as [|[k v] l IH]; simpl; [done|].
  rewrite !list.filter_cons. simpl. destruct (decide (P v)); simpl; by rewrite IH.
Qed.

(** The values of a table whose entries are those of [m] with [P]. *)
Lemma values_filtered (m m' : MemoryState) (P : RegisteredAgent -> Prop)
    `{forall a, Decision (P a)} :
  (forall k a, agents m' !! k = Some a <-> agents m !! k = Some a /\ P a) ->
  MemoryStorage.values m' ≡ₚ filter P (MemoryStorage.values m).
Proof.
  intros Hlook. unfold MemoryStorage.values.
  rewrite <- filter_fmap_snd. apply fmap_Permutation.
  apply NoDup_Permutation.
  - apply NoDup_map_to_list.
  - apply list.NoDup_filter, NoDup_map_to_list.
  - intros [k a]. rewrite list_elem_of_filter, !elem_of_map_to_list. simpl.
    rewrite Hlook. tauto.
Qed.

Lemma memory_delete_agents (id : string) (m : MemoryState) :
  agents (snd (MemoryStorage.delete_ id m)) = delete id (agents m).
Proof.
  unfold MemoryStorage.delete_, modify. simpl.
  destruct (agents m !! id) eqn:E; simpl; [done|]. by rewrite delete_id.
Qed.

Lemma memory_delete_loop (ids : list string) (n : nat) (m : MemoryState) :
  exists m',
    for_fold ids n
      (fun deleted id => MemoryStorage.delete_ id ;;; ret (S deleted)) m
    = (Ok (n + length ids), m') /\
    forall k, agents m' !! k
              = if decide (k ∈ ids) then None else agents m !! k.
Proof.
  revert n m. induction ids as [|id ids IH]; intros n m; simpl.
  - exists m. rewrite Nat.add_0_r. split; [done|]. intros k.
    destruct (decide (k ∈ [])) as [Hin|]; [by apply elem_of_nil in Hin | done].
  - destruct (IH (S n) (snd (MemoryStorage.delete_ id m))) as (m' & Hrun & Hlook).
    exists m'. split.
    + erewrite bind_Ok.
      2: { unfold bind, ret, MemoryStorage.delete_, modify. reflexivity. }
      rewrite Nat.add_succ_r. exact Hrun.
    + intros k. rewrite Hlook, memory_delete_agents.
      destruct (decide (k ∈ ids)) as [H1|H1],
               (decide (k ∈ id :: ids)) as [H2|H2]; try done.
      * exfalso. apply H2. by right.
      * apply elem_of_cons in H2 as [E|H2]; [|done]. subst k.
        apply lookup_delete_eq.
      * rewrite lookup_delete_ne; [done|]. intros E. subst k. apply H2. left.
Qed.

Lemma memory_deleteMany_spec (flt : AgentFilter) (m : MemoryState) :
  memory_ok m ->
  exists m',
    MemoryStorage.deleteMany flt m
    = (Ok (length (filter (fun a => matchesFilter a flt)
                     (MemoryStorage.values m))), m') /\
    forall k a, agents m' !! k = Some a <->
                agents m !! k = Some a /\ ~ matchesFilter a flt.
Proof.
  intros Hok. unfold MemoryStorage.deleteMany.
  set (ids := map agentId (filter (fun a => matchesFilter a flt)
                             (MemoryStorage.values m))).
  destruct (memory_delete_loop ids 0 m) as (m' & Hrun & Hlook).
  exists m'. split.
  - erewrite bind_Ok by reflexivity. fold ids. rewrite Hrun. simpl.
    unfold ids. by rewrite length_map.
  - intros k a. rewrite Hlook. destruct (decide (k ∈ ids)) as [Hin|Hin].
    + split; [done|]. intros [Hk Hnot]. exfalso. apply Hnot.
      apply list_elem_of_fmap in Hin as (b & -> & Hb).
      apply list_elem_of_filter in Hb as [Hm Hb].
      apply elem_of_values in Hb as (k' & Hk').
      destruct (Hok _ _ Hk') as [E _]. rewrite <- E in Hk'.
      assert (a = b) as -> by congruence. done.
    + split; [|by intros [? _]]. intros Hk. split; [done|].
      intros Hm. apply Hin. apply list_elem_of_fmap. exists a.
      split; [symmetry; by apply (Hok k a)|].
      apply list_elem_of_filter. split; [done|].
      apply elem_of_values. eauto.
Qed.

Lemma memory_ok_sub (m m' : MemoryState) :
  memory_ok m ->
  (forall k a, agents m' !! k = Some a -> agents m !! k = Some a) ->
  memory_ok m'.
Proof. intros Hok Hsub k a Hk. by apply Hok, Hsub. Qed.

(** ** Disposal by scope and workflow completion *)

Lemma filter_True {A} (P : A -> Prop) `{forall x, Decision (P x)} (l : list A) :
  (forall x, x ∈ l -> P x) -> filter P l = l.
Proof.
  induction l as [|x l IH]; intros HP; [done|].
  rewrite list.filter_cons, decide_True by (apply HP; left).
  f_equal. apply IH. intros y Hy. apply HP. by right.
Qed.

Section Disposal.
Context `{Json}.
Variable this : AgentRegistry.

Lemma listed_memory (s : State) :
  Registry.storage_list MemoryBackend None s
  = (Ok (MemoryStorage.values (memory s)), s) /\
  listed MemoryBackend s = MemoryStorage.values (memory s).
Proof.
  unfold listed. simpl. unfold on_memory, MemoryStorage.list_, bind, gets, ret.
  rewrite !filter_True by (intros; exact I). by destruct s as [[] ?].
Qed.

Lemma listed_file (l : AgentLifespan) (s : State) :
  tree_ok (storagePath this) (disk s) -> durable l ->
  Registry.storage_list (FileBackend (store (storagePath this) l)) None s
  = (Ok (listing (store (storagePath this) l) None (disk s)), s) /\
  listed (FileBackend (store (storagePath this) l)) s = listing (store (storagePath this) l) None (disk s).
Proof.
  intros Hok Hl. unfold listed. simpl. unfold on_disk.
  rewrite list_eq.
  - by destruct s.
  - by eapply tree_ok_names_valid.
  - rewrite lifespanDir_eq. by apply Hok.
Qed.

Lemma elem_of_backends (st : AgentStorage) :
  st ∈ backends this <->
  st = MemoryBackend \/ exists l, durable l /\ st = FileBackend (store (storagePath this) l).
Proof.
  unfold backends, Registry.fileStorages, Registry.fileStorage, store, durable.
  simpl. rewrite !elem_of_cons, elem_of_nil. naive_solver.
Qed.

(** How the listing of one storage changes when documents go. *)
Lemma listing_after (l : AgentLifespan) (fs fs' : FS)
    (P : RegisteredAgent -> Prop) `{forall a, Decision (P a)} :
  tree_ok (storagePath this) fs -> tree_ok (storagePath this) fs' ->
  (forall a, lifespan a = l ->
     (document_at fs' (agent_path (storagePath this) a) = Some a <->
      document_at fs (agent_path (storagePath this) a) = Some a /\ P a)) ->
  listing (store (storagePath this) l) None fs' ≡ₚ filter P (listing (store (storagePath this) l) None fs).
Proof.
  intros Hok Hok' Hdoc. apply NoDup_Permutation.
  - by apply NoDup_listing.
  - by apply list.NoDup_filter, NoDup_listing.
  - intros a. rewrite list_elem_of_filter, !elem_of_listing_ok by done.
    split.
    + intros (Hd & Hl & _). apply Hdoc in Hd; [|done]. tauto.
    + intros (HP & Hd & Hl & _). split; [|done]. apply Hdoc; done.
Qed.

Lemma filter_by_scope (sc : string) (found : list RegisteredAgent) :
  sc <> "" ->
  filter (fun a => matchesFilter a (by_scope sc)) found
  = filter (in_scope sc) found.
Proof.
  intros Hsc. apply list_filter_iff. intros a.
  rewrite matchesFilter_by_scope by done. unfold in_scope.
  by rewrite bool_decide_spec.
Qed.

Lemma matchesFilter_selected (a : RegisteredAgent) (sc : string) :
  matchesFilter a (by_scope sc) = bool_decide (scope_selected sc a).
Proof.
  unfold scope_selected. destruct (decide (sc = "")) as [->|Hsc].
  - rewrite matchesFilter_by_scope_empty. symmetry.
    apply bool_decide_eq_true_2. by left.
  - rewrite matchesFilter_by_scope by done. apply bool_decide_ext. tauto.
Qed.

Lemma filter_selected (sc : string) (found : list RegisteredAgent) :
  filter (fun a => matchesFilter a (by_scope sc)) found
  = filter (scope_selected sc) found.
Proof.
  apply list_filter_iff. intros a.
  by rewrite matchesFilter_selected, bool_decide_spec.
Qed.

Lemma not_matches_selected (sc : string) (a : RegisteredAgent) :
  ~ matchesFilter a (by_scope sc) <-> ~ scope_selected sc a.
Proof. by rewrite matchesFilter_selected, bool_decide_spec. Qed.

Lemma filter_selected_in_scope (sc : string) (found : list RegisteredAgent) :
  sc <> "" ->
  filter (scope_selected sc) found = filter (in_scope sc) found /\
  filter (fun a => ~ scope_selected sc a) found
  = filter (fun a => ~ in_scope sc a) found.
Proof.
  intros Hsc. split; apply list_filter_iff; intros a;
    unfold scope_selected, in_scope; tauto.
Qed.

Lemma filter_selected_empty (found : list RegisteredAgent) :
  filter (scope_selected "") found = found /\
  filter (fun a => ~ scope_selected "" a) found = [].
Proof.
  split.
  - apply filter_True. intros a _. by left.
  - induction found as [|a found IH]; [done|].
    rewrite list.filter_cons, decide_False; [done|].
    intros Hn. apply Hn. by left.
Qed.

Lemma Is_true_true (b : bool) : b = true <-> Is_true b.
Proof. destruct b; simpl; split; done. Qed.

(** [disposeByScope] on a well-built state, for every scope string. *)
Lemma disposeByScope_sel (sc : string) (s : State) :
  state_ok this s ->
  exists s',
    Registry.disposeByScope this sc s
    = (Ok (count_selected sc (backends this) s), s') /\
    state_ok this s' /\
    forall st, st ∈ backends this ->
      Registry.storage_list st None s = (Ok (listed st s), s) /\
      Registry.storage_list st None s' = (Ok (listed st s'), s') /\
      listed st s' ≡ₚ filter (fun a => ~ scope_selected sc a) (listed st s).
Proof.
  intros [Hm Hfs]. destruct s as [m fs]. simpl in Hm, Hfs.
  destruct (memory_deleteMany_spec (by_scope sc) m Hm) as (m' & Hrun0 & Hlook).
  destruct (deleteMany_spec (storagePath this) session (by_scope sc) fs Hfs)
    as (fs1 & Hrun1 & Hok1 & Hdoc1); [unfold durable; tauto|].
  destruct (deleteMany_spec (storagePath this) workflow (by_scope sc) fs1 Hok1)
    as (fs2 & Hrun2 & Hok2 & Hdoc2); [unfold durable; tauto|].
  destruct (deleteMany_spec (storagePath this) project (by_scope sc) fs2 Hok2)
    as (fs3 & Hrun3 & Hok3 & Hdoc3); [unfold durable; tauto|].
  set (s' := {| memory := m'; disk := fs3 |}).
  assert (Hm' : memory_ok m').
  { eapply memory_ok_sub; [exact Hm|]. intros k a Hk. by apply Hlook in Hk as [? _]. }
  assert (Hdoc : forall a, durable (lifespan a) ->
            (document_at fs3 (agent_path (storagePath this) a) = Some a <->
             document_at fs (agent_path (storagePath this) a) = Some a /\
             ~ scope_selected sc a)).
  { intros a Hd. rewrite Hdoc3, Hdoc2, Hdoc1.
    rewrite <- (not_matches_selected sc a). rewrite <- Is_true_true.
    destruct Hd as [E | [E | E]]; rewrite E; intuition congruence. }
  assert (Hw : listing (store (storagePath this) workflow) None fs1
               ≡ₚ listing (store (storagePath this) workflow) None fs).
  { rewrite <- (filter_True (fun _ => True)
                 (listing (store (storagePath this) workflow) None fs)) by done.
    apply listing_after; [done..|]. intros a Ha. rewrite Hdoc1, Ha.
    intuition congruence. }
  assert (Hp : listing (store (storagePath this) project) None fs2
               ≡ₚ listing (store (storagePath this) project) None fs).
  { rewrite <- (filter_True (fun _ => True)
                 (listing (store (storagePath this) project) None fs)) by done.
    apply listing_after; [done..|]. intros a Ha. rewrite Hdoc2, Hdoc1, Ha.
    intuition congruence. }
  exists s'. split; [|split].
  - unfold Registry.disposeByScope.
    erewrite bind_Ok.
    2: { unfold on_memory. simpl. by rewrite Hrun0. }
    simpl. unfold Registry.fileStorage. fold (store (storagePath this) session).
    fold (store (storagePath this) workflow).
    fold (store (storagePath this) project).
    erewrite bind_Ok.
    2: { erewrite bind_Ok; [|unfold on_disk; simpl; by rewrite Hrun1].
         reflexivity. }
    erewrite bind_Ok.
    2: { erewrite bind_Ok; [|unfold on_disk; simpl; by rewrite Hrun2].
         reflexivity. }
    erewrite bind_Ok.
    2: { erewrite bind_Ok; [|unfold on_disk; simpl; by rewrite Hrun3].
         reflexivity. }
    unfold ret, s'. f_equal. f_equal.
    unfold count_selected, backends. simpl.
    unfold Registry.fileStorage. fold (store (storagePath this) session).
    fold (store (storagePath this) workflow).
    fold (store (storagePath this) project).
    destruct (listed_memory {| memory := m; disk := fs |}) as [_ ->].
    destruct (listed_file session {| memory := m; disk := fs |}) as [_ ->];
      [done | unfold durable; tauto |].
    destruct (listed_file workflow {| memory := m; disk := fs |}) as [_ ->];
      [done | unfold durable; tauto |].
    destruct (listed_file project {| memory := m; disk := fs |}) as [_ ->];
      [done | unfold durable; tauto |].
    simpl. rewrite !filter_selected. rewrite Hw, Hp. lia.
  - by split.
  - intros st [-> | (l & Hl & ->)]%elem_of_backends.
    + destruct (listed_memory {| memory := m; disk := fs |}) as [E1 E1'].
      destruct (listed_memory s') as [E2 E2'].
      rewrite E1', E2'. split; [done|]. split; [done|]. simpl.
      apply values_filtered. intros k a. rewrite Hlook.
      by rewrite not_matches_selected.
    + destruct (listed_file l {| memory := m; disk := fs |}) as [E1 E1'];
        [done..|].
      destruct (listed_file l s') as [E2 E2']; [done..|].
      rewrite E1', E2'. split; [done|]. split; [done|]. simpl.
      apply listing_after; [done..|]. intros a Ha. apply Hdoc. by rewrite Ha.
Qed.

(** [completeWorkflow] on a well-built state, for every identifier. *)
Lemma completeWorkflow_sel (workflowId : string) (s : State) :
  state_ok this s ->
  exists s',
    Registry.completeWorkflow this workflowId s
    = (Ok (length (filter (scope_selected workflowId)
                     (listed (FileBackend (store (storagePath this) workflow)) s))),
       s') /\
    state_ok this s' /\
    (forall st, st ∈ backends this ->
       Registry.storage_list st None s = (Ok (listed st s), s) /\
       Registry.storage_list st None s' = (Ok (listed st s'), s')) /\
    listed (FileBackend (store (storagePath this) workflow)) s'
      ≡ₚ filter (fun a => ~ scope_selected workflowId a)
           (listed (FileBackend (store (storagePath this) workflow)) s) /\
    (forall st, st ∈ backends this ->
       st <> FileBackend (store (storagePath this) workflow) ->
       listed st s' ≡ₚ listed st s).
Proof.
  intros [Hm Hfs]. destruct s as [m fs]. simpl in Hm, Hfs.
  destruct (deleteMany_spec (storagePath this) workflow (by_scope workflowId)
              fs Hfs) as (fs' & Hrun & Hok' & Hdoc); [unfold durable; tauto|].
  set (s' := {| memory := m; disk := fs' |}).
  assert (Hlists : forall st, st ∈ backends this ->
    Registry.storage_list st None {| memory := m; disk := fs |}
    = (Ok (listed st {| memory := m; disk := fs |}), {| memory := m; disk := fs |}) /\
    Registry.storage_list st None s' = (Ok (listed st s'), s')).
  { intros st [-> | (l & Hl & ->)]%elem_of_backends.
    - destruct (listed_memory {| memory := m; disk := fs |}) as [E1 E1'].
      destruct (listed_memory s') as [E2 E2']. by rewrite E1', E2'.
    - destruct (listed_file l {| memory := m; disk := fs |}) as [E1 E1'];
        [done..|].
      destruct (listed_file l s') as [E2 E2']; [done..|]. by rewrite E1', E2'. }
  exists s'. split; [|split; [by split|split; [done|split]]].
  - unfold Registry.completeWorkflow, on_disk. simpl.
    unfold Registry.fileStorage. fold (store (storagePath this) workflow).
    rewrite Hrun. rewrite filter_selected.
    destruct (listed_file workflow {| memory := m; disk := fs |}) as [_ ->];
      [done | unfold durable; tauto |]. done.
  - destruct (listed_file workflow {| memory := m; disk := fs |}) as [_ ->];
      [done | unfold durable; tauto |].
    destruct (listed_file workflow s') as [_ ->];
      [done | unfold durable; tauto |]. simpl.
    apply listing_after; [done..|]. intros a Ha. rewrite Hdoc, Ha.
    rewrite <- (not_matches_selected workflowId a), <- Is_true_true.
    intuition congruence.
  - intros st [-> | (l & Hl & ->)]%elem_of_backends Hne.
    + destruct (listed_memory {| memory := m; disk := fs |}) as [_ ->].
      by destruct (listed_memory s') as [_ ->].
    + destruct (listed_file l {| memory := m; disk := fs |}) as [_ ->];
        [done..|].
      destruct (listed_file l s') as [_ ->]; [done..|]. simpl.
      rewrite <- (filter_True (fun _ => True)
                   (listing (store (storagePath this) l) None fs)) by done.
      apply listing_after; [done..|]. intros a Ha. rewrite Hdoc, Ha.
      assert (l <> workflow) by (intros ->; done).
      intuition congruence.
Qed.

End Disposal.

(** ** Operations keep the tree well built *)

Lemma prefix_of_app {A} (q l1 l2 : list A) :
  q `prefix_of` l1 ++ l2 ->
  q `prefix_of` l1 \/ exists k, q = l1 ++ k /\ k `prefix_of` l2 /\ k <> [].
Proof.
  revert q. induction l1 as [|x l1 IH]; intros q Hq; simpl in *.
  - destruct q as [|y q]; [left; apply prefix_nil | right]. by exists (y :: q).
  - destruct q as [|y q]; [left; apply prefix_nil|].
    pose proof (prefix_cons_inv_1 _ _ _ _ Hq) as ->.
    apply prefix_cons_inv_2 in Hq.
    destruct (IH q Hq) as [Hp | (k & -> & Hk & Hne)].
    + left. by apply prefix_cons.
    + right. by exists k.
Qed.

Lemma prefix_of_two {A} (k : list A) (x y : A) :
  k `prefix_of` [x; y] -> k <> [] -> k = [x] \/ k = [x; y].
Proof.
  intros Hk Hne. destruct k as [|a [|b [|c k]]]; [done| | |].
  - apply prefix_cons_inv_1 in Hk as ->. by left.
  - pose proof (prefix_cons_inv_1 _ _ _ _ Hk) as ->.
    apply prefix_cons_inv_2, prefix_cons_inv_1 in Hk as ->. by right.
  - apply prefix_length in Hk. simpl in Hk. lia.
Qed.

Lemma prefix_of_one {A} (k : list A) (x : A) :
  k `prefix_of` [x] -> k <> [] -> k = [x].
Proof.
  intros Hk Hne. destruct k as [|a [|b k]]; [done| |].
  - by apply prefix_cons_inv_1 in Hk as ->.
  - apply prefix_length in Hk. simpl in Hk. lia.
Qed.

Section Preservation.
Context `{JsonLaws}.
Variable base : path.

Lemma agent_path_not_above (a b : RegisteredAgent) :
  placeable a -> placeable b ->
  ~ agent_path base b `prefix_of` dirname (agent_path base a).
Proof.
  intros (Ha & _) (Hb & _). rewrite dirname_agent_path. unfold agent_path.
  destruct (lifespan a), (lifespan b);
    try (by destruct Ha as [|[|]]); try (by destruct Hb as [|[|]]);
    intros Hpre%prefix_app_inv;
    first [ apply prefix_length in Hpre; simpl in Hpre; lia
          | apply prefix_cons_inv_1 in Hpre; discriminate ].
Qed.

Lemma can_write_placeable (fs : FS) (a : RegisteredAgent) :
  tree_ok base fs -> placeable a -> can_write fs (agent_path base a).
Proof.
  intros (Hb & Htiers & Hdirs & Hfiles) Ha. split.
  - apply not_true_iff_false. intros (q & Hq & Hfile)%existsb_exists.
    apply list_elem_of_In, elem_of_prefixes in Hq.
    unfold Fs.is_file in Hfile.
    destruct (fs !! q) as [[c|]|] eqn:Hc; try done.
    destruct (Hfiles q c Hc) as (b & _ & Hpb & Eq & _). subst q.
    exact (agent_path_not_above a b Ha Hpb Hq).
  - apply bool_decide_eq_false_2. intros Hdir.
    destruct Ha as (Hd & _).
    destruct (Hdirs _ Hdir) as [Hpre | [(l & _ & E) | (l & sc & _ & Hl & _ & E)]].
    + apply prefix_length in Hpre. revert Hpre. unfold agent_path.
      destruct (lifespan a); rewrite length_app; simpl; lia.
    + revert E. unfold agent_path.
      destruct (lifespan a); intros E%app_inv_head; discriminate.
    + revert E. unfold agent_path.
      destruct (lifespan a) eqn:Ea; intros E%app_inv_head; try discriminate.
      injection E as E _. by destruct l.
Qed.

Lemma written_lookup (fs : FS) (p q : path) (content : string) (n : node) :
  written fs p content !! q = Some n ->
  (q = p /\ n = File content) \/
  (q <> p /\ (fs !! q = Some n \/
              (n = Dir /\ q `prefix_of` dirname p))).
Proof.
  unfold written. destruct (decide (q = p)) as [->|Hne].
  - rewrite lookup_insert_eq. intros [= <-]. by left.
  - rewrite lookup_insert_ne by done. intros Hq. right. split; [done|].
    case_bool_decide; [by left|].
    rewrite lookup_mkdirs in Hq.
    destruct (decide (q ∈ Fs.prefixes (dirname p))) as [Hin|Hin]; [|by left].
    right. split; [congruence|]. by apply elem_of_prefixes.
Qed.

Lemma written_keeps_dir (fs : FS) (p q : path) (content : string) :
  Fs.is_dir fs p = false ->
  fs !! q = Some Dir -> written fs p content !! q = Some Dir.
Proof.
  intros Hp Hq. unfold written.
  rewrite lookup_insert_ne.
  2: { intros ->. unfold Fs.is_dir in Hp.
       by rewrite bool_decide_eq_true_2 in Hp. }
  case_bool_decide; [done|]. rewrite lookup_mkdirs.
  by destruct (decide _).
Qed.

Lemma written_makes_dir (fs : FS) (d : path) (x content : string) :
  Fs.is_file fs d = false ->
  written fs (d ++ [x]) content !! d = Some Dir.
Proof.
  intros Hd. unfold written. rewrite dirname_snoc.
  rewrite lookup_insert_ne.
  2: { intros E. apply (f_equal length) in E. rewrite length_app in E.
       simpl in E. lia. }
  case_bool_decide as Hex.
  - destruct Hex as [n Hn]. unfold Fs.is_file in Hd. rewrite Hn in *.
    by destruct n.
  - rewrite lookup_mkdirs, decide_True; [done|]. by apply elem_of_prefixes.
Qed.

Lemma agent_path_snoc (a : RegisteredAgent) :
  agent_path base a = dirname (agent_path base a) ++ [name a +:+ ".json"].
Proof.
  rewrite dirname_agent_path. unfold agent_path.
  destruct (lifespan a); by rewrite <- app_assoc.
Qed.

(** Writing the document of a placeable record keeps the tree well
    built. *)
Lemma written_ok (fs : FS) (a a' : RegisteredAgent) (content : string) :
  tree_ok base fs -> placeable a ->
  JSON_parse content = Some a' -> placeable a' ->
  agent_path base a' = agent_path base a ->
  tree_ok base (written fs (agent_path base a) content).
Proof.
  intros Hok Ha Hparse Ha' Hpath.
  destruct (can_write_placeable fs a Hok Ha) as [Hnofile Hnodir].
  destruct Hok as (Hb & Htiers & Hdirs & Hfiles).
  assert (Hd : Fs.is_file fs (dirname (agent_path base a)) = false).
  { apply not_true_iff_false. intros Hf.
    assert (existsb (Fs.is_file fs)
              (Fs.prefixes (dirname (agent_path base a))) = true) as Hex;
      [|congruence].
    apply existsb_exists. eexists. split; [|exact Hf].
    by apply list_elem_of_In, elem_of_prefixes. }
  split; [done|]. split; [|split].
  - intros l Hl. apply written_keeps_dir; [done|]. by apply Htiers.
  - intros q Hq. apply written_lookup in Hq
      as [[_ ?] | [_ [Hq | [_ Hpre]]]]; [done | by apply Hdirs |].
    rewrite dirname_agent_path in Hpre. destruct Ha as (Hda & _ & Hsa).
    destruct (lifespan a) eqn:Ea; try (by destruct Hda as [|[|]]);
      apply prefix_of_app in Hpre as [Hpre | (k & -> & Hk & Hne)];
      try (by left).
    + destruct (prefix_of_two _ _ _ Hk Hne) as [-> | ->]; right.
      * left. exists session. split; [unfold durable; tauto | done].
      * right. exists session, (scope a). split; [unfold durable; tauto|].
        split; [done|]. split; [by apply Hsa | done].
    + destruct (prefix_of_two _ _ _ Hk Hne) as [-> | ->]; right.
      * left. exists workflow. split; [unfold durable; tauto | done].
      * right. exists workflow, (scope a). split; [unfold durable; tauto|].
        split; [done|]. split; [by apply Hsa | done].
    + rewrite (prefix_of_one _ _ Hk Hne). right. left.
      exists project. split; [unfold durable; tauto | done].
  - intros p c Hp. apply written_lookup in Hp
      as [[-> [= <-]] | [Hne [Hp | [? _]]]]; [| |done].
    + exists a'. split; [done|]. split; [done|]. split; [done|].
      pose proof (written_makes_dir fs (dirname (agent_path base a))
                    (name a +:+ ".json") c Hd) as Hw.
      by rewrite <- agent_path_snoc in Hw.
    + destruct (Hfiles p c Hp) as (b & Hpb & Hplb & -> & Hdb).
      exists b. split; [done|]. split; [done|]. split; [done|].
      by apply written_keeps_dir.
Qed.

Lemma placeable_clean (a : RegisteredAgent) :
  placeable a -> placeable (agent_clean a).
Proof. done. Qed.

Lemma file_save_ok (l : AgentLifespan) (fs : FS) (a : RegisteredAgent) :
  tree_ok base fs -> placeable a -> lifespan a = l ->
  FileStorage.save (store base l) a fs
  = (Ok tt, written fs (agent_path base a) (JSON_stringify a)) /\
  tree_ok base (written fs (agent_path base a) (JSON_stringify a)).
Proof.
  intros Hok Ha <-. split.
  - apply save_written; [by apply getAgentPath_placed|].
    by apply can_write_placeable.
  - apply (written_ok fs a (agent_clean a)); try done.
    apply JSON_parse_stringify.
Qed.

Lemma join_app (b : path) (xs ys : list string) :
  join b (xs ++ ys) = join (join b xs) ys.
Proof. unfold join. by rewrite flat_map_app, fold_left_app. Qed.

Lemma join_empty (b : path) : join b [""] = b.
Proof. done. Qed.

(** The path a storage computes from a name without ['/'] and a scope
    that is one segment, or empty. *)
Lemma tier_path (l : AgentLifespan) (nm ss : string) (p : path) :
  has_sep nm = false ->
  (l <> project -> is_segment ss = true \/ ss = "") ->
  FileStorage.getAgentPathByNameAndScope (store base l) nm ss = Ok p ->
  (l = project /\ p = base ++ ["project"; nm +:+ ".json"]) \/
  (l <> project /\ durable l /\ is_segment ss = true /\
   p = base ++ [lifespan_name l; ss; nm +:+ ".json"]) \/
  (l <> project /\ durable l /\ ss = "" /\
   p = base ++ [lifespan_name l; nm +:+ ".json"]).
Proof.
  intros Hnm Hss. unfold FileStorage.getAgentPathByNameAndScope. simpl.
  pose proof (is_segment_json nm Hnm) as Hj.
  destruct l; try discriminate; intros [= <-].
  - destruct Hss as [Hss | ->]; [done | |].
    + right. left. split; [done|]. split; [unfold durable; tauto|].
      split; [done|]. apply join_segments. by repeat constructor.
    + right. right. split; [done|]. split; [unfold durable; tauto|].
      split; [done|].
      change ["session"; ""; nm +:+ ".json"]
        with (["session"] ++ [""] ++ [nm +:+ ".json"]).
      rewrite !join_app, join_empty, !join_segments by (by repeat constructor).
      by rewrite <- app_assoc.
  - destruct Hss as [Hss | ->]; [done | |].
    + right. left. split; [done|]. split; [unfold durable; tauto|].
      split; [done|]. apply join_segments. by repeat constructor.
    + right. right. split; [done|]. split; [unfold durable; tauto|].
      split; [done|].
      change ["workflow"; ""; nm +:+ ".json"]
        with (["workflow"] ++ [""] ++ [nm +:+ ".json"]).
      rewrite !join_app, join_empty, !join_segments by (by repeat constructor).
      by rewrite <- app_assoc.
  - left. split; [done|]. apply join_segments. by repeat constructor.
Qed.

Lemma file_find_Some (f : FileStorageConfig) (nm ss : string) (fs fs' : FS)
    (e : RegisteredAgent) :
  FileStorage.findByNameAndScope f nm ss fs = (Ok (Some e), fs') ->
  exists p, FileStorage.getAgentPathByNameAndScope f nm ss = Ok p /\
            document_at fs p = Some e.
Proof.
  unfold FileStorage.findByNameAndScope, FileStorage.read_json,
    Fs.readFileSync, document_at. unfold_m.
  destruct (FileStorage.getAgentPathByNameAndScope f nm ss) as [p|]; [|done].
  rewrite existsSync_eq. case_bool_decide; simpl; [|done].
  destruct (fs !! p) as [[c|]|] eqn:Hp; try done.
  destruct (JSON_parse c) as [a|] eqn:Hc; [|done]. intros [= <- <-].
  exists p. split; [done|]. by rewrite Hp.
Qed.

(** What a storage finds under a safe name and scope is a record of its
    own lifespan. *)
Lemma find_in_tier (l : AgentLifespan) (nm ss : string) (fs fs' : FS)
    (e : RegisteredAgent) :
  tree_ok base fs ->
  has_sep nm = false ->
  (l <> project -> is_segment ss = true \/ ss = "") ->
  FileStorage.findByNameAndScope (store base l) nm ss fs = (Ok (Some e), fs') ->
  lifespan e = l /\ placeable e.
Proof.
  intros Hok Hnm Hss (p & Hp & Hdoc)%file_find_Some.
  destruct (well_placed base fs p e Hok Hdoc) as (Hpl & E & _).
  split; [|done]. destruct Hpl as (Hd & _).
  destruct (tier_path l nm ss p Hnm Hss Hp)
    as [(-> & ->) | [(Hl & _ & _ & ->) | (Hl & _ & _ & ->)]];
    revert E; unfold agent_path;
    destruct (lifespan e) eqn:Ee; try (by destruct Hd as [|[|]]);
    intros E%app_inv_head; try discriminate; try done;
    injection E as E; try (by destruct l).
Qed.

(** The workflow storage has no document for the empty scope and a name
    without ['/']: the path of the probe is two segments below the base,
    and every document of that depth is a project record. *)
Lemma find_workflow_unscoped (nm : string) (fs fs' : FS)
    (e : RegisteredAgent) :
  tree_ok base fs ->
  has_sep nm = false ->
  FileStorage.findByNameAndScope (store base workflow) nm "" fs
  <> (Ok (Some e), fs').
Proof.
  intros Hok Hnm (p & Hp & Hdoc)%file_find_Some.
  destruct (well_placed base fs p e Hok Hdoc) as (Hpl & E & _).
  destruct Hpl as (Hd & _).
  destruct (tier_path workflow nm "" p Hnm (fun _ => or_intror eq_refl) Hp)
    as [(? & _) | [(_ & _ & Hseg & _) | (_ & _ & _ & ->)]]; [done..|].
  revert E. unfold agent_path.
  destruct (lifespan e); try (by destruct Hd as [|[|]]);
    intros E%app_inv_head; discriminate.
Qed.

Lemma tree_ok_delete (fs : FS) (p : path) (content : string) :
  tree_ok base fs -> fs !! p = Some (File content) ->
  tree_ok base (delete p fs).
Proof.
  intros (Hb & Htiers & Hdirs & Hfiles) Hp. split; [done|].
  split; [|split].
  - intros l Hl. rewrite lookup_delete_ne; [by apply Htiers|].
    intros E. rewrite E, Htiers in Hp; done.
  - intros q Hq. apply Hdirs.
    destruct (decide (p = q)) as [->|Hne];
      [by rewrite lookup_delete_eq in Hq | by rewrite lookup_delete_ne in Hq].
  - intros q c Hq.
    destruct (decide (p = q)) as [->|Hne]; [by rewrite lookup_delete_eq in Hq|].
    rewrite lookup_delete_ne in Hq by done.
    destruct (Hfiles q c Hq) as (a & Hpa & Hpl & E & Hd).
    exists a. split; [done|]. split; [done|]. split; [done|].
    rewrite lookup_delete_ne; [done|]. intros E'. rewrite E' in Hp. congruence.
Qed.

Lemma file_load_ok (l : AgentLifespan) (id : string) (fs : FS) :
  tree_ok base fs -> durable l ->
  exists found,
    FileStorage.load (store base l) id fs = (Ok found, fs) /\
    forall b, found = Some b -> b ∈ listing (store base l) None fs.
Proof.
  intros Hok Hl. unfold FileStorage.load.
  erewrite bind_Ok.
  2: { apply list_eq; [by eapply tree_ok_names_valid|].
       rewrite lifespanDir_eq. by apply Hok. }
  eexists. split; [reflexivity|].
  intros b Hb. apply find_some in Hb as [Hb _]. by apply list_elem_of_In.
Qed.

Lemma file_delete_ok (l : AgentLifespan) (id : string) (fs : FS) :
  tree_ok base fs -> durable l ->
  exists fs',
    FileStorage.delete_ (store base l) id fs = (Ok tt, fs') /\
    tree_ok base fs'.
Proof.
  intros Hok Hl. unfold FileStorage.delete_.
  destruct (file_load_ok l id fs Hok Hl) as (found & Hload & Hfound).
  erewrite bind_Ok by exact Hload.
  destruct found as [b|]; [|by exists fs].
  specialize (Hfound b eq_refl).
  apply elem_of_listing_ok in Hfound as (Hdoc & Hlb & _); [|done].
  destruct (well_placed base fs _ b Hok Hdoc) as (Hpl & _ & _).
  pose proof Hdoc as (c & Hc & _)%document_at_Some.
  rewrite <- Hlb. rewrite getAgentPath_placed by done.
  unfold_m. rewrite existsSync_eq.
  rewrite bool_decide_eq_true_2 by (by rewrite Hc).
  unfold Fs.unlinkSync. rewrite Hc.
  eexists. split; [reflexivity|]. by eapply tree_ok_delete.
Qed.

Lemma memory_save_ok (a : RegisteredAgent) (m : MemoryState) :
  memory_ok m -> ~ durable (lifespan a) ->
  memory_ok (snd (MemoryStorage.save a m)).
Proof.
  intros Hok Ha k b. simpl. destruct (decide (agentId a = k)) as [<-|Hne].
  - rewrite lookup_insert_eq. by intros [= <-].
  - rewrite lookup_insert_ne by done. apply Hok.
Qed.

Lemma memory_find_Some (nm sc : string) (m m' : MemoryState)
    (e : RegisteredAgent) :
  MemoryStorage.findByNameAndScope nm sc m = (Ok (Some e), m') ->
  exists k, agents m !! k = Some e.
Proof.
  unfold MemoryStorage.findByNameAndScope. unfold_m.
  destruct (nameIndex m !! MemoryStorage.getNameKey nm sc) as [id|]; [|done].
  destruct (String.eqb id ""); [done|]. intros [= E _]. eauto.
Qed.

Lemma memory_delete_ok (id : string) (m : MemoryState) :
  memory_ok m -> memory_ok (snd (MemoryStorage.delete_ id m)).
Proof.
  intros Hok k b. rewrite memory_delete_agents.
  destruct (decide (id = k)) as [<-|Hne];
    [by rewrite lookup_delete_eq | rewrite lookup_delete_ne by done; apply Hok].
Qed.

End Preservation.

(** ** Every reachable state is well built *)

Section Reach.
Context `{JsonLaws}.
Variable this : AgentRegistry.

Lemma ensure_skeleton (l : AgentLifespan) (fs : FS) :
  durable l -> skeleton (storagePath this) fs ->
  exists fs',
    FileStorage.ensureBaseDir (store (storagePath this) l) fs = (Ok tt, fs') /\
    skeleton (storagePath this) fs' /\
    fs' !! (storagePath this ++ [lifespan_name l]) = Some Dir /\
    (forall q, fs !! q = Some Dir -> fs' !! q = Some Dir).
Proof.
  intros Hl [Hnofile Hdirs]. unfold FileStorage.ensureBaseDir.
  rewrite lifespanDir_eq. simpl. unfold_m. rewrite existsSync_eq.
  case_bool_decide as Hex; simpl.
  - exists fs. split; [done|]. split; [done|]. split; [|done].
    destruct Hex as [[c|] Hn]; [by apply Hnofile in Hn | done].
  - unfold Fs.mkdirSync_recursive.
    assert (existsb (Fs.is_file fs)
              (Fs.prefixes (storagePath this ++ [lifespan_name l])) = false)
      as ->.
    { apply not_true_iff_false. intros (q & _ & Hf)%existsb_exists.
      unfold Fs.is_file in Hf. destruct (fs !! q) as [[c|]|] eqn:Hq; try done.
      by apply Hnofile in Hq. }
    eexists. split; [reflexivity|]. split; [split|split].
    + intros p c. rewrite lookup_mkdirs. destruct (decide _); [done|].
      apply Hnofile.
    + intros q. rewrite lookup_mkdirs.
      destruct (decide _) as [Hin|]; [intros _ | apply Hdirs].
      apply elem_of_prefixes, prefix_of_app in Hin
        as [Hpre | (k & -> & Hk & Hne)]; [by left|].
      rewrite (prefix_of_one _ _ Hk Hne). right. left. eauto.
    + rewrite lookup_mkdirs, decide_True; [done|]. by apply elem_of_prefixes.
    + intros q Hq. rewrite lookup_mkdirs. by destruct (decide _).
Qed.

Lemma fresh_ok :
  Forall (fun x => is_segment x = true) (storagePath this) ->
  state_ok this
    (snd (Registry.new_registry (storagePath this)
            {| memory := MemoryStorage.empty; disk := ∅ |})).
Proof.
  intros Hb. unfold Registry.new_registry, Registry.fileStorages,
    Registry.fileStorage. simpl.
  fold (store (storagePath this) session).
  fold (store (storagePath this) workflow).
  fold (store (storagePath this) project).
  assert (Hs0 : skeleton (storagePath this) (∅ : FS)).
  { split; intros ?; [intros ? | ]; by rewrite lookup_empty. }
  destruct (ensure_skeleton session ∅) as (fs1 & E1 & Hs1 & Hd1 & Hk1);
    [unfold durable; tauto | done |].
  destruct (ensure_skeleton workflow fs1) as (fs2 & E2 & Hs2 & Hd2 & Hk2);
    [unfold durable; tauto | done |].
  destruct (ensure_skeleton project fs2) as (fs3 & E3 & Hs3 & Hd3 & Hk3);
    [unfold durable; tauto | done |].
  unfold bind, on_disk. simpl. rewrite E1, E2, E3. simpl.
  split; [by intros k a; simpl; rewrite lookup_empty|]. simpl.
  destruct Hs3 as [Hnofile Hdirs].
  split; [done|]. split; [|split; [done|]].
  - intros l [-> | [-> | ->]]; auto.
  - intros p c Hp. by apply Hnofile in Hp.
Qed.

Lemma ensureBaseDir_present (l : AgentLifespan) (fs : FS) :
  tree_ok (storagePath this) fs -> durable l ->
  FileStorage.ensureBaseDir (store (storagePath this) l) fs = (Ok tt, fs).
Proof.
  intros (_ & Htiers & _) Hl. unfold FileStorage.ensureBaseDir. unfold_m.
  rewrite existsSync_eq, lifespanDir_eq. simpl.
  rewrite bool_decide_eq_true_2; [done|]. by rewrite Htiers.
Qed.

(** A new process finds the tree as the last one left it. *)
Lemma restart_ok (s : State) :
  state_ok this s ->
  state_ok this
    (snd (Registry.new_registry (storagePath this)
            {| memory := MemoryStorage.empty; disk := disk s |})).
Proof.
  intros [_ Hfs]. unfold Registry.new_registry, Registry.fileStorages,
    Registry.fileStorage. simpl.
  fold (store (storagePath this) session).
  fold (store (storagePath this) workflow).
  fold (store (storagePath this) project).
  unfold bind, on_disk. simpl.
  rewrite !ensureBaseDir_present by (done || unfold durable; tauto). simpl.
  split; [by intros k a; simpl; rewrite lookup_empty | done].
Qed.

Lemma getStorage_cases (raw : option string) (st : AgentStorage)
    (l : AgentLifespan) :
  Registry.getStorage this raw = Ok st ->
  raw ≫= parse_lifespan = Some l ->
  (st = MemoryBackend /\ ~ durable l) \/
  (durable l /\ st = FileBackend (store (storagePath this) l)).
Proof.
  unfold Registry.getStorage, durable. intros Hst Hl. rewrite Hl in Hst.
  destruct l; injection Hst as <-;
    first [ left; split; [done | intros [|[|]]; done]
          | right; split; [tauto | done] ].
Qed.

Lemma storage_save_ok (st : AgentStorage) (a : RegisteredAgent) (s : State) :
  state_ok this s ->
  (~ durable (lifespan a) /\ st = MemoryBackend) \/
  (placeable a /\ st = FileBackend (store (storagePath this) (lifespan a))) ->
  fst (Registry.storage_save st a s) = Ok tt /\
  state_ok this (snd (Registry.storage_save st a s)).
Proof.
  intros [Hm Hfs] [(Hnd & ->) | (Hpl & ->)]; simpl.
  - split; [done|]. split; [|done]. by apply memory_save_ok.
  - unfold on_disk.
    destruct (file_save_ok (storagePath this) (lifespan a) (disk s) a)
      as [-> Hok']; try done.
Qed.

Lemma storage_find_in_memory (nm ss : string) (s s' : State)
    (e : RegisteredAgent) :
  state_ok this s ->
  Registry.storage_findByNameAndScope MemoryBackend nm ss s = (Ok (Some e), s') ->
  ~ durable (lifespan e).
Proof.
  intros [Hm _]. simpl. unfold on_memory.
  destruct (MemoryStorage.findByNameAndScope nm ss (memory s)) as [r m'] eqn:Hf.
  intros [= -> <-]. apply memory_find_Some in Hf as (k & Hk).
  by apply Hm in Hk as [_ ?].
Qed.

Lemma storage_find_in_tier (l : AgentLifespan) (nm ss : string) (s s' : State)
    (e : RegisteredAgent) :
  state_ok this s -> durable l ->
  has_sep nm = false ->
  (l <> project -> is_segment ss = true \/ ss = "") ->
  Registry.storage_findByNameAndScope
    (FileBackend (store (storagePath this) l)) nm ss s = (Ok (Some e), s') ->
  lifespan e = l /\ placeable e.
Proof.
  intros [_ Hfs] Hl Hnm Hss. simpl. unfold on_disk.
  destruct (FileStorage.findByNameAndScope (store (storagePath this) l) nm ss
              (disk s)) as [r fs'] eqn:Hf.
  intros [= -> <-]. by eapply find_in_tier.
Qed.

Lemma create_ok (env : Env) (uuid now later : string) (config : AnyAgentConfig)
    (s : State) :
  state_ok this s -> safe_config env config ->
  state_ok this (snd (Registry.create this env uuid now later config s)).
Proof.
  intros Hok Hsafe. unfold Registry.create. unfold_m.
  destruct (Registry.validateConfig config) as [[]|?]; [|done].
  destruct (Registry.getStorage this (c_lifespan config)) as [st|?] eqn:Hst;
    [|done].
  destruct (c_name config) as [nm|] eqn:Hnm; [|done].
  destruct (c_lifespan config ≫= parse_lifespan) as [l|] eqn:Hl; [|done].
  destruct (Registry.getScope env config) as [sc|] eqn:Hsc; [|done].
  pose proof (storage_find_state st nm sc s) as Hfs.
  destruct (Registry.storage_findByNameAndScope st nm sc s) as [[o|?] s0]
    eqn:Hfind; simpl in Hfs; subst s0; [|done].
  destruct (getStorage_cases _ _ _ Hst Hl) as [[-> Hnd] | [Hd ->]].
  - destruct o as [e|].
    + pose proof (storage_find_in_memory nm sc s s e Hok Hfind) as Hne.
      destruct (storage_save_ok MemoryBackend (set_lastUsedAt now e) s Hok)
        as [E Hok']; [by left|].
      destruct (Registry.storage_save MemoryBackend (set_lastUsedAt now e) s)
        as [[[]|?] s1]; done.
    + set (a := Registry.new_agent uuid now later config nm l sc).
      destruct (new_agent_fields uuid now later config nm l sc)
        as (_ & _ & Hla & _). fold a in Hla.
      destruct (storage_save_ok MemoryBackend a s Hok) as [E Hok'];
        [left; by rewrite Hla|].
      destruct (Registry.storage_save MemoryBackend a s) as [[[]|?] s1]; done.
  - destruct (Hsafe l nm sc Hl Hd Hnm Hsc) as [Hsep Hseg].
    destruct o as [e|].
    + destruct (storage_find_in_tier l nm sc s s e Hok Hd Hsep) as [Hle Hpl];
        [by left; apply Hseg | done |].
      destruct (storage_save_ok (FileBackend (store (storagePath this) l))
                  (set_lastUsedAt now e) s Hok) as [E Hok'].
      { right. split; [done|]. simpl. by rewrite Hle. }
      destruct (Registry.storage_save _ (set_lastUsedAt now e) s)
        as [[[]|?] s1]; done.
    + set (a := Registry.new_agent uuid now later config nm l sc).
      destruct (new_agent_fields uuid now later config nm l sc)
        as (_ & Hn & Hla & Hsa & _). fold a in Hn, Hla, Hsa.
      destruct (storage_save_ok (FileBackend (store (storagePath this) l))
                  a s Hok) as [E Hok'].
      { right. split; [|by rewrite Hla].
        split; [by rewrite Hla|]. rewrite Hn, Hla, Hsa. done. }
      destruct (Registry.storage_save _ a s) as [[[]|?] s1]; done.
Qed.

Lemma resume_loop_ok (env : Env) (now nm : string) (sc : option string)
    (storages : list (AgentLifespan * AgentStorage)) (s : State) :
  state_ok this s -> safe_resume env nm sc ->
  (forall l st, (l, st) ∈ storages ->
     st = MemoryBackend \/
     (durable l /\ st = FileBackend (store (storagePath this) l))) ->
  state_ok this (snd (Registry.resume_loop env now nm sc storages s)).
Proof.
  intros Hok [Hsep Hsc]. induction storages as [|[l st] rest IH]; intros Hst.
  - done.
  - simpl. unfold_m.
    pose proof (storage_find_state st nm
                  (Registry.nullish sc (Registry.getDefaultScope env l)) s) as Hfs.
    destruct (Registry.storage_findByNameAndScope st nm _ s) as [[o|?] s0]
      eqn:Hfind; simpl in Hfs; subst s0; [|done].
    destruct o as [a|].
    2: { apply IH. intros l' st' Hin. apply Hst. by right. }
    destruct (Hst l st) as [-> | [Hd ->]]; [left| |].
    + pose proof (storage_find_in_memory nm _ s s a Hok Hfind) as Hne.
      destruct (storage_save_ok MemoryBackend
                  (incr_turnCount (set_lastUsedAt now a)) s Hok)
        as [E Hok']; [by left|].
      destruct (Registry.storage_save MemoryBackend _ s) as [[[]|?] s1]; done.
    + destruct (storage_find_in_tier l nm
                  (Registry.nullish sc (Registry.getDefaultScope env l))
                  s s a Hok Hd Hsep) as [Hla Hpl]; [|exact Hfind|].
      { intros Hnp. destruct sc as [x|]; simpl; [by left|].
        destruct l; try (by destruct Hd as [|[|]]); simpl.
        - left. destruct (CLAUDE_SESSION_ID env) as [id|] eqn:Hid; simpl;
            [by apply Hsc | done].
        - by right. }
      destruct (storage_save_ok (FileBackend (store (storagePath this) l))
                  (incr_turnCount (set_lastUsedAt now a)) s Hok) as [E Hok'].
      { right. split; [done|]. simpl. by rewrite Hla. }
      destruct (Registry.storage_save _ _ s) as [[[]|?] s1]; done.
Qed.

(** What [resume] without a scope hands back for a name without ['/']
    is never a workflow record: the memory table holds none, the session
    and project storages find records of their own lifespan, and the
    workflow storage finds nothing at the empty scope. *)
Lemma resume_loop_unscoped (env : Env) (now nm : string)
    (storages : list (AgentLifespan * AgentStorage)) (s s' : State)
    (a : RegisteredAgent) :
  state_ok this s -> safe_resume env nm None ->
  (forall l st, (l, st) ∈ storages ->
     st = MemoryBackend \/
     (durable l /\ st = FileBackend (store (storagePath this) l))) ->
  Registry.resume_loop env now nm None storages s = (Ok a, s') ->
  lifespan a <> workflow.
Proof.
  intros Hok [Hsep Hsc]. induction storages as [|[l st] rest IH]; intros Hst.
  - done.
  - simpl. unfold_m.
    pose proof (storage_find_state st nm (Registry.getDefaultScope env l) s)
      as Hfs.
    destruct (Registry.storage_findByNameAndScope st nm _ s) as [[o|?] s0]
      eqn:Hfind; simpl in Hfs; subst s0; [|done].
    destruct o as [e|].
    2: { apply IH. intros l' st' Hin. apply Hst. by right. }
    assert (Hne : lifespan e <> workflow).
    { destruct (Hst l st) as [-> | [Hd ->]]; [left|..].
      - pose proof (storage_find_in_memory nm _ s s e Hok Hfind) as Hnd.
        intros E. apply Hnd. unfold durable. tauto.
      - destruct (decide (l = workflow)) as [-> | Hl].
        + exfalso. destruct Hok as [_ Hfs]. simpl in Hfind.
          unfold on_disk in Hfind.
          destruct (FileStorage.findByNameAndScope
                      (store (storagePath this) workflow) nm "" (disk s))
            as [r fs'] eqn:Hf.
          injection Hfind as -> _.
          by eapply find_workflow_unscoped.
        + destruct (storage_find_in_tier l nm (Registry.getDefaultScope env l)
                      s s e Hok Hd Hsep) as [Hla _]; [|exact Hfind|congruence].
          intros Hnp. left.
          destruct l; try (by destruct Hd as [|[|]]); try done. simpl.
          destruct (CLAUDE_SESSION_ID env) as [id|] eqn:Hid; simpl;
            [by apply Hsc | done]. }
    destruct (Registry.storage_save st _ s) as [[[]|?] s1]; [|done].
    intros [= <- _]. done.
Qed.

Lemma resume_ok (env : Env) (now nm : string) (sc : option string) (s : State) :
  state_ok this s -> safe_resume env nm sc ->
  state_ok this (snd (Registry.resume this env now nm sc s)).
Proof.
  intros Hok Hsafe. apply resume_loop_ok; [done..|].
  unfold Registry.resume_storages, Registry.fileStorage, store, durable.
  intros l st Hin. repeat (apply elem_of_cons in Hin as [[= -> ->] | Hin]);
    [tauto.. | by apply elem_of_nil in Hin].
Qed.

Lemma storage_load_file (l : AgentLifespan) (id : string) (s : State) :
  state_ok this s -> durable l ->
  exists found,
    on_disk (FileStorage.load (store (storagePath this) l) id) s = (Ok found, s).
Proof.
  intros [_ Hfs] Hl. unfold on_disk.
  destruct (file_load_ok (storagePath this) l id (disk s) Hfs Hl)
    as (found & -> & _).
  exists found. by destruct s.
Qed.

Lemma get_ok (id : string) (s : State) :
  state_ok this s -> exists found, Registry.get this id s = (Ok found, s).
Proof.
  intros Hok. unfold Registry.get.
  assert (Hs : {| memory := memory s; disk := disk s |} = s) by (by destruct s).
  erewrite bind_Ok.
  2: { unfold on_memory, MemoryStorage.load, gets. simpl. by rewrite Hs. }
  destruct (agents (memory s) !! id) as [a|]; [by exists (Some a)|].
  unfold Registry.fileStorages, Registry.fileStorage. simpl.
  fold (store (storagePath this) session).
  fold (store (storagePath this) workflow).
  fold (store (storagePath this) project).
  destruct (storage_load_file session id s Hok) as (r1 & E1);
    [unfold durable; tauto|].
  erewrite bind_Ok by exact E1. destruct r1 as [a|]; [by eexists|].
  destruct (storage_load_file workflow id s Hok) as (r2 & E2);
    [unfold durable; tauto|].
  erewrite bind_Ok by exact E2. destruct r2 as [a|]; [by eexists|].
  destruct (storage_load_file project id s Hok) as (r3 & E3);
    [unfold durable; tauto|].
  erewrite bind_Ok by exact E3. destruct r3 as [a|]; by eexists.
Qed.

Lemma getStorage_name (l : AgentLifespan) :
  exists st, Registry.getStorage this (Some (lifespan_name l)) = Ok st /\
             st ∈ backends this.
Proof.
  unfold Registry.getStorage. simpl. rewrite parse_lifespan_name.
  destruct l; eexists; (split; [reflexivity|]); apply elem_of_backends;
    first [ by left
          | right; eexists; split; [|reflexivity]; unfold durable; tauto ].
Qed.

Lemma storage_delete_ok (st : AgentStorage) (id : string) (s : State) :
  state_ok this s -> st ∈ backends this ->
  state_ok this (snd (Registry.storage_delete st id s)).
Proof.
  intros [Hm Hfs] [-> | (l & Hl & ->)]%elem_of_backends; simpl.
  - split; [by apply memory_delete_ok | done].
  - unfold on_disk.
    destruct (file_delete_ok (storagePath this) l id (disk s) Hfs Hl)
      as (fs' & -> & Hok'). by split.
Qed.

Lemma dispose_ok (id : string) (s : State) :
  state_ok this s -> state_ok this (snd (Registry.dispose this id s)).
Proof.
  intros Hok. unfold Registry.dispose.
  destruct (get_ok id s Hok) as (found & Hget).
  erewrite bind_Ok by exact Hget.
  destruct found as [a|]; [|done].
  destruct (getStorage_name (lifespan a)) as (st & -> & Hst).
  unfold lift_result, bind. by apply storage_delete_ok.
Qed.

Lemma storage_deleteMany_ok (st : AgentStorage) (flt : AgentFilter) (s : State) :
  state_ok this s -> st ∈ backends this ->
  state_ok this (snd (Registry.storage_deleteMany st flt s)).
Proof.
  intros [Hm Hfs] [-> | (l & Hl & ->)]%elem_of_backends; simpl.
  - unfold on_memory.
    destruct (memory_deleteMany_spec flt (memory s) Hm) as (m' & -> & Hlook).
    split; [|done]. simpl. eapply memory_ok_sub; [exact Hm|].
    intros k a Hk. by apply Hlook in Hk as [? _].
  - unfold on_disk.
    destruct (deleteMany_spec (storagePath this) l flt (disk s) Hfs Hl)
      as (fs' & -> & Hok' & _). by split.
Qed.

Lemma disposeByLifespan_ok (l : AgentLifespan) (s : State) :
  state_ok this s ->
  state_ok this (snd (Registry.disposeByLifespan this l s)).
Proof.
  intros Hok. unfold Registry.disposeByLifespan.
  destruct (getStorage_name l) as (st & -> & Hst).
  unfold lift_result, bind. by apply storage_deleteMany_ok.
Qed.

Lemma storage_list_state (st : AgentStorage) (flt : option AgentFilter)
    (s : State) :
  state_ok this s -> st ∈ backends this ->
  snd (Registry.storage_list st flt s) = s.
Proof.
  intros [Hm Hfs] [-> | (l & Hl & ->)]%elem_of_backends; simpl.
  - by destruct s.
  - unfold on_disk. rewrite list_eq.
    + by destruct s.
    + by eapply tree_ok_names_valid.
    + rewrite lifespanDir_eq. by apply Hfs.
Qed.

Lemma list_ok (flt : option AgentFilter) (s : State) :
  state_ok this s -> snd (Registry.list_ this flt s) = s.
Proof.
  intros Hok. unfold Registry.list_.
  erewrite bind_Ok.
  2: { unfold on_memory, MemoryStorage.list_, bind, gets, ret. simpl.
       reflexivity. }
  assert (Hs : {| memory := memory s; disk := disk s |} = s) by (by destruct s).
  rewrite Hs. simpl.
  assert (Hl : forall l, durable l ->
            exists found, on_disk (FileStorage.list_
                                     (Registry.fileStorage this l) flt) s
                          = (Ok found, s)).
  { intros l Hl. destruct Hok as [_ Hfs]. unfold on_disk.
    unfold Registry.fileStorage. fold (store (storagePath this) l).
    rewrite list_eq.
    - eexists. by rewrite Hs.
    - by eapply tree_ok_names_valid.
    - rewrite lifespanDir_eq. by apply Hfs. }
  destruct (Hl session) as (r1 & E1); [unfold durable; tauto|].
  destruct (Hl workflow) as (r2 & E2); [unfold durable; tauto|].
  destruct (Hl project) as (r3 & E3); [unfold durable; tauto|].
  unfold bind, ret. by rewrite E1, E2, E3.
Qed.

Lemma after_ok (c : Call) (s : State) :
  state_ok this s -> safe c -> state_ok this (after this c s).
Proof.
  intros Hok Hsafe. destruct c; simpl in *.
  - by apply create_ok.
  - unfold Registry.startWorkflow, bind, ret.
    pose proof (create_ok env uuid now later config s Hok Hsafe) as Hc.
    by destruct (Registry.create this env uuid now later config s) as [[?|?] ?].
  - by apply resume_ok.
  - by destruct (get_ok id s Hok) as (found & ->).
  - by apply dispose_ok.
  - by apply disposeByLifespan_ok.
  - unfold Registry.disposeByScope.
    destruct (decide (sc = "")) as [->|Hsc].
    + (* every record matches the empty scope filter *)
      pose proof (storage_deleteMany_ok MemoryBackend (by_scope "") s Hok) as H0'.
      simpl in H0'. unfold bind at 1.
      destruct (on_memory (MemoryStorage.deleteMany (by_scope "")) s)
        as [[n|?] s0]; [|apply H0'; apply elem_of_backends; by left].
      assert (Hs0 : state_ok this s0)
        by (apply H0'; apply elem_of_backends; by left).
      clear H0'. simpl.
      assert (Hstep : forall l s1, durable l -> state_ok this s1 ->
        state_ok this
          (snd (on_disk (FileStorage.deleteMany (Registry.fileStorage this l)
                           (by_scope "")) s1))).
      { intros l s1 Hl Hs1.
        apply (storage_deleteMany_ok
                 (FileBackend (store (storagePath this) l)) (by_scope "") s1 Hs1).
        apply elem_of_backends. right. eauto. }
      unfold bind, ret.
      pose proof (Hstep session s0) as H1.
      destruct (on_disk (FileStorage.deleteMany
                           (Registry.fileStorage this session) (by_scope "")) s0)
        as [[n1|?] s1]; simpl in *;
        [|apply H1; [unfold durable; tauto | done]].
      pose proof (Hstep workflow s1) as H2.
      destruct (on_disk (FileStorage.deleteMany
                           (Registry.fileStorage this workflow) (by_scope "")) s1)
        as [[n2|?] s2]; simpl in *;
        [|apply H2; [unfold durable; tauto | apply H1; [unfold durable; tauto | done]]].
      pose proof (Hstep project s2) as H3.
      destruct (on_disk (FileStorage.deleteMany
                           (Registry.fileStorage this project) (by_scope "")) s2)
        as [[n3|?] s3]; simpl in *;
        apply H3; try (unfold durable; tauto);
        apply H2; try (unfold durable; tauto);
        apply H1; try (unfold durable; tauto); done.
    + destruct (disposeByScope_sel this sc s Hok) as (s' & E & Hok' & _).
      unfold Registry.disposeByScope in E. rewrite E. done.
  - by rewrite list_ok.
  - unfold Registry.completeWorkflow.
    apply (storage_deleteMany_ok
             (FileBackend (store (storagePath this) workflow))
             (by_scope workflowId) s Hok).
    apply elem_of_backends. right. exists workflow.
    split; [unfold durable; tauto | done].
  - assert (E : snd (Registry.storage_list
                       (FileBackend (store (storagePath this) workflow))
                       (Some (by_scope workflowId)) s) = s).
    { apply storage_list_state; [done|].
      apply elem_of_backends. right. exists workflow.
      split; [unfold durable; tauto | done]. }
    simpl in E. unfold store in E.
    unfold Registry.getWorkflowAgents, Registry.fileStorage. by rewrite E.
Qed.

(** Every reachable state is well built. *)
Lemma reachable_state_ok (s : State) : reachable this s -> state_ok this s.
Proof.
  induction 1 as [Hb | s c _ IH Hsafe | s _ IH];
    [by apply fresh_ok | by apply after_ok | by apply restart_ok].
Qed.

Lemma resume_unscoped_segment_name (env : Env) (now nm : string)
    (s s' : State) (a : RegisteredAgent) :
  reachable this s -> safe_resume env nm None ->
  Registry.resume this env now nm None s = (Ok a, s') ->
  lifespan a <> workflow.
Proof.
  intros Hreach Hsafe. apply resume_loop_unscoped; [|done|].
  - by apply reachable_state_ok.
  - unfold Registry.resume_storages, Registry.fileStorage, store, durable.
    intros l st Hin. repeat (apply elem_of_cons in Hin as [[= -> ->] | Hin]);
      first [ by left | right; tauto | by apply elem_of_nil in Hin ].
Qed.

End Reach.

(** ** Disposal by scope and workflow completion, on reachable states *)

Section Claims.
Context `{JsonLaws}.
Variable this : AgentRegistry.

(** C2, amended: in every reachable state [disposeByScope sc] returns
    and every backend can still be listed.  For a scope [sc] other than
    the empty string it returns the number of records with that scope in
    the four backends together, and afterwards every backend lists
    exactly its former records whose scope differs from [sc].  For the
    empty string it returns the number of all records of the four
    backends, and afterwards every backend lists nothing. *)
Theorem disposeByScope_exact (s : State) (sc : string) :
  reachable this s ->
  exists n s',
    Registry.disposeByScope this sc s = (Ok n, s') /\
    (forall st, st ∈ backends this ->
       Registry.storage_list st None s = (Ok (listed st s), s) /\
       Registry.storage_list st None s' = (Ok (listed st s'), s')) /\
    (sc <> "" ->
       n = count_in_scope sc (backends this) s /\
       forall st, st ∈ backends this ->
         listed st s' ≡ₚ filter (fun a => ~ in_scope sc a) (listed st s)) /\
    (sc = "" ->
       n = sum_list (map (fun st => length (listed st s)) (backends this)) /\
       forall st, st ∈ backends this -> listed st s' = []).
Proof.
  intros Hreach.
  destruct (disposeByScope_sel this sc s (reachable_state_ok this s Hreach))
    as (s' & Hrun & _ & Hlists).
  eexists _, s'. split; [exact Hrun|]. split; [|split].
  - intros st Hst. destruct (Hlists st Hst) as (? & ? & _). done.
  - intros Hsc. split.
    + unfold count_selected, count_in_scope. f_equal.
      apply map_ext. intros st.
      by destruct (filter_selected_in_scope sc (listed st s) Hsc) as [-> _].
    + intros st Hst. destruct (Hlists st Hst) as (_ & _ & Hp).
      by destruct (filter_selected_in_scope sc (listed st s) Hsc) as [_ <-].
  - intros ->. split.
    + unfold count_selected. f_equal. apply map_ext. intros st.
      by destruct (filter_selected_empty (listed st s)) as [-> _].
    + intros st Hst. destruct (Hlists st Hst) as (_ & _ & Hp).
      destruct (filter_selected_empty (listed st s)) as [_ E].
      rewrite E in Hp. by apply Permutation_nil_r in Hp.
Qed.

(** C3, amended: in every reachable state [completeWorkflow w] returns,
    and the three backends other than the workflow storage list what
    they listed before (records with scope [w] included).  For an
    identifier [w] other than the empty string it returns the number of
    workflow records with scope [w], the workflow storage afterwards
    lists exactly its former records of other scopes, and the agents of
    any other workflow are the same as before.  For the empty string it
    returns the number of all workflow records, and the workflow storage
    afterwards lists nothing. *)
Theorem completeWorkflow_exact (s : State) (w : string) :
  reachable this s ->
  let wf := FileBackend (store (storagePath this) workflow) in
  exists n s',
    Registry.completeWorkflow this w s = (Ok n, s') /\
    (forall st, st ∈ backends this -> st <> wf ->
       listed st s' ≡ₚ listed st s) /\
    (w <> "" ->
       n = length (filter (in_scope w) (listed wf s)) /\
       listed wf s' ≡ₚ filter (fun a => ~ in_scope w a) (listed wf s) /\
       forall w', w' <> w -> w' <> "" ->
         exists before after_,
           Registry.getWorkflowAgents this w' s = (Ok before, s) /\
           Registry.getWorkflowAgents this w' s' = (Ok after_, s') /\
           after_ ≡ₚ before) /\
    (w = "" ->
       n = length (listed wf s) /\ listed wf s' = []).
Proof.
  intros Hreach wf. subst wf.
  pose proof (reachable_state_ok this s Hreach) as Hok.
  destruct (completeWorkflow_sel this w s Hok)
    as (s' & Hrun & Hok' & Hlists & Hwf & Hothers).
  eexists _, s'.
  split; [exact Hrun|]. split; [done|]. split.
  - intros Hw.
    destruct (filter_selected_in_scope w
                (listed (FileBackend (store (storagePath this) workflow)) s) Hw)
      as [E1 E2].
    rewrite E1. rewrite E2 in Hwf. split; [done|]. split; [done|].
    intros w' Hne Hw'.
    assert (Hget : forall s0, state_ok this s0 ->
      Registry.getWorkflowAgents this w' s0
      = (Ok (filter (in_scope w')
               (listed (FileBackend (store (storagePath this) workflow)) s0)),
         s0)).
    { intros s0 [Hm0 Hfs0]. unfold Registry.getWorkflowAgents, on_disk.
      unfold Registry.fileStorage. fold (store (storagePath this) workflow).
      rewrite list_eq.
      - rewrite listing_filter, filter_by_scope by done.
        destruct (listed_file this workflow s0) as [_ ->];
          [done | unfold durable; tauto |]. by destruct s0.
      - by eapply tree_ok_names_valid.
      - rewrite lifespanDir_eq. apply Hfs0. unfold durable; tauto. }
    eexists _, _. split; [by apply Hget|]. split; [by apply Hget|].
    rewrite Hwf. rewrite list_filter_filter. apply reflexive_eq.
    apply list_filter_iff. intros a. unfold in_scope. split; [tauto|].
    intros E. split; [done|]. congruence.
  - intros ->.
    destruct (filter_selected_empty
                (listed (FileBackend (store (storagePath this) workflow)) s))
      as [E1 E2].
    rewrite E1. rewrite E2 in Hwf. split; [done|].
    by apply Permutation_nil_r in Hwf.
Qed.

End Claims.

(** C2, as stated, fails: with the empty string as the scope,
    [disposeByScope] deletes and counts a record whose scope is
    ["turn"]. *)
Lemma disposeByScope_empty_counterexample :
  let s := after (H := RefCodec.json) demo_registry
             (Create demo_env "u-1" "t1" "t1" (base_config "turn" "helper"))
             demo_state in
  exists a n s',
    listed (H := RefCodec.json) MemoryBackend s = [a] /\
    scope a = "turn" /\ scope a <> "" /\
    Registry.disposeByScope (H := RefCodec.json) demo_registry "" s = (Ok n, s') /\
    n = 1 /\
    listed (H := RefCodec.json) MemoryBackend s' = [].
Proof.
  eexists _, _, _. split; [vm_compute; reflexivity|].
  split; [reflexivity|]. split; [discriminate|].
  split; [vm_compute; reflexivity|]. split; reflexivity.
Qed.

(** C3, as stated, fails: with the empty string as the workflow
    identifier, [completeWorkflow] deletes and counts a workflow record
    whose scope is ["FEAT-001"]. *)
Lemma completeWorkflow_empty_counterexample :
  let s := after (H := RefCodec.json) demo_registry
             (Create demo_env "u-1" "t1" "t1" (workflow_config "executor" "FEAT-001"))
             demo_state in
  let wf := FileBackend (store (storagePath demo_registry) workflow) in
  exists a n s',
    listed (H := RefCodec.json) wf s = [a] /\
    scope a = "FEAT-001" /\ scope a <> "" /\
    Registry.completeWorkflow (H := RefCodec.json) demo_registry "" s = (Ok n, s') /\
    n = 1 /\
    listed (H := RefCodec.json) wf s' = [].
Proof.
  eexists _, _, _. split; [vm_compute; reflexivity|].
  split; [reflexivity|]. split; [discriminate|].
  split; [vm_compute; reflexivity|]. split; reflexivity.
Qed.

(** ** [resume] without a scope and workflow records *)

(** C8 fails on the code: a workflow record stored the ordinary way
    (workflow ["FEAT-001"], name ["executor"]) is returned by [resume]
    without a scope when the name argument carries the directory, since
    [path.join] drops the empty default scope and splits the name at the
    ['/'].  The same happens for a workflow whose identifier is ["."]. *)
Theorem resume_unscoped_returns_workflow :
  let s1 := after (H := RefCodec.json) demo_registry
              (Create demo_env "u-1" "t1" "t1" (workflow_config "executor" "FEAT-001"))
              demo_state in
  let s2 := after (H := RefCodec.json) demo_registry
              (Create demo_env "u-2" "t1" "t1" (workflow_config "planner" "."))
              demo_state in
  (exists a s',
     Registry.resume (H := RefCodec.json) demo_registry demo_env "t2"
       "FEAT-001/executor" None s1 = (Ok a, s') /\
     lifespan a = workflow /\ scope a = "FEAT-001" /\ name a = "executor") /\
  (exists a s',
     Registry.resume (H := RefCodec.json) demo_registry demo_env "t2"
       "planner" None s2 = (Ok a, s') /\
     lifespan a = workflow /\ scope a = ".").
Proof.
  split; eexists _, _; (split; [vm_compute; reflexivity|]); repeat split.
Qed.

(** ** The statements at concrete inputs *)

Lemma names_valid_check (fs : FS) :
  forallb (fun pn : path * node => forallb is_segment pn.1) (map_to_list fs) = true ->
  tree_names_valid fs.
Proof.
  intros Hall p [n Hp]. rewrite forallb_forall in Hall.
  specialize (Hall (p, n)). simpl in Hall.
  apply list.Forall_forall. intros x Hx.
  assert (Hp' : forallb is_segment p = true).
  { apply Hall. by apply list_elem_of_In, elem_of_map_to_list. }
  rewrite forallb_forall in Hp'. by apply Hp', list_elem_of_In.
Qed.

Lemma resume_finds_ephemeral_witness :
  exists a0 s1 a s2,
    Registry.create (H := RefCodec.json) demo_registry demo_env "u-1" "t1" "t1"
      (base_config "ephemeral" "scratch") demo_state
    = (Ok {| agent := a0; isNew := true |}, s1) /\
    lifespan a0 = ephemeral /\ scope a0 = "ephemeral" /\
    turnCount a0 = 0 /\
    ~ In ephemeral (map fst (Registry.resume_storages demo_registry)) /\
    Registry.storage_findByNameAndScope (H := RefCodec.json) MemoryBackend
      "scratch" "ephemeral" s1 = (Ok (Some a0), s1) /\
    Registry.resume (H := RefCodec.json) demo_registry demo_env "t2" "scratch"
      (Some "ephemeral") s1 = (Ok a, s2) /\
    agentId a = agentId a0 /\ lifespan a = ephemeral /\ turnCount a = 1.
Proof.
  apply (resume_finds_ephemeral (H := RefCodec.json) demo_registry demo_env
           "u-1" "t1" "t1" "t2" "scratch" demo_state);
    [discriminate | discriminate | reflexivity].
Defined.

Lemma save_then_findByNameAndScope_witness :
  exists fs',
    FileStorage.save (H := RefCodec.json) (store ["srv"; "agents"] workflow)
      nested_agent (disk demo_state) = (Ok tt, fs') /\
    FileStorage.findByNameAndScope (H := RefCodec.json)
      (store ["srv"; "agents"] workflow) "executor" "FEAT-001" fs'
    = (Ok (Some nested_agent), fs').
Proof.
  apply (save_then_findByNameAndScope (H0 := RefCodec_laws)
           (store ["srv"; "agents"] workflow) nested_agent (disk demo_state)).
  - right. left. reflexivity.
  - intros p [= <-]. split; vm_compute; reflexivity.
  - reflexivity.
Defined.

Lemma create_twice_witness :
  exists r1 s1 r2 s2,
    Registry.create (H := RefCodec.json) demo_registry demo_env "u-1" "t1" "t1"
      (session_config "advisor" "s-1") demo_state = (Ok r1, s1) /\
    Registry.create (H := RefCodec.json) demo_registry demo_env "u-2" "t2" "t2"
      (session_config "advisor" "s-1") s1 = (Ok r2, s2) /\
    isNew r1 = true /\ isNew r2 = false /\
    agentId (agent r1) = "u-1" /\
    agentId (agent r2) = agentId (agent r1) /\
    createdAt (agent r2) = createdAt (agent r1) /\
    turnCount (agent r2) = turnCount (agent r1).
Proof.
  apply (create_twice (H0 := RefCodec_laws) demo_registry demo_env
           "u-1" "u-2" "t1" "t2" "t1" "t2" (session_config "advisor" "s-1")
           (FileBackend (Registry.fileStorage demo_registry session))
           "advisor" "s-1" demo_state).
  - reflexivity.
  - reflexivity.
  - reflexivity.
  - reflexivity.
  - vm_compute. reflexivity.
  - intros p [= <-]. split; vm_compute; reflexivity.
  - discriminate.
Defined.

Lemma list_skips_unparseable_witness :
  let base := ["srv"; "agents"] in
  exists found paths,
    FileStorage.list_ (H := RefCodec.json) (store base session) None damaged_tree
    = (Ok found, damaged_tree) /\
    NoDup paths /\
    (forall p, p ∈ paths <->
       json_document base session damaged_tree p /\
       exists content a,
         damaged_tree !! p = Some (File content) /\
         JSON_parse (Json := RefCodec.json) content = Some a) /\
    Forall2 (fun p a => exists content,
                 damaged_tree !! p = Some (File content) /\
                 JSON_parse (Json := RefCodec.json) content = Some a)
      paths found.
Proof.
  intros base.
  apply (list_skips_unparseable (H := RefCodec.json) base session damaged_tree).
  - apply names_valid_check. vm_compute. reflexivity.
  - vm_compute. reflexivity.
Defined.

(** The listing of [damaged_tree] is the one record that parses. *)
Example list_damaged_tree :
  exists a,
    FileStorage.list_ (H := RefCodec.json) (store ["srv"; "agents"] session)
      None damaged_tree = (Ok [a], damaged_tree) /\
    name a = "advisor" /\
    JSON_parse (Json := RefCodec.json) "{ not json" = None.
Proof. eexists. split; [vm_compute; reflexivity|]. split; reflexivity. Qed.

Lemma demo_state_reachable : reachable (H := RefCodec.json) demo_registry demo_state.
Proof. apply reachable_fresh. repeat constructor. Qed.

Lemma disposeByScope_exact_witness :
  let s := after (H := RefCodec.json) demo_registry
             (Create demo_env "u-2" "t2" "t2" (session_config "b" "S2"))
             (after (H := RefCodec.json) demo_registry
                (Create demo_env "u-1" "t1" "t1" (session_config "a" "S1"))
                demo_state) in
  exists n s',
    Registry.disposeByScope (H := RefCodec.json) demo_registry "S1" s = (Ok n, s') /\
    (forall st, st ∈ backends demo_registry ->
       Registry.storage_list (H := RefCodec.json) st None s
       = (Ok (listed (H := RefCodec.json) st s), s) /\
       Registry.storage_list (H := RefCodec.json) st None s'
       = (Ok (listed (H := RefCodec.json) st s'), s')) /\
    ("S1" <> "" ->
       n = count_in_scope (H := RefCodec.json) "S1" (backends demo_registry) s /\
       forall st, st ∈ backends demo_registry ->
         listed (H := RefCodec.json) st s'
           ≡ₚ filter (fun a => ~ in_scope "S1" a)
                (listed (H := RefCodec.json) st s)) /\
    ("S1" = "" ->
       n = sum_list (map (fun st => length (listed (H := RefCodec.json) st s))
                       (backends demo_registry)) /\
       forall st, st ∈ backends demo_registry ->
         listed (H := RefCodec.json) st s' = []).
Proof.
  intros s.
  apply (disposeByScope_exact (H0 := RefCodec_laws) demo_registry s "S1").
  - apply reachable_call; [apply reachable_call|].
    + apply reachable_fresh. repeat constructor.
    + intros l nm sc Hl Hd Hnm Hsc. vm_compute in Hl, Hnm, Hsc.
      injection Hnm as <-. injection Hsc as <-.
      split; [reflexivity | intros _; reflexivity].
    + intros l nm sc Hl Hd Hnm Hsc. vm_compute in Hl, Hnm, Hsc.
      injection Hnm as <-. injection Hsc as <-.
      split; [reflexivity | intros _; reflexivity].
Defined.

(** The example of the specification: [disposeByScope "S1"] returns 1
    and leaves the record of the other session listable. *)
Example disposeByScope_sessions :
  let s := after (H := RefCodec.json) demo_registry
             (Create demo_env "u-2" "t2" "t2" (session_config "b" "S2"))
             (after (H := RefCodec.json) demo_registry
                (Create demo_env "u-1" "t1" "t1" (session_config "a" "S1"))
                demo_state) in
  exists s' b,
    Registry.disposeByScope (H := RefCodec.json) demo_registry "S1" s = (Ok 1, s') /\
    fst (Registry.list_ (H := RefCodec.json) demo_registry None s') = Ok [b] /\
    name b = "b".
Proof. eexists _, _. split; [vm_compute; reflexivity|]. split; reflexivity. Qed.

Lemma completeWorkflow_exact_witness :
  let s := after (H := RefCodec.json) demo_registry
             (StartWorkflow demo_env "u-3" "t3" "t3" (workflow_config "other" "F2"))
             (after (H := RefCodec.json) demo_registry
                (StartWorkflow demo_env "u-2" "t2" "t2" (workflow_config "helper" "F1"))
                (after (H := RefCodec.json) demo_registry
                   (StartWorkflow demo_env "u-1" "t1" "t1"
                      (workflow_config "executor" "F1"))
                   demo_state)) in
  let wf := FileBackend (store (storagePath demo_registry) workflow) in
  exists n s',
    Registry.completeWorkflow (H := RefCodec.json) demo_registry "F1" s = (Ok n, s') /\
    (forall st, st ∈ backends demo_registry -> st <> wf ->
       listed (H := RefCodec.json) st s' ≡ₚ listed (H := RefCodec.json) st s) /\
    ("F1" <> "" ->
       n = length (filter (in_scope "F1") (listed (H := RefCodec.json) wf s)) /\
       listed (H := RefCodec.json) wf s'
         ≡ₚ filter (fun a => ~ in_scope "F1" a)
              (listed (H := RefCodec.json) wf s) /\
       forall w', w' <> "F1" -> w' <> "" ->
         exists before after_,
           Registry.getWorkflowAgents (H := RefCodec.json) demo_registry w' s
           = (Ok before, s) /\
           Registry.getWorkflowAgents (H := RefCodec.json) demo_registry w' s'
           = (Ok after_, s') /\
           after_ ≡ₚ before) /\
    ("F1" = "" ->
       n = length (listed (H := RefCodec.json) wf s) /\
       listed (H := RefCodec.json) wf s' = []).
Proof.
  intros s.
  apply (completeWorkflow_exact (H0 := RefCodec_laws) demo_registry s "F1").
  - apply reachable_call; [apply reachable_call; [apply reachable_call|]|].
    + apply reachable_fresh. repeat constructor.
    + intros l nm sc Hl Hd Hnm Hsc. vm_compute in Hl, Hnm, Hsc.
      injection Hnm as <-. injection Hsc as <-.
      split; [reflexivity | intros _; reflexivity].
    + intros l nm sc Hl Hd Hnm Hsc. vm_compute in Hl, Hnm, Hsc.
      injection Hnm as <-. injection Hsc as <-.
      split; [reflexivity | intros _; reflexivity].
    + intros l nm sc Hl Hd Hnm Hsc. vm_compute in Hl, Hnm, Hsc.
      injection Hnm as <-. injection Hsc as <-.
      split; [reflexivity | intros _; reflexivity].
Defined.

(** The example of the specification: two workflow records under
    ["F1"] and one under ["F2"]; [completeWorkflow "F1"] returns 2 and
    [getWorkflowAgents "F2"] still returns one record. *)
Example completeWorkflow_two_of_three :
  let s := after (H := RefCodec.json) demo_registry
             (StartWorkflow demo_env "u-3" "t3" "t3" (workflow_config "other" "F2"))
             (after (H := RefCodec.json) demo_registry
                (StartWorkflow demo_env "u-2" "t2" "t2" (workflow_config "helper" "F1"))
                (after (H := RefCodec.json) demo_registry
                   (StartWorkflow demo_env "u-1" "t1" "t1"
                      (workflow_config "executor" "F1"))
                   demo_state)) in
  exists s' b,
    Registry.completeWorkflow (H := RefCodec.json) demo_registry "F1" s = (Ok 2, s') /\
    Registry.getWorkflowAgents (H := RefCodec.json) demo_registry "F2" s'
    = (Ok [b], s') /\
    name b = "other".
Proof. eexists _, _. split; [vm_compute; reflexivity|]. split; reflexivity. Qed.

(* ===================================================================== *)
(** * Further properties *)
(* ===================================================================== *)

(** ** The memory table *)

(** X1: after [save a] the memory table answers [load (agentId a)] with
    [a], and [findByNameAndScope (name a) (scope a)] with [a] too, unless
    the id of [a] is the empty string: the lookup by name then answers
    [null], because it tests the id it found for truthiness. *)
Theorem memory_save_load_find (a : RegisteredAgent) (m : MemoryState) :
  let m' := snd (MemoryStorage.save a m) in
  MemoryStorage.save a m = (Ok tt, m') /\
  MemoryStorage.load (agentId a) m' = (Ok (Some a), m') /\
  MemoryStorage.findByNameAndScope (name a) (scope a) m'
  = (Ok (if String.eqb (agentId a) "" then None else Some a), m').
Proof.
  intros m'. subst m'. unfold MemoryStorage.save, MemoryStorage.load,
    MemoryStorage.findByNameAndScope. unfold_m. simpl.
  rewrite !lookup_insert_eq. repeat split.
Qed.

(** X2: [delete id] on the memory table never fails; afterwards [load id]
    answers [null], every other id holds what it held, and the name and
    scope of the removed record are no longer found.  An id that is not
    in the table leaves the table as it was. *)
Theorem memory_delete_removes (id : string) (m : MemoryState) :
  let m' := snd (MemoryStorage.delete_ id m) in
  MemoryStorage.delete_ id m = (Ok tt, m') /\
  MemoryStorage.load id m' = (Ok None, m') /\
  (forall k, k <> id -> agents m' !! k = agents m !! k) /\
  match agents m !! id with
  | Some a =>
      MemoryStorage.findByNameAndScope (name a) (scope a) m' = (Ok None, m')
  | None => m' = m
  end.
Proof.
  intros m'. subst m'. unfold MemoryStorage.delete_, MemoryStorage.load,
    MemoryStorage.findByNameAndScope. unfold_m. simpl.
  destruct (agents m !! id) as [a|] eqn:E; simpl.
  - rewrite !lookup_delete_eq. repeat split.
    intros k Hk. by rewrite lookup_delete_ne.
  - rewrite E. repeat split.
Qed.

Lemma length_values (m : MemoryState) :
  length (MemoryStorage.values m) = MemoryStorage.size m.
Proof.
  unfold MemoryStorage.values, MemoryStorage.size.
  by rewrite length_map, length_map_to_list.
Qed.

Lemma length_filter_split {A} (P : A -> Prop) `{forall x, Decision (P x)}
    (l : list A) :
  length (filter P l) + length (filter (fun x => ~ P x) l) = length l.
Proof.
  induction l as [|x l IH]; [done|].
  rewrite !list.filter_cons.
  destruct (decide (P x)) as [Hx|Hx].
  - rewrite decide_False by tauto. simpl. lia.
  - rewrite decide_True by done. simpl. lia.
Qed.

(** [deleteMany] on a table keyed by id: the count, and what is left. *)
Lemma memory_deleteMany_keyed (flt : AgentFilter) (m : MemoryState) :
  memory_keyed m ->
  exists m',
    MemoryStorage.deleteMany flt m
    = (Ok (length (filter (fun a => matchesFilter a flt)
                     (MemoryStorage.values m))), m') /\
    forall k a, agents m' !! k = Some a <->
                agents m !! k = Some a /\ ~ matchesFilter a flt.
Proof.
  intros Hok. unfold MemoryStorage.deleteMany.
  set (ids := map agentId (filter (fun a => matchesFilter a flt)
                             (MemoryStorage.values m))).
  destruct (memory_delete_loop ids 0 m) as (m' & Hrun & Hlook).
  exists m'. split.
  - erewrite bind_Ok by reflexivity. fold ids. rewrite Hrun. simpl.
    unfold ids. by rewrite length_map.
  - intros k a. rewrite Hlook. destruct (decide (k ∈ ids)) as [Hin|Hin].
    + split; [done|]. intros [Hk Hnot]. exfalso. apply Hnot.
      apply list_elem_of_fmap in Hin as (b & -> & Hb).
      apply list_elem_of_filter in Hb as [Hm Hb].
      apply elem_of_values in Hb as (k' & Hk').
      pose proof (Hok _ _ Hk') as E. rewrite <- E in Hk'.
      assert (a = b) as -> by congruence. done.
    + split; [|by intros [? _]]. intros Hk. split; [done|].
      intros Hm. apply Hin. apply list_elem_of_fmap. exists a.
      split; [symmetry; by apply (Hok k a)|].
      apply list_elem_of_filter. split; [done|].
      apply elem_of_values. eauto.
Qed.

(** X3: on a table that holds every record under its own id,
    [deleteMany] returns the number of records that match the filter,
    the size of the table drops by that number, and exactly the records
    that do not match are left, still under their own ids. *)
Theorem memory_deleteMany_count (flt : AgentFilter) (m : MemoryState) :
  memory_keyed m ->
  exists n m',
    MemoryStorage.deleteMany flt m = (Ok n, m') /\
    n = length (filter (fun a => matchesFilter a flt) (MemoryStorage.values m)) /\
    MemoryStorage.size m' + n = MemoryStorage.size m /\
    memory_keyed m' /\
    forall k a, agents m' !! k = Some a <->
                agents m !! k = Some a /\ matchesFilter a flt = false.
Proof.
  intros Hok.
  destruct (memory_deleteMany_keyed flt m Hok) as (m' & Hrun & Hagents).
  eexists _, m'. split; [exact Hrun|]. split; [done|]. split; [|split].
  - rewrite <- !length_values.
    rewrite (values_filtered m m' (fun a => ~ matchesFilter a flt) Hagents).
    pose proof (length_filter_split (fun a => matchesFilter a flt)
                  (MemoryStorage.values m)). lia.
  - intros k a Hk. apply Hagents in Hk as [Hk _]. by apply Hok.
  - intros k a. rewrite Hagents.
    destruct (matchesFilter a flt); simpl; intuition congruence.
Qed.

(** X4: the memory table finds a record under every name and scope
    whose joined key ["name:scope"] is that of the record: a lookup for
    another name and scope with the same joined key returns the record
    all the same. *)
Theorem memory_find_uses_joined_key (a : RegisteredAgent) (nm sc : string)
    (m : MemoryState) :
  agentId a <> "" ->
  MemoryStorage.getNameKey nm sc = MemoryStorage.getNameKey (name a) (scope a) ->
  let m' := snd (MemoryStorage.save a m) in
  MemoryStorage.findByNameAndScope nm sc m' = (Ok (Some a), m').
Proof.
  intros Hid Hkey m'. subst m'.
  unfold MemoryStorage.findByNameAndScope, MemoryStorage.save. unfold_m. simpl.
  rewrite Hkey, !lookup_insert_eq.
  apply eqb_false_iff in Hid. by rewrite Hid.
Qed.

(** ** A file storage *)

Section FileStorageFacts.
Context `{JsonLaws}.

(** [findByNameAndScope] reads and never writes: it returns the record
    of the document at the path of the name and scope, and [null] when
    there is no such path, when the path is a directory or when the
    content does not parse. *)
Lemma findByNameAndScope_eq (this : FileStorageConfig) (nm sc : string)
    (fs : FS) :
  FileStorage.findByNameAndScope this nm sc fs
  = match FileStorage.getAgentPathByNameAndScope this nm sc with
    | Ok p => (Ok (document_at fs p), fs)
    | Throw e => (Throw e, fs)
    end.
Proof.
  unfold FileStorage.findByNameAndScope, FileStorage.read_json,
    Fs.readFileSync, document_at. unfold_m.
  destruct (FileStorage.getAgentPathByNameAndScope this nm sc) as [p|e]; [|done].
  rewrite existsSync_eq. case_bool_decide as Hex; simpl.
  - destruct (fs !! p) as [[c|]|]; try done.
    by destruct (JSON_parse c).
  - destruct (fs !! p) as [n|] eqn:Hp; [|done].
    exfalso. apply Hex. eauto.
Qed.

(** X6: where the document can be written, [save] writes the record
    at its path and changes no other path: what was in the tree stays,
    and what is new besides the document are directories on the way to
    it. *)
Theorem save_touches_one_document (this : FileStorageConfig)
    (a : RegisteredAgent) (fs : FS) (p : path) :
  FileStorage.getAgentPath this a = Ok p ->
  can_write fs p ->
  exists fs',
    FileStorage.save this a fs = (Ok tt, fs') /\
    fs' !! p = Some (File (JSON_stringify a)) /\
    (forall q n, q <> p -> fs !! q = Some n -> fs' !! q = Some n) /\
    (forall q n, q <> p -> fs' !! q = Some n ->
       fs !! q = Some n \/ (n = Dir /\ q `prefix_of` dirname p)).
Proof.
  intros Hp Hw. exists (written fs p (JSON_stringify a)).
  split; [by apply save_written|]. split; [|split].
  - unfold written. by rewrite lookup_insert_eq.
  - intros q n Hq Hn. unfold written. rewrite lookup_insert_ne by done.
    case_bool_decide; [done|]. rewrite lookup_mkdirs.
    destruct (decide (q ∈ Fs.prefixes (dirname p))) as [Hin|]; [|done].
    destruct Hw as [Hfiles _].
    destruct n as [c|]; [|done]. exfalso.
    assert (existsb (Fs.is_file fs) (Fs.prefixes (dirname p)) = true);
      [|congruence].
    apply existsb_exists. exists q. split; [by apply list_elem_of_In|].
    unfold Fs.is_file. by rewrite Hn.
  - intros q n Hq Hn. apply written_lookup in Hn as [[? _] | [_ ?]]; done.
Qed.

(** X7: for names without ['/'] and scopes that are single segments,
    two lookups that reach the same path belong to the same lifespan and
    the same name and, outside the project storage, to the same scope:
    records of different names or scopes never share a document. *)
Theorem agent_paths_distinct (base : path) (l l' : AgentLifespan)
    (nm nm' sc sc' : string) (p : path) :
  has_sep nm = false -> has_sep nm' = false ->
  (l <> project -> is_segment sc = true) ->
  (l' <> project -> is_segment sc' = true) ->
  FileStorage.getAgentPathByNameAndScope (store base l) nm sc = Ok p ->
  FileStorage.getAgentPathByNameAndScope (store base l') nm' sc' = Ok p ->
  l = l' /\ nm = nm' /\ (l <> project -> sc = sc').
Proof.
  intros Hnm Hnm' Hsc Hsc' Hp Hp'.
  destruct (tier_path base l nm sc p Hnm) as [(-> & E) | [(Hl & Hd & _ & E) | (Hl & _ & -> & _)]];
    [intros Hl; left; by apply Hsc | done | | |
     by specialize (Hsc Hl)].
  - destruct (tier_path base l' nm' sc' p Hnm')
      as [(-> & E') | [(Hl' & Hd' & _ & E') | (Hl' & _ & -> & _)]];
      [intros Hl'; left; by apply Hsc' | done | | | by specialize (Hsc' Hl')].
    + rewrite E in E'. apply app_inv_head in E'. injection E' as E'.
      apply append_json_inj in E'. done.
    + rewrite E in E'. apply app_inv_head in E'. discriminate.
  - destruct (tier_path base l' nm' sc' p Hnm')
      as [(-> & E') | [(Hl' & Hd' & _ & E') | (Hl' & _ & -> & _)]];
      [intros Hl'; left; by apply Hsc' | done | | | by specialize (Hsc' Hl')].
    + rewrite E in E'. apply app_inv_head in E'. discriminate.
    + rewrite E in E'. apply app_inv_head in E'. injection E' as E1 E2 E3.
      apply lifespan_name_inj in E1. apply append_json_inj in E3. done.
Qed.

End FileStorageFacts.

Section FileStorageById.
Context `{JsonLaws}.
Variable base : path.

Lemma list_missing_dir (this : FileStorageConfig) (flt : option AgentFilter)
    (fs : FS) :
  fs !! FileStorage.lifespanDir this = None ->
  FileStorage.list_ this flt fs = (Ok [], fs).
Proof.
  intros Hd. unfold FileStorage.list_. unfold_m. rewrite existsSync_eq.
  rewrite bool_decide_eq_false_2; [done|]. rewrite Hd. by intros [? ?].
Qed.

(** X10: in a tree of valid names whose lifespan directory is not a
    regular file, [list] returns and never changes the tree,
    [list(filter)] is [list()] filtered by [matchesFilter], and a storage
    whose lifespan directory is missing lists nothing. *)
Theorem list_filter_commutes (this : FileStorageConfig) (flt : AgentFilter)
    (fs : FS) :
  tree_names_valid fs ->
  Fs.is_file fs (FileStorage.lifespanDir this) = false ->
  exists found,
    FileStorage.list_ this None fs = (Ok found, fs) /\
    FileStorage.list_ this (Some flt) fs
    = (Ok (filter (fun a => matchesFilter a flt) found), fs) /\
    (fs !! FileStorage.lifespanDir this = None -> found = []).
Proof.
  intros Hnames Hfile. unfold Fs.is_file in Hfile.
  destruct (fs !! FileStorage.lifespanDir this) as [[c|]|] eqn:Hd; [done| |].
  - exists (listing this None fs).
    rewrite !list_eq by done. rewrite listing_filter. done.
  - exists []. rewrite !list_missing_dir by done. done.
Qed.

Lemma document_at_delete (fs : FS) (p q : path) :
  document_at (delete p fs) q = if decide (q = p) then None else document_at fs q.
Proof.
  unfold document_at. destruct (decide (q = p)) as [->|Hne].
  - by rewrite lookup_delete_eq.
  - by rewrite lookup_delete_ne.
Qed.

Lemma file_load_spec (l : AgentLifespan) (id : string) (fs : FS) :
  tree_ok base fs -> durable l ->
  exists found,
    FileStorage.load (store base l) id fs = (Ok found, fs) /\
    found = find (fun a => String.eqb (agentId a) id)
              (listing (store base l) None fs).
Proof.
  intros Hok Hl. unfold FileStorage.load.
  erewrite bind_Ok.
  2: { apply list_eq; [by eapply tree_ok_names_valid|].
       rewrite lifespanDir_eq. by apply Hok. }
  eexists. split; reflexivity.
Qed.

Lemma file_delete_effect (l : AgentLifespan) (id : string) (fs : FS) :
  tree_ok base fs -> durable l ->
  FileStorage.delete_ (store base l) id fs
  = (Ok tt,
     match find (fun a => String.eqb (agentId a) id)
             (listing (store base l) None fs) with
     | Some b => delete (agent_path base b) fs
     | None => fs
     end).
Proof.
  intros Hok Hl. unfold FileStorage.delete_.
  destruct (file_load_spec l id fs Hok Hl) as (found & Hload & ->).
  erewrite bind_Ok by exact Hload.
  destruct (find _ _) as [b|] eqn:Hfind; [|done].
  apply find_some in Hfind as [Hb _]. apply list_elem_of_In in Hb.
  apply elem_of_listing_ok in Hb as (Hdoc & Hlb & _); [|done].
  destruct (well_placed base fs _ b Hok Hdoc) as (Hpl & _ & _).
  pose proof Hdoc as (c & Hc & _)%document_at_Some.
  rewrite <- Hlb. rewrite getAgentPath_placed by done.
  unfold_m. rewrite existsSync_eq.
  rewrite bool_decide_eq_true_2 by (by rewrite Hc).
  unfold Fs.unlinkSync. by rewrite Hc.
Qed.

Lemma listing_delete (l l' : AgentLifespan) (b : RegisteredAgent) (fs : FS) :
  tree_ok base fs ->
  b ∈ listing (store base l) None fs ->
  tree_ok base (delete (agent_path base b) fs) /\
  (if decide (l' = l)
   then listing (store base l') None fs
   else listing (store base l') None (delete (agent_path base b) fs))
    ≡ₚ (if decide (l' = l)
        then b :: listing (store base l') None (delete (agent_path base b) fs)
        else listing (store base l') None fs).
Proof.
  intros Hok Hb.
  apply elem_of_listing_ok in Hb as (Hdoc & Hlb & _); [|done].
  pose proof Hdoc as (c & Hc & _)%document_at_Some.
  assert (Hok' : tree_ok base (delete (agent_path base b) fs))
    by (by eapply tree_ok_delete).
  split; [done|].
  assert (Hin : forall a l0,
            a ∈ listing (store base l0) None (delete (agent_path base b) fs)
            <-> a ∈ listing (store base l0) None fs /\ a <> b).
  { intros a l0. rewrite !elem_of_listing_ok by done. rewrite document_at_delete.
    destruct (decide (agent_path base a = agent_path base b)) as [E|Hne].
    - split; [intros [? _]; done|].
      intros ((Hda & _) & Hab). exfalso. apply Hab.
      by eapply same_path_same_agent.
    - split; [intros (? & ? & ?)|intros ((? & ? & ?) & ?)]; repeat split; try done.
      intros ->. done. }
  destruct (decide (l' = l)) as [->|Hne].
  - apply NoDup_Permutation.
    + by apply NoDup_listing.
    + apply list.NoDup_cons. split; [|by apply NoDup_listing].
      rewrite Hin. tauto.
    + intros a. rewrite elem_of_cons, Hin.
      rewrite !elem_of_listing_ok by done.
      split.
      * intros (Hda & Hla & Hp). 
        destruct (decide (agent_path base a = agent_path base b)) as [E|Hne].
        -- left. by eapply same_path_same_agent.
        -- right. repeat split; try done. intros ->. done.
      * intros [-> | [? _]]; done.
  - apply NoDup_Permutation; [by apply NoDup_listing..|].
    intros a. rewrite Hin. split; [tauto|]. intros Ha. split; [done|].
    intros ->. apply elem_of_listing_ok in Ha as (_ & E & _); [|done].
    congruence.
Qed.

(** X9: in a well-built tree, [delete id] removes the document of the
    record [load id] returns and nothing else: the storage lists its
    former records without that one, and every other storage lists what
    it listed.  When no record has the id, the tree is left as it was. *)
Theorem delete_removes_loaded (l : AgentLifespan) (id : string) (fs : FS) :
  tree_ok base fs -> durable l ->
  exists found fs',
    FileStorage.load (store base l) id fs = (Ok found, fs) /\
    FileStorage.delete_ (store base l) id fs = (Ok tt, fs') /\
    match found with
    | Some b =>
        agentId b = id /\
        listing (store base l) None fs ≡ₚ b :: listing (store base l) None fs' /\
        forall l', l' <> l ->
          listing (store base l') None fs' ≡ₚ listing (store base l') None fs
    | None =>
        fs' = fs /\
        forall a, a ∈ listing (store base l) None fs -> agentId a <> id
    end.
Proof.
  intros Hok Hl.
  destruct (file_load_spec l id fs Hok Hl) as (found & Hload & Hfound).
  eexists found, _. split; [done|].
  split; [by apply file_delete_effect|].
  rewrite <- Hfound. destruct found as [b|].
  - symmetry in Hfound. apply find_some in Hfound as [Hb Hid].
    apply String.eqb_eq in Hid. apply list_elem_of_In in Hb.
    split; [done|]. split.
    + destruct (listing_delete l l b fs Hok Hb) as [_ Hp].
      rewrite !decide_True in Hp by done. exact Hp.
    + intros l' Hne. destruct (listing_delete l l' b fs Hok Hb) as [_ Hp].
      rewrite !decide_False in Hp by done. exact Hp.
  - split; [done|]. intros a Ha Hid. symmetry in Hfound.
    eapply find_none in Hfound; [|by apply list_elem_of_In].
    simpl in Hfound. apply String.eqb_neq in Hfound. done.
Qed.

(** X8: in a well-built tree, after [save a], for a record of the
    storage that is placeable and that JSON can represent, the storage
    loads [a] back by its id, provided no stored record carries that id
    under another name or scope. *)
Theorem save_then_load (l : AgentLifespan) (a : RegisteredAgent) (fs : FS) :
  tree_ok base fs -> placeable a -> lifespan a = l ->
  agent_representable a = true ->
  (forall b, b ∈ listing (store base l) None fs -> agentId b = agentId a ->
     name b = name a /\ scope b = scope a) ->
  exists fs',
    FileStorage.save (store base l) a fs = (Ok tt, fs') /\
    FileStorage.load (store base l) (agentId a) fs' = (Ok (Some a), fs').
Proof.
  intros Hok Hpl Hl Hrep Hfresh.
  destruct (file_save_ok base l fs a Hok Hpl Hl) as [Hsave Hok'].
  set (fs' := written fs (agent_path base a) (JSON_stringify a)) in *.
  exists fs'. split; [done|].
  assert (Hd : durable l) by (rewrite <- Hl; apply Hpl).
  destruct (file_load_spec l (agentId a) fs' Hok' Hd) as (found & Hload & ->).
  rewrite Hload. f_equal. f_equal.
  assert (Hdoc : document_at fs' (agent_path base a) = Some a).
  { unfold document_at, fs', written. rewrite lookup_insert_eq.
    rewrite JSON_parse_stringify. by rewrite agent_clean_representable. }
  assert (Ha : a ∈ listing (store base l) None fs').
  { apply elem_of_listing_ok; done. }
  destruct (find _ _) as [b|] eqn:Hfind.
  - apply find_some in Hfind as [Hb Hid]. apply String.eqb_eq in Hid.
    apply list_elem_of_In in Hb.
    apply elem_of_listing_ok in Hb as (Hdb & Hlb & _); [|done].
    f_equal.
    destruct (decide (agent_path base b = agent_path base a)) as [E|Hne].
    { rewrite E in Hdb. congruence. }
    exfalso. apply Hne.
    assert (Hold : b ∈ listing (store base l) None fs).
    { apply elem_of_listing_ok; [done|]. split; [|done].
      apply document_at_Some in Hdb as (c & Hc & Hparse).
      apply written_lookup in Hc as [[? _] | [_ [Hc | [? _]]]]; try done.
      apply document_at_Some. eauto. }
    destruct (Hfresh b Hold Hid) as [En Es].
    unfold agent_path. rewrite Hlb, Hl, En, Es. done.
  - eapply find_none in Hfind; [|by apply list_elem_of_In].
    simpl in Hfind. by rewrite String.eqb_refl in Hfind.
Qed.

(** X5: in a well-built tree, [findByNameAndScope] and [list] agree:
    for a name without ['/'] and a scope of one segment the lookup
    returns, without changing the tree, a record exactly when [list]
    holds that record under this name and, outside the project storage,
    this scope; it returns [null] when [list] holds none. *)
Theorem findByNameAndScope_agrees_with_list (l : AgentLifespan)
    (nm sc : string) (fs : FS) :
  tree_ok base fs -> durable l -> has_sep nm = false ->
  (l <> project -> is_segment sc = true) ->
  exists found,
    FileStorage.findByNameAndScope (store base l) nm sc fs = (Ok found, fs) /\
    forall a, found = Some a <->
      a ∈ listing (store base l) None fs /\ name a = nm /\
      (l <> project -> scope a = sc).
Proof.
  intros Hok Hl Hnm Hsc. rewrite findByNameAndScope_eq.
  assert (Hsc' : l <> project -> is_segment sc = true \/ sc = "") by tauto.
  destruct (FileStorage.getAgentPathByNameAndScope (store base l) nm sc)
    as [p|e] eqn:Hp.
  2:{ exfalso. revert Hp. unfold FileStorage.getAgentPathByNameAndScope.
      simpl. by destruct l, Hl as [|[|]]. }
  eexists. split; [reflexivity|]. intros a.
  rewrite (elem_of_listing_ok base l None fs a Hok). simpl. split.
  - intros Hdoc.
    destruct (well_placed base fs p a Hok Hdoc) as (Hpl & Epath & _).
    assert (Hfacts : lifespan a = l /\ name a = nm /\
                     (l <> project -> scope a = sc)).
    { destruct Hpl as (Hd & _).
      destruct (tier_path base l nm sc p Hnm Hsc' Hp)
        as [(-> & Ep) | [(Hnp & _ & _ & Ep) | (Hnp & _ & Hempty & _)]].
      - rewrite Ep in Epath. revert Epath. unfold agent_path.
        destruct (lifespan a); try (by destruct Hd as [|[|]]);
          intros E%app_inv_head; simplify_eq.
        split; [done|]. split; [by apply append_json_inj|done].
      - rewrite Ep in Epath. revert Epath. unfold agent_path.
        destruct (lifespan a) eqn:Ea; try (by destruct Hd as [|[|]]);
          intros E%app_inv_head; simplify_eq;
          match goal with
          | E1 : lifespan_name _ = _ |- _ =>
              destruct l; try discriminate E1
          end;
          (split; [done|]); (split; [by apply append_json_inj|done]).
      - exfalso. specialize (Hsc Hnp). by rewrite Hempty in Hsc. }
    destruct Hfacts as (El & En & Es).
    split_and!; try done. by rewrite <- Epath.
  - intros ((Hdoc & El & _) & En & Es).
    destruct (well_placed base fs _ a Hok Hdoc) as (Hpl & _ & _).
    pose proof (getAgentPath_placed base a Hpl) as Hg.
    unfold FileStorage.getAgentPath in Hg. rewrite El, En in Hg.
    assert (Ep : p = agent_path base a).
    { destruct (decide (l = project)) as [->|Hnp].
      - revert Hp Hg. unfold FileStorage.getAgentPathByNameAndScope. simpl.
        congruence.
      - rewrite (Es Hnp) in Hg. congruence. }
    by rewrite Ep.
Qed.

End FileStorageById.

Section CleanDirs.
Context `{Json}.

Lemma entries_nil (fs : FS) (p : path) :
  Fs.entries fs p = [] <-> forall x, fs !! (p ++ [x]) = None.
Proof.
  split.
  - intros E x. destruct (fs !! (p ++ [x])) as [n|] eqn:Hx; [|done].
    apply elem_of_entries in Hx. rewrite E in Hx. by apply elem_of_nil in Hx.
  - intros Hall. destruct (Fs.entries fs p) as [|[x n] es] eqn:E; [done|].
    assert ((x, n) ∈ Fs.entries fs p) as Hin by (rewrite E; left).
    apply elem_of_entries in Hin. by rewrite Hall in Hin.
Qed.

Lemma clean_loop_exact (ld : path) (dirs : list string) (fs : FS) :
  NoDup dirs ->
  (forall sc, sc ∈ dirs ->
     fs !! (ld ++ [sc]) = Some Dir /\ is_segment sc = true) ->
  exists fs',
    for_each dirs
      (fun sc =>
         let scopePath := join ld [sc] in
         files <- Fs.readdirSync scopePath ;;
         if Nat.eqb (length files) 0 then Fs.rmSync_recursive scopePath
         else ret tt) fs
    = (Ok tt, fs') /\
    forall q n, fs' !! q = Some n <->
      fs !! q = Some n /\
      forall sc, sc ∈ dirs -> ld ++ [sc] `prefix_of` q ->
        ~ empty_dir fs (ld ++ [sc]).
Proof.
  revert fs. induction dirs as [|sc dirs IH]; intros fs Hnd Hdirs; simpl.
  - exists fs. split; [done|]. intros q n. split; [|by intros [? _]].
    intros Hq. split; [done|]. intros sc Hsc. by apply elem_of_nil in Hsc.
  - apply list.NoDup_cons in Hnd as [Hsc Hnd].
    destruct (Hdirs sc) as [Hdir Hseg]; [left|].
    unfold_m. rewrite join_segments by (by repeat constructor).
    rewrite readdirSync_dir by done.
    destruct (Fs.entries fs (ld ++ [sc])) as [|[x nx] es] eqn:Hes; simpl.
    + (* an empty scope directory is removed *)
      assert (Hempty : empty_dir fs (ld ++ [sc])).
      { split; [done|]. by apply entries_nil. }
      unfold Fs.rmSync_recursive. rewrite Hdir.
      set (fs1 := filter (fun qn : path * node =>
                    negb (bool_decide (ld ++ [sc] `prefix_of` qn.1))) fs : FS).
      assert (Hother : forall sc', sc' <> sc ->
                (empty_dir fs1 (ld ++ [sc']) <-> empty_dir fs (ld ++ [sc']))).
      { intros sc' Hne.
        assert (Hnp : forall r, ~ ld ++ [sc] `prefix_of` (ld ++ [sc']) ++ r).
        { intros r Hpre. rewrite <- app_assoc in Hpre.
          apply prefix_snoc_eq in Hpre. by subst. }
        assert (Hsame : forall r n, fs1 !! ((ld ++ [sc']) ++ r) = Some n <->
                          fs !! ((ld ++ [sc']) ++ r) = Some n).
        { intros r n. unfold fs1. rewrite lookup_rm. split; [tauto|].
          intros ?. split; [done|]. apply Hnp. }
        unfold empty_dir. split; intros [Hd Hall]; split.
        - specialize (Hsame [] Dir). rewrite app_nil_r in Hsame. by apply Hsame.
        - intros y. destruct (fs !! ((ld ++ [sc']) ++ [y])) as [n|] eqn:Hy; [|done].
          apply Hsame in Hy. by rewrite Hall in Hy.
        - specialize (Hsame [] Dir). rewrite app_nil_r in Hsame. by apply Hsame.
        - intros y. destruct (fs1 !! ((ld ++ [sc']) ++ [y])) as [n|] eqn:Hy; [|done].
          apply Hsame in Hy. by rewrite Hall in Hy. }
      destruct (IH fs1) as (fs' & Hrun & Hlook); [done| |].
      { intros sc' Hin. destruct (Hdirs sc') as [Hd' Hs']; [by right|].
        split; [|done]. apply lookup_rm. split; [done|].
        intros Hpre. apply prefix_snoc_eq in Hpre. by subst. }
      unfold bind in Hrun. exists fs'. split; [done|].
      intros q n. rewrite Hlook. unfold fs1 at 1. rewrite lookup_rm. split.
      * intros [[Hq Hnp] Hrest]. split; [done|].
        intros sc' [->|Hin]%elem_of_cons Hpre; [done|].
        rewrite <- Hother; [by apply Hrest|]. intros ->. done.
      * intros [Hq Hrest]. split; [split; [done|]|].
        -- intros Hpre. apply (Hrest sc); [left|done|done].
        -- intros sc' Hin Hpre. rewrite Hother; [|intros ->; done].
           apply Hrest; [by right | done].
    + assert (Hne : ~ empty_dir fs (ld ++ [sc])).
      { intros [_ Hall]. apply entries_nil in Hall. by rewrite Hes in Hall. }
      destruct (IH fs) as (fs' & Hrun & Hlook); [done| |].
      { intros sc' Hin. apply Hdirs. by right. }
      unfold bind in Hrun. exists fs'. split; [done|].
      intros q n. rewrite Hlook. split; intros [Hq Hrest]; (split; [done|]).
      * intros sc' [->|Hin]%elem_of_cons Hpre; [done|]. by apply Hrest.
      * intros sc' Hin Hpre. apply Hrest; [by right | done].
Qed.

(** With the lifespan directory in place, [cleanEmptyDirs] removes the
    scope directories without entries and what lies below them. *)
Lemma cleanEmptyDirs_lookup (base : path) (l : AgentLifespan) (fs : FS) :
  tree_names_valid fs ->
  fs !! (base ++ [lifespan_name l]) = Some Dir ->
  exists fs',
    FileStorage.cleanEmptyDirs (store base l) fs = (Ok tt, fs') /\
    forall q n, fs' !! q = Some n <->
      fs !! q = Some n /\
      (l = project \/
       forall sc, base ++ [lifespan_name l; sc] `prefix_of` q ->
         ~ empty_dir fs (base ++ [lifespan_name l; sc])).
Proof.
  intros Hv Hdir. unfold FileStorage.cleanEmptyDirs.
  rewrite lifespanDir_eq. simpl. unfold_m.
  rewrite existsSync_eq, bool_decide_eq_true_2 by (by rewrite Hdir). simpl.
  case_bool_decide as Hl; simpl.
  - exists fs. split; [done|]. intros q n. split; [|by intros [? _]].
    intros ?. split; [done|]. by left.
  - rewrite readdirSync_withFileTypes_dir by done.
    set (dirs := map fst (filter (fun d => Fs.isDirectory d)
                            (Fs.entries fs (base ++ [lifespan_name l])))).
    destruct (clean_loop_exact (base ++ [lifespan_name l]) dirs fs)
      as (fs' & Hrun & Hlook).
    { apply NoDup_fst_filter, NoDup_entries. }
    { intros sc. by apply scope_dirs. }
    assert (Happ : forall sc, base ++ [lifespan_name l; sc]
                              = (base ++ [lifespan_name l]) ++ [sc]).
    { intros sc. by rewrite <- app_assoc. }
    exists fs'. split; [done|]. intros q n. rewrite Hlook.
    split; intros [Hq Hrest]; (split; [done|]).
    + right. intros sc Hpre Hempty. rewrite Happ in Hpre, Hempty.
      apply (Hrest sc); [|done..].
      unfold dirs. apply list_elem_of_fmap. exists (sc, Dir). split; [done|].
      apply list_elem_of_filter. split; [done|].
      apply elem_of_entries. by destruct Hempty.
    + destruct Hrest as [?|Hrest]; [done|].
      intros sc _ Hpre. rewrite <- Happ in *. by apply Hrest.
Qed.

(** X11: in a tree of valid names whose lifespan directory is not a
    regular file, [cleanEmptyDirs] does nothing where the lifespan
    directory is missing; where it is there, it removes the scope
    directories that have no entry, with everything below them, and
    nothing else; on the project storage it removes nothing. *)
Theorem cleanEmptyDirs_exact (base : path) (l : AgentLifespan) (fs : FS) :
  tree_names_valid fs ->
  Fs.is_file fs (base ++ [lifespan_name l]) = false ->
  exists fs',
    FileStorage.cleanEmptyDirs (store base l) fs = (Ok tt, fs') /\
    match fs !! (base ++ [lifespan_name l]) with
    | None => fs' = fs
    | Some _ =>
        forall q n, fs' !! q = Some n <->
          fs !! q = Some n /\
          (l = project \/
           forall sc, base ++ [lifespan_name l; sc] `prefix_of` q ->
             ~ empty_dir fs (base ++ [lifespan_name l; sc]))
    end.
Proof.
  intros Hv Hfile.
  destruct (fs !! (base ++ [lifespan_name l])) as [[c|]|] eqn:Hdir.
  - exfalso. unfold Fs.is_file in Hfile. by rewrite Hdir in Hfile.
  - by apply cleanEmptyDirs_lookup.
  - exists fs. split; [|done]. unfold FileStorage.cleanEmptyDirs.
    rewrite lifespanDir_eq. simpl. unfold_m.
    rewrite existsSync_eq, bool_decide_eq_false_2; [done|].
    rewrite Hdir. by intros [? ?].
Qed.

End CleanDirs.

Section ScopeDirs.
Context `{Json}.
Variable base : path.

(** X12: after [deleteMany] on a well-built tree the three lifespan
    directories are still there, and every scope directory left in the
    storage holds at least one document. *)
Theorem deleteMany_leaves_no_empty_scope (l : AgentLifespan) (flt : AgentFilter)
    (fs : FS) :
  tree_ok base fs -> durable l ->
  exists n fs',
    FileStorage.deleteMany (store base l) flt fs = (Ok n, fs') /\
    (forall l', durable l' -> fs' !! (base ++ [lifespan_name l']) = Some Dir) /\
    forall sc, fs' !! (base ++ [lifespan_name l; sc]) = Some Dir ->
      exists x content,
        fs' !! (base ++ [lifespan_name l; sc; x]) = Some (File content).
Proof.
  intros Hok Hl.
  destruct (deleteMany_spec base l flt fs Hok Hl) as (fs' & Hrun & Hok' & _).
  eexists _, fs'. split; [exact Hrun|].
  destruct Hok' as (Hb & Htiers & Hdirs & Hfiles). split; [done|].
  intros sc Hsc.
  (* the run again, with the exact effect of the clean-up *)
  pose proof (tree_ok_names_valid base fs Hok) as Hv.
  set (found := listing (store base l) (Some flt) fs).
  set (fs1 := unlink_all base fs found).
  assert (Hsub1 : forall q n, fs1 !! q = Some n -> fs !! q = Some n).
  { intros q n. unfold fs1. rewrite lookup_unlink_all.
    by destruct (decide (q ∈ map (agent_path base) found)). }
  assert (Hdir1 : fs1 !! (base ++ [lifespan_name l]) = Some Dir).
  { unfold fs1. rewrite lookup_unlink_all.
    destruct (decide (base ++ [lifespan_name l] ∈ map (agent_path base) found))
      as [Hin|]; [|by apply Hok].
    exfalso. apply list_elem_of_fmap in Hin as (a & E & Ha).
    apply elem_of_listing_ok in Ha as (Hdoc & _); [|done].
    apply document_at_Some in Hdoc as (c & Hc & _).
    destruct Hok as (_ & Ht & _). rewrite <- E, Ht in Hc; done. }
  destruct (cleanEmptyDirs_lookup base l fs1) as (fs2 & Hclean & Hlook);
    [|done|].
  { intros p [n Hp]. apply Hv. exists n. by apply Hsub1. }
  assert (fs2 = fs') as ->.
  { unfold FileStorage.deleteMany in Hrun.
    erewrite bind_Ok in Hrun;
      [|apply list_eq; [done|by rewrite lifespanDir_eq; apply Hok]].
    fold found in Hrun.
    erewrite bind_Ok in Hrun; [|apply (delete_loop base l found 0 fs)].
    - fold fs1 in Hrun. erewrite bind_Ok in Hrun by exact Hclean.
      unfold ret in Hrun. congruence.
    - apply (NoDup_fmap_2_strong (agent_path base)).
      + intros a b Ha Hb' E.
        apply elem_of_listing_ok in Ha as (Ha & _); [|done].
        apply elem_of_listing_ok in Hb' as (Hb' & _); [|done].
        by eapply same_path_same_agent.
      + by apply NoDup_listing.
    - intros a Ha. apply elem_of_listing_ok in Ha as (Hdoc & Hla & _); [|done].
      destruct (well_placed base fs _ a Hok Hdoc) as (Hpl & _ & _).
      split.
      + rewrite <- Hla. by apply getAgentPath_placed.
      + apply document_at_Some in Hdoc as (c & Hc & _). eauto. }
  assert (Hnp : l <> project).
  { intros ->. apply Hdirs in Hsc as [Hpre | [(l' & _ & E) | (l' & sc' & _ & Hl' & _ & E)]].
    - apply prefix_length in Hpre. rewrite length_app in Hpre. simpl in Hpre. lia.
    - apply app_inv_head in E. done.
    - apply app_inv_head in E. injection E as E _.
      apply (lifespan_name_inj project l') in E. done. }
  pose proof Hsc as Hsc1. apply Hlook in Hsc1 as [Hsc1 [?|Hne]]; [done|].
  specialize (Hne sc ltac:(done)).
  destruct (Fs.entries fs1 (base ++ [lifespan_name l; sc])) as [|[x n] es] eqn:Hes.
  { exfalso. apply Hne. split; [done|]. by apply entries_nil. }
  assert (Hx : fs1 !! (base ++ [lifespan_name l; sc] ++ [x]) = Some n).
  { rewrite app_assoc. apply elem_of_entries. rewrite Hes. left. }
  assert (Hx' : fs' !! (base ++ [lifespan_name l; sc; x]) = Some n).
  { apply Hlook. split; [done|]. right. intros sc' Hpre.
    apply prefix_app_inv in Hpre. apply prefix_cons_inv_2 in Hpre.
    apply prefix_cons_inv_1 in Hpre. by subst. }
  destruct n as [c|]; [by eauto|].
  exfalso. apply Hdirs in Hx' as [Hpre | [(l' & _ & E) | (l' & sc' & _ & _ & _ & E)]].
  - apply prefix_length in Hpre. rewrite length_app in Hpre. simpl in Hpre. lia.
  - apply app_inv_head in E. done.
  - apply app_inv_head in E. done.
Qed.

End ScopeDirs.

(** ** The registry *)

Section ListAndLifespan.
Context `{JsonLaws}.
Variable this : AgentRegistry.

Lemma matchesFilter_by_lifespan (a : RegisteredAgent) (l : AgentLifespan) :
  matchesFilter a (by_lifespan l) = bool_decide (lifespan a = l).
Proof.
  unfold matchesFilter, by_lifespan. simpl.
  by destruct (bool_decide (lifespan a = l)).
Qed.

Lemma filter_by_lifespan (l : AgentLifespan) (found : list RegisteredAgent) :
  filter (fun a => matchesFilter a (by_lifespan l)) found
  = filter (has_lifespan l) found.
Proof.
  apply list_filter_iff. intros a. rewrite matchesFilter_by_lifespan.
  unfold has_lifespan. by rewrite bool_decide_spec.
Qed.

Lemma all_listed_eq (s : State) :
  all_listed this s
  = listed MemoryBackend s ++
    listed (FileBackend (store (storagePath this) session)) s ++
    listed (FileBackend (store (storagePath this) workflow)) s ++
    listed (FileBackend (store (storagePath this) project)) s.
Proof.
  unfold all_listed, backends. simpl. by rewrite app_nil_r.
Qed.

Lemma listing_passes (f : FileStorageConfig) (flt : option AgentFilter) (fs : FS) :
  listing f flt fs = filter (fun a => passes flt a) (listing f None fs).
Proof.
  destruct flt as [flt|]; [apply listing_filter|].
  symmetry. by apply filter_True.
Qed.

(** X13: in every reachable state [list] leaves the state as it is and
    returns the records of the memory table, then those of the session,
    workflow and project storages, each filtered by the filter. *)
Theorem list_all_backends (flt : option AgentFilter) (s : State) :
  reachable this s ->
  Registry.list_ this flt s
  = (Ok (filter (fun a => passes flt a) (all_listed this s)), s).
Proof.
  intros Hok%reachable_state_ok. unfold Registry.list_.
  erewrite bind_Ok.
  2: { unfold on_memory, MemoryStorage.list_, bind, gets, ret. simpl.
       reflexivity. }
  assert (Hs : {| memory := memory s; disk := disk s |} = s) by (by destruct s).
  rewrite Hs. simpl.
  assert (Hl : forall l, durable l ->
            on_disk (FileStorage.list_ (Registry.fileStorage this l) flt) s
            = (Ok (filter (fun a => passes flt a)
                     (listed (FileBackend (store (storagePath this) l)) s)), s)).
  { intros l Hl. destruct Hok as [_ Hfs]. unfold on_disk.
    unfold Registry.fileStorage. fold (store (storagePath this) l).
    rewrite list_eq.
    - rewrite Hs. destruct (listed_file this l s Hfs Hl) as [_ ->].
      by rewrite listing_passes.
    - by eapply tree_ok_names_valid.
    - rewrite lifespanDir_eq. by apply Hfs. }
  unfold bind, ret.
  rewrite !Hl by (unfold durable; tauto).
  rewrite all_listed_eq. destruct (listed_memory s) as [_ ->].
  by rewrite !list.filter_app, <- !app_assoc.
Qed.

Lemma filter_none {A} (P : A -> Prop) `{forall x, Decision (P x)} (l : list A) :
  (forall x, x ∈ l -> ~ P x) -> filter P l = [].
Proof.
  induction l as [|x l IH]; intros HP; [done|].
  rewrite list.filter_cons, decide_False by (apply HP; left).
  apply IH. intros y Hy. apply HP. by right.
Qed.

Lemma listed_same_disk (f : FileStorageConfig) (s s' : State) :
  disk s' = disk s -> listed (FileBackend f) s' = listed (FileBackend f) s.
Proof.
  intros E. unfold listed. simpl. unfold on_disk. rewrite E.
  by destruct (FileStorage.list_ f None (disk s)) as [[?|?] ?].
Qed.

Lemma listed_same_memory (s s' : State) :
  memory s' = memory s -> listed MemoryBackend s' = listed MemoryBackend s.
Proof.
  intros E. destruct (listed_memory s) as [_ ->].
  destruct (listed_memory s') as [_ ->]. by rewrite E.
Qed.

Lemma disposeByLifespan_spec (l : AgentLifespan) (s : State) :
  state_ok this s ->
  exists s',
    Registry.disposeByLifespan this l s
    = (Ok (length (filter (has_lifespan l) (all_listed this s))), s') /\
    state_ok this s' /\
    forall st, st ∈ backends this ->
      listed st s' ≡ₚ filter (fun a => ~ has_lifespan l a) (listed st s).
Proof.
  intros [Hm Hfs].
  assert (Hmem : forall a, a ∈ listed MemoryBackend s -> ~ durable (lifespan a)).
  { intros a. destruct (listed_memory s) as [_ ->].
    intros (k & Hk)%elem_of_values. by apply Hm in Hk as [_ ?]. }
  assert (Hfile : forall l' a, durable l' ->
            a ∈ listed (FileBackend (store (storagePath this) l')) s ->
            lifespan a = l').
  { intros l' a Hl'. destruct (listed_file this l' s Hfs Hl') as [_ ->].
    intros Ha. apply elem_of_listing_ok in Ha; [tauto|done]. }
  assert (Hother : forall l', durable l' -> l' <> l ->
            filter (has_lifespan l)
              (listed (FileBackend (store (storagePath this) l')) s) = []).
  { intros l' Hl' Hne. apply filter_none. intros a Ha E.
    apply Hfile in Ha; [|done]. unfold has_lifespan in E. congruence. }
  assert (Hkeep : forall l', durable l' -> l' <> l ->
            filter (fun a => ~ has_lifespan l a)
              (listed (FileBackend (store (storagePath this) l')) s)
            = listed (FileBackend (store (storagePath this) l')) s).
  { intros l' Hl' Hne. apply filter_True. intros a Ha E.
    apply Hfile in Ha; [|done]. unfold has_lifespan in E. congruence. }
  unfold Registry.disposeByLifespan.
  destruct (getStorage_name this l) as (st & Hst & Hin).
  pose proof Hst as Hst'. unfold Registry.getStorage in Hst'. simpl in Hst'.
  rewrite parse_lifespan_name in Hst'. rewrite Hst. unfold lift_result, bind.
  destruct (decide (durable l)) as [Hd|Hnd].
  - assert (st = FileBackend (store (storagePath this) l)) as ->.
    { destruct Hd as [-> | [-> | ->]]; by injection Hst' as <-. }
    simpl. unfold on_disk.
    destruct (deleteMany_spec (storagePath this) l (by_lifespan l) (disk s) Hfs Hd)
      as (fs' & -> & Hok' & Hdoc).
    exists {| memory := memory s; disk := fs' |}. split; [|split].
    + f_equal. f_equal. rewrite filter_by_lifespan.
      destruct (listed_file this l s Hfs Hd) as [_ <-].
      rewrite all_listed_eq, !list.filter_app.
      rewrite (filter_none _ (listed MemoryBackend s)).
      2: { intros a Ha E. apply Hmem in Ha. unfold has_lifespan in E.
           by rewrite E in Ha. }
      destruct Hd as [-> | [-> | ->]];
        rewrite ?(Hother session), ?(Hother workflow), ?(Hother project)
          by (unfold durable; first [tauto | done]);
        by rewrite ?app_nil_r.
    + by split.
    + intros st [-> | (l' & Hl' & ->)]%elem_of_backends.
      * rewrite (listed_same_memory s) by done.
        rewrite filter_True; [done|]. intros a Ha E. apply Hmem in Ha.
        unfold has_lifespan in E. by rewrite E in Ha.
      * destruct (listed_file this l' s Hfs Hl') as [_ ->].
        destruct (listed_file this l' {| memory := memory s; disk := fs' |}
                    Hok' Hl') as [_ ->]. simpl.
        apply listing_after; [done..|]. intros a Ha. rewrite Hdoc.
        rewrite matchesFilter_by_lifespan. unfold has_lifespan.
        rewrite bool_decide_eq_true. tauto.
  - assert (st = MemoryBackend) as ->.
    { destruct l; try (by injection Hst' as <-);
        exfalso; apply Hnd; unfold durable; tauto. }
    simpl. unfold on_memory.
    destruct (memory_deleteMany_spec (by_lifespan l) (memory s) Hm)
      as (m' & -> & Hlook).
    exists {| memory := m'; disk := disk s |}. split; [|split].
    + f_equal. f_equal. rewrite filter_by_lifespan.
      destruct (listed_memory s) as [_ <-].
      rewrite all_listed_eq, !list.filter_app.
      assert (Hne : forall l', durable l' -> l' <> l) by (by intros l' ? ->).
      rewrite (Hother session), (Hother workflow), (Hother project)
        by (first [apply Hne|idtac]; unfold durable; tauto).
      by rewrite !app_nil_r.
    + split; [|done]. simpl. eapply memory_ok_sub; [exact Hm|].
      intros k a Hk. by apply Hlook in Hk as [? _].
    + intros st [-> | (l' & Hl' & ->)]%elem_of_backends.
      * destruct (listed_memory s) as [_ ->].
        destruct (listed_memory {| memory := m'; disk := disk s |})
          as [_ ->]. simpl.
        apply values_filtered. intros k a. rewrite Hlook.
        rewrite matchesFilter_by_lifespan. unfold has_lifespan.
        by rewrite bool_decide_spec.
      * rewrite (listed_same_disk _ s) by done.
        rewrite Hkeep; [done | done |]. intros ->. done.
Qed.

(** X14: in every reachable state [disposeByLifespan l] returns the
    number of records of lifespan [l] and leaves every backend with
    exactly its former records of other lifespans. *)
Theorem disposeByLifespan_exact (l : AgentLifespan) (s : State) :
  reachable this s ->
  exists n s',
    Registry.disposeByLifespan this l s = (Ok n, s') /\
    n = length (filter (has_lifespan l) (all_listed this s)) /\
    forall st, st ∈ backends this ->
      listed st s' ≡ₚ filter (fun a => ~ has_lifespan l a) (listed st s).
Proof.
  intros Hok%reachable_state_ok.
  destruct (disposeByLifespan_spec l s Hok) as (s' & Hrun & _ & Hl).
  by eexists _, s'.
Qed.

End ListAndLifespan.

Section CreateSpec.
Context `{JsonLaws}.
Variable this : AgentRegistry.

Lemma valid_config_fields (env : Env) (config : AnyAgentConfig) :
  valid_config config ->
  exists nm l sc st,
    c_name config = Some nm /\ nm <> "" /\
    c_lifespan config ≫= parse_lifespan = Some l /\
    Registry.getScope env config = Some sc /\
    (l = workflow -> sc <> "") /\
    Registry.getStorage this (c_lifespan config) = Ok st /\
    ((st = MemoryBackend /\ ~ durable l) \/
     (durable l /\ st = FileBackend (store (storagePath this) l))).
Proof.
  intros [Hv [l Hl]]. unfold Registry.validateConfig in Hv.
  destruct (truthy (c_name config)) eqn:Hname; [|done]. simpl in Hv.
  destruct (c_name config) as [nm|] eqn:Hnm; [|done].
  apply truthy_Some in Hname.
  destruct (truthy (c_lifespan config)) eqn:Hlife; [|done]. simpl in Hv.
  destruct (bool_decide (c_lifespan config = Some "workflow")
            && negb (truthy (c_workflowId config))) eqn:Hwf; [done|].
  assert (Hsc : exists sc, Registry.getScope env config = Some sc /\
                           (l = workflow -> sc <> "")).
  { unfold Registry.getScope. rewrite Hl. destruct l; try (eexists; split; [done|done]).
    destruct (c_lifespan config) as [raw|] eqn:Hraw; [|done]. simpl in Hl.
    assert (raw = "workflow") as ->.
    { unfold parse_lifespan in Hl.
      repeat match type of Hl with
             | context [String.eqb raw ?t] =>
                 destruct (String.eqb_spec raw t); [try done|]
             end; done. }
    rewrite bool_decide_eq_true_2 in Hwf by done. simpl in Hwf.
    apply negb_false_iff in Hwf.
    destruct (c_workflowId config) as [w|] eqn:Hw; [|done].
    apply truthy_Some in Hwf. exists w. done. }
  destruct Hsc as (sc & Hsc & Hwsc).
  destruct (Registry.getStorage this (c_lifespan config)) as [st|e] eqn:Hst.
  2: { unfold Registry.getStorage in Hst. rewrite Hl in Hst. by destruct l. }
  exists nm, l, sc, st. repeat split; try done.
  by eapply getStorage_cases.
Qed.

Lemma find_in_tier_fields (l : AgentLifespan) (nm sc : string) (fs fs' : FS)
    (e : RegisteredAgent) :
  tree_ok (storagePath this) fs -> durable l ->
  has_sep nm = false -> (l <> project -> is_segment sc = true) ->
  FileStorage.findByNameAndScope (store (storagePath this) l) nm sc fs
  = (Ok (Some e), fs') ->
  lifespan e = l /\ placeable e /\ name e = nm /\ (l <> project -> scope e = sc) /\
  document_at fs (agent_path (storagePath this) e) = Some e.
Proof.
  intros Hok Hl Hnm Hsc Hfind.
  destruct (find_in_tier (storagePath this) l nm sc fs fs' e Hok Hnm) as [Hle Hpl];
    [intros Hnp; left; by apply Hsc | done |].
  apply file_find_Some in Hfind as (p & Hp & Hdoc).
  destruct (well_placed (storagePath this) fs p e Hok Hdoc) as (_ & E & _).
  rewrite <- E. split; [done|]. split; [done|].
  destruct (tier_path (storagePath this) l nm sc p Hnm)
    as [(-> & Ep) | [(Hnp & _ & _ & Ep) | (Hnp & _ & -> & _)]];
    [intros Hnp; left; by apply Hsc | done | | | by specialize (Hsc Hnp)].
  - rewrite Ep in E. unfold agent_path in E. rewrite Hle in E.
    apply app_inv_head in E. injection E as E. apply append_json_inj in E.
    done.
  - rewrite Ep in E. unfold agent_path in E. rewrite Hle in E.
    destruct l; try done; apply app_inv_head in E; injection E as E1 E2;
      apply append_json_inj in E2; done.
Qed.

Lemma create_spec (env : Env) (uuid now later : string) (config : AnyAgentConfig)
    (s : State) :
  state_ok this s -> safe_config env config -> valid_config config ->
  exists nm l sc found a0 s1,
    c_name config = Some nm /\
    c_lifespan config ≫= parse_lifespan = Some l /\
    Registry.getScope env config = Some sc /\
    a0 = match found with
         | Some e => set_lastUsedAt now e
         | None => Registry.new_agent uuid now later config nm l sc
         end /\
    Registry.create this env uuid now later config s
    = (Ok {| agent := a0; isNew := bool_decide (found = None) |}, s1) /\
    state_ok this s1 /\
    (durable l ->
       memory s1 = memory s /\ placeable a0 /\ lifespan a0 = l /\
       name a0 = nm /\ (l <> project -> scope a0 = sc) /\
       (forall e, found = Some e ->
          e ∈ listing (store (storagePath this) l) None (disk s)) /\
       (found = None ->
          document_at (disk s) (agent_path (storagePath this) a0) = None) /\
       disk s1 = written (disk s) (agent_path (storagePath this) a0)
                   (JSON_stringify a0)) /\
    (~ durable l ->
       disk s1 = disk s /\ memory s1 = snd (MemoryStorage.save a0 (memory s)) /\
       (forall e, found = Some e -> exists k, agents (memory s) !! k = Some e)).
Proof.
  intros Hok Hsafe Hvalid.
  destruct (valid_config_fields env config Hvalid)
    as (nm & l & sc & st & Hnm & Hne & Hl & Hsc & _ & Hst & Hcases).
  destruct Hvalid as [Hv _].
  pose proof (storage_find_state st nm sc s) as Hfs.
  destruct (Registry.storage_findByNameAndScope st nm sc s) as [r s0] eqn:Hfind.
  simpl in Hfs. subst s0.
  destruct Hcases as [[-> Hnd] | [Hd ->]].
  - (* the memory table *)
    assert (exists found, r = Ok found) as (found & ->).
    { simpl in Hfind. unfold on_memory, MemoryStorage.findByNameAndScope, gets in Hfind.
      injection Hfind as <- _. eauto. }
    set (a0 := match found with
               | Some e => set_lastUsedAt now e
               | None => Registry.new_agent uuid now later config nm l sc
               end).
    assert (Hfound : forall e, found = Some e ->
              exists k, agents (memory s) !! k = Some e).
    { intros e ->. simpl in Hfind. unfold on_memory in Hfind.
      destruct (MemoryStorage.findByNameAndScope nm sc (memory s)) as [r m'] eqn:Hf.
      injection Hfind as -> _. by eapply memory_find_Some. }
    assert (Hnd0 : ~ durable (lifespan a0)).
    { subst a0. destruct found as [e|].
      - destruct (Hfound e eq_refl) as (k & Hk). destruct Hok as [Hm _].
        by apply Hm in Hk as [_ ?].
      - destruct (new_agent_fields uuid now later config nm l sc) as (_ & _ & -> & _).
        done. }
    exists nm, l, sc, found, a0, (snd (Registry.storage_save MemoryBackend a0 s)).
    destruct (storage_save_ok this MemoryBackend a0 s Hok) as [Hsave Hok1];
      [by left|].
    split_and!; try done.
    assert (Hrun : Registry.storage_save MemoryBackend a0 s
                   = (Ok tt, (Registry.storage_save MemoryBackend a0 s).2))
      by done.
    subst a0. destruct found as [e|]; simpl.
    + eapply create_hit; try done.
    + eapply create_miss; try done.
  - (* a file storage *)
    destruct (Hsafe l nm sc Hl Hd Hnm Hsc) as [Hsep Hseg].
    assert (exists found, r = Ok found) as (found & ->).
    { simpl in Hfind. unfold on_disk in Hfind.
      rewrite findByNameAndScope_eq in Hfind.
      destruct (getAgentPath_durable (store (storagePath this) l) nm sc Hd)
        as [p Hp]. rewrite Hp in Hfind. injection Hfind as <- _. eauto. }
    set (a0 := match found with
               | Some e => set_lastUsedAt now e
               | None => Registry.new_agent uuid now later config nm l sc
               end).
    assert (Hfields : placeable a0 /\ lifespan a0 = l /\ name a0 = nm /\
                      (l <> project -> scope a0 = sc) /\
                      (forall e, found = Some e ->
                         e ∈ listing (store (storagePath this) l) None (disk s)) /\
                      (found = None ->
                         document_at (disk s) (agent_path (storagePath this) a0) = None)).
    { destruct Hok as [_ Hfs]. subst a0. destruct found as [e|].
      - simpl in Hfind. unfold on_disk in Hfind.
        destruct (FileStorage.findByNameAndScope (store (storagePath this) l)
                    nm sc (disk s)) as [r fs'] eqn:Hf.
        injection Hfind as -> _.
        destruct (find_in_tier_fields l nm sc (disk s) fs' e Hfs Hd Hsep Hseg Hf)
          as (Hle & Hpl & Hne' & Hse & Hdoc).
        repeat split; try done; try apply Hpl.
        intros e' [= <-]. apply elem_of_listing_ok; done.
      - destruct (new_agent_fields uuid now later config nm l sc)
          as (_ & Hn & Hla & Hsa & _).
        assert (Hpl : placeable (Registry.new_agent uuid now later config nm l sc)).
        { split; [by rewrite Hla|]. rewrite Hn, Hla, Hsa. done. }
        repeat split; try done; try apply Hpl.
        intros _. simpl in Hfind. unfold on_disk in Hfind.
        rewrite findByNameAndScope_eq in Hfind.
        pose proof (getAgentPath_placed (storagePath this) _ Hpl) as Hp.
        unfold FileStorage.getAgentPath in Hp. rewrite Hn, Hla, Hsa in Hp.
        rewrite Hp in Hfind. by injection Hfind as ->. }
    destruct Hfields as (Hpl & Hla & Hna & Hsa & Hfound & Hmiss).
    destruct Hok as [Hm Hfs].
    destruct (file_save_ok (storagePath this) l (disk s) a0 Hfs Hpl Hla)
      as [Hsave Hok1].
    exists nm, l, sc, found, a0,
      {| memory := memory s;
         disk := written (disk s) (agent_path (storagePath this) a0)
                   (JSON_stringify a0) |}.
    split_and!; try done.
    subst a0. destruct found as [e|]; simpl.
    + eapply create_hit; try done. simpl. unfold on_disk. by rewrite Hsave.
    + eapply create_miss; try done. simpl. unfold on_disk. by rewrite Hsave.
Qed.

End CreateSpec.

Section GetAndDispose.
Context `{JsonLaws}.
Variable this : AgentRegistry.

Lemma getStorage_backend_of (l : AgentLifespan) :
  Registry.getStorage this (Some (lifespan_name l)) = Ok (backend_of this l).
Proof.
  unfold Registry.getStorage. simpl. rewrite parse_lifespan_name.
  by destruct l.
Qed.

Lemma find_id_Some (id : string) (found : list RegisteredAgent)
    (a : RegisteredAgent) :
  find_id id found = Some a -> a ∈ found /\ agentId a = id.
Proof.
  intros [Ha Hid]%find_some. split; [by apply list_elem_of_In|].
  by apply String.eqb_eq.
Qed.

Lemma find_id_None (id : string) (found : list RegisteredAgent) :
  find_id id found = None <-> forall a, a ∈ found -> agentId a <> id.
Proof.
  split.
  - intros Hn a Ha. eapply find_none in Hn; [|by apply list_elem_of_In].
    simpl in Hn. by apply String.eqb_neq.
  - intros Hall. destruct (find_id id found) as [a|] eqn:E; [|done].
    apply find_id_Some in E as [Ha Hid]. by apply Hall in Ha.
Qed.

Lemma get_spec (id : string) (s : State) :
  state_ok this s ->
  let tier l := find_id id (listing (store (storagePath this) l) None (disk s)) in
  Registry.get this id s
  = (Ok (match agents (memory s) !! id with
         | Some a => Some a
         | None =>
             match tier session with
             | Some a => Some a
             | None =>
                 match tier workflow with
                 | Some a => Some a
                 | None => tier project
                 end
             end
         end), s).
Proof.
  intros Hok tier. unfold Registry.get.
  assert (Hs : {| memory := memory s; disk := disk s |} = s) by (by destruct s).
  erewrite bind_Ok.
  2: { unfold on_memory, MemoryStorage.load, gets. simpl. by rewrite Hs. }
  destruct (agents (memory s) !! id) as [a|]; [done|].
  assert (Hload : forall l, durable l ->
            on_disk (FileStorage.load (store (storagePath this) l) id) s
            = (Ok (tier l), s)).
  { intros l Hl. destruct Hok as [_ Hfs]. unfold on_disk.
    destruct (file_load_spec (storagePath this) l id (disk s) Hfs Hl)
      as (found & -> & ->). by rewrite Hs. }
  unfold Registry.fileStorages, Registry.fileStorage. simpl.
  fold (store (storagePath this) session).
  fold (store (storagePath this) workflow).
  fold (store (storagePath this) project).
  erewrite bind_Ok by (apply Hload; unfold durable; tauto).
  destruct (tier session) as [a|]; [done|].
  erewrite bind_Ok by (apply Hload; unfold durable; tauto).
  destruct (tier workflow) as [a|]; [done|].
  erewrite bind_Ok by (apply Hload; unfold durable; tauto).
  by destruct (tier project) as [a|].
Qed.

Lemma values_delete (m : MemoryState) (id : string) (a : RegisteredAgent) :
  agents m !! id = Some a ->
  MemoryStorage.values m
    ≡ₚ a :: MemoryStorage.values (snd (MemoryStorage.delete_ id m)).
Proof.
  intros Ha. unfold MemoryStorage.values. rewrite memory_delete_agents.
  rewrite <- (map_to_list_delete (agents m) id a Ha). done.
Qed.

Lemma dispose_spec (id : string) (s : State) :
  state_ok this s ->
  exists found s',
    Registry.get this id s = (Ok found, s) /\
    Registry.dispose this id s = (Ok tt, s') /\
    state_ok this s' /\
    match found with
    | None => s' = s
    | Some a =>
        agentId a = id /\
        listed (backend_of this (lifespan a)) s
          ≡ₚ a :: listed (backend_of this (lifespan a)) s' /\
        forall st, st ∈ backends this -> st <> backend_of this (lifespan a) ->
          listed st s' ≡ₚ listed st s
    end.
Proof.
  intros Hok. pose proof (get_spec id s Hok) as Hget. simpl in Hget.
  pose proof (dispose_ok this id s Hok) as Hok'.
  unfold Registry.dispose in *. erewrite bind_Ok in Hok' by exact Hget.
  erewrite bind_Ok by exact Hget.
  destruct Hok as [Hm Hfs].
  destruct (agents (memory s) !! id) as [a|] eqn:Hmem.
  - (* a record of the memory table *)
    destruct (Hm id a Hmem) as [Hid Hnd].
    assert (Hb : backend_of this (lifespan a) = MemoryBackend).
    { destruct (lifespan a); try done; exfalso; apply Hnd; unfold durable; tauto. }
    rewrite getStorage_backend_of in *. rewrite Hb in *.
    unfold lift_result, bind in *. simpl in *.
    eexists (Some a), _. split; [done|]. split; [reflexivity|].
    split; [done|]. split; [done|]. rewrite Hb. split.
    + destruct (listed_memory s) as [_ ->].
      match goal with
      | |- _ ≡ₚ _ :: listed MemoryBackend ?s1 =>
          destruct (listed_memory s1) as [_ ->]
      end. simpl.
      by apply values_delete.
    + intros st [-> | (l & Hl & ->)]%elem_of_backends Hne; [done|].
      by rewrite (listed_same_disk _ s).
  - assert (Htier : forall l b, durable l ->
              find_id id (listing (store (storagePath this) l) None (disk s)) = Some b ->
              exists s',
                (storage <- lift_result
                              (Registry.getStorage this (Some (lifespan_name (lifespan b)))) ;;
                 Registry.storage_delete storage id) s = (Ok tt, s') /\
                agentId b = id /\
                listed (backend_of this (lifespan b)) s
                  ≡ₚ b :: listed (backend_of this (lifespan b)) s' /\
                forall st, st ∈ backends this ->
                  st <> backend_of this (lifespan b) ->
                  listed st s' ≡ₚ listed st s).
    { intros l b Hl Hfind.
      pose proof Hfind as [Hb Hid]%find_id_Some.
      pose proof Hb as (_ & Hlb & _)%elem_of_listing_ok; [|done].
      assert (Hbk : backend_of this (lifespan b)
                    = FileBackend (store (storagePath this) l)).
      { rewrite Hlb. by destruct Hl as [-> | [-> | ->]]. }
      rewrite getStorage_backend_of, Hbk. unfold lift_result, bind. simpl.
      unfold on_disk.
      rewrite (file_delete_effect (storagePath this) l id (disk s) Hfs Hl).
      fold (find_id id (listing (store (storagePath this) l) None (disk s))).
      rewrite Hfind.
      eexists. split; [reflexivity|]. split; [done|].
      destruct (listing_delete (storagePath this) l l b (disk s) Hfs Hb)
        as [Hok1 Hp]. rewrite !decide_True in Hp by done.
      split.
      - destruct (listed_file this l s Hfs Hl) as [_ ->].
        destruct (listed_file this l
                    {| memory := memory s;
                       disk := delete (agent_path (storagePath this) b) (disk s) |}
                    Hok1 Hl) as [_ ->]. done.
      - intros st [-> | (l' & Hl' & ->)]%elem_of_backends Hne.
        + by rewrite (listed_same_memory s).
        + assert (l' <> l) by (intros ->; done).
          destruct (listing_delete (storagePath this) l l' b (disk s) Hfs Hb)
            as [_ Hp']. rewrite !decide_False in Hp' by done.
          destruct (listed_file this l' s Hfs Hl') as [_ ->].
          destruct (listed_file this l'
                      {| memory := memory s;
                         disk := delete (agent_path (storagePath this) b) (disk s) |}
                      Hok1 Hl') as [_ ->]. done. }
    destruct (find_id id (listing (store (storagePath this) session) None (disk s)))
      as [b|] eqn:E1.
    { destruct (Htier session b) as (s' & Hrun & Hrest); [unfold durable; tauto|done|].
      rewrite Hrun in *. by eexists (Some b), s'. }
    destruct (find_id id (listing (store (storagePath this) workflow) None (disk s)))
      as [b|] eqn:E2.
    { destruct (Htier workflow b) as (s' & Hrun & Hrest); [unfold durable; tauto|done|].
      rewrite Hrun in *. by eexists (Some b), s'. }
    destruct (find_id id (listing (store (storagePath this) project) None (disk s)))
      as [b|] eqn:E3.
    { destruct (Htier project b) as (s' & Hrun & Hrest); [unfold durable; tauto|done|].
      rewrite Hrun in *. by eexists (Some b), s'. }
    by eexists None, s.
Qed.

(** X15: in every reachable state [dispose id] removes the record
    [get id] returns from the backend of its lifespan and leaves the
    other backends as they were; when [get id] finds nothing the state
    is unchanged. *)
Theorem dispose_removes_found (id : string) (s : State) :
  reachable this s ->
  exists found s',
    Registry.get this id s = (Ok found, s) /\
    Registry.dispose this id s = (Ok tt, s') /\
    match found with
    | None => s' = s
    | Some a =>
        agentId a = id /\
        listed (backend_of this (lifespan a)) s
          ≡ₚ a :: listed (backend_of this (lifespan a)) s' /\
        forall st, st ∈ backends this -> st <> backend_of this (lifespan a) ->
          listed st s' ≡ₚ listed st s
    end.
Proof.
  intros Hok%reachable_state_ok.
  destruct (dispose_spec id s Hok) as (found & s' & Hget & Hrun & _ & Hrest).
  by exists found, s'.
Qed.

End GetAndDispose.

Section Written.
Context `{JsonLaws}.
Variable this : AgentRegistry.

Lemma written_keeps (fs : FS) (p q : path) (content : string) (n : node) :
  can_write fs p -> q <> p -> fs !! q = Some n ->
  written fs p content !! q = Some n.
Proof.
  intros [Hfiles _] Hq Hn. unfold written. rewrite lookup_insert_ne by done.
  case_bool_decide; [done|]. rewrite lookup_mkdirs.
  destruct (decide (q ∈ Fs.prefixes (dirname p))) as [Hin|]; [|done].
  destruct n as [c|]; [|done]. exfalso.
  assert (existsb (Fs.is_file fs) (Fs.prefixes (dirname p)) = true);
    [|congruence].
  apply existsb_exists. exists q. split; [by apply list_elem_of_In|].
  unfold Fs.is_file. by rewrite Hn.
Qed.

Lemma document_at_written (fs : FS) (p q : path) (a : RegisteredAgent) :
  can_write fs p ->
  document_at (written fs p (JSON_stringify a)) q
  = if decide (q = p) then Some (agent_clean a) else document_at fs q.
Proof.
  intros Hw. unfold document_at. destruct (decide (q = p)) as [->|Hne].
  - unfold written. rewrite lookup_insert_eq. apply JSON_parse_stringify.
  - destruct (written fs p (JSON_stringify a) !! q) as [n|] eqn:Hq.
    + apply written_lookup in Hq as [[? _] | [_ [Hq | [-> Hpre]]]]; [done| |].
      * by rewrite Hq.
      * destruct (fs !! q) as [[c|]|] eqn:Hfs; [|done..].
        exfalso. destruct Hw as [Hfiles _].
        assert (existsb (Fs.is_file fs) (Fs.prefixes (dirname p)) = true);
          [|congruence].
        apply existsb_exists. exists q.
        split; [by apply list_elem_of_In, elem_of_prefixes|].
        unfold Fs.is_file. by rewrite Hfs.
    + destruct (fs !! q) as [n|] eqn:Hfs; [|done].
      by rewrite (written_keeps fs p q _ n Hw Hne Hfs) in Hq.
Qed.

Lemma listing_written (l l' : AgentLifespan) (a b : RegisteredAgent) (fs : FS) :
  tree_ok (storagePath this) fs -> placeable a -> lifespan a = l ->
  b ∈ listing (store (storagePath this) l') None
        (written fs (agent_path (storagePath this) a) (JSON_stringify a)) <->
  (b = agent_clean a /\ l' = l) \/
  (b ∈ listing (store (storagePath this) l') None fs /\
   agent_path (storagePath this) b <> agent_path (storagePath this) a).
Proof.
  intros Hok Hpl Hl.
  destruct (file_save_ok (storagePath this) l fs a Hok Hpl Hl) as [_ Hok'].
  pose proof (can_write_placeable (storagePath this) fs a Hok Hpl) as Hw.
  rewrite !elem_of_listing_ok by done. rewrite document_at_written by done.
  destruct (decide (agent_path (storagePath this) b = agent_path (storagePath this) a))
    as [E|Hne].
  - split.
    + intros ([= <-] & Hlb & _). left. split; [done|]. simpl in Hlb. congruence.
    + intros [[-> ->] | [_ ?]]; [|done]. split; [done|]. split; [|done].
      simpl. done.
  - split.
    + intros (Hd & Hlb & _). right. done.
    + intros [[-> _] | [? _]]; [|done]. exfalso. apply Hne. done.
Qed.

Lemma NoDup_fmap_inj_on {A B} (f : A -> B) (xs : list A) (x y : A) :
  NoDup (map f xs) -> x ∈ xs -> y ∈ xs -> f x = f y -> x = y.
Proof.
  induction xs as [|z xs IH]; intros Hnd Hx Hy E.
  - by apply elem_of_nil in Hx.
  - simpl in Hnd. apply list.NoDup_cons in Hnd as [Hz Hnd].
    apply elem_of_cons in Hx as [->|Hx], Hy as [->|Hy]; try done.
    + exfalso. apply Hz. rewrite E. by apply list_elem_of_fmap_2.
    + exfalso. apply Hz. rewrite <- E. by apply list_elem_of_fmap_2.
    + by apply IH.
Qed.

Lemma elem_of_all_listed (s : State) (a : RegisteredAgent) :
  a ∈ all_listed this s <-> exists st, st ∈ backends this /\ a ∈ listed st s.
Proof. unfold all_listed. rewrite list_elem_of_bind. naive_solver. Qed.

End Written.

Section CreateThenUse.
Context `{JsonLaws}.
Variable this : AgentRegistry.

(** X16: in every reachable state, the agent [startWorkflow] returns
    for a workflow configuration that [create] accepts, with a name and
    a workflow id usable as file names, is a workflow record of that
    workflow; [getWorkflowAgents] of the workflow lists it afterwards (as
    JSON keeps it), and lists only records of that workflow. *)
Theorem startWorkflow_then_getWorkflowAgents (env : Env) (uuid now later : string)
    (config : AnyAgentConfig) (w : string) (s : State) :
  reachable this s -> safe_config env config -> valid_config config ->
  c_lifespan config = Some "workflow" -> c_workflowId config = Some w ->
  exists a s1 found,
    Registry.startWorkflow this env uuid now later config s = (Ok a, s1) /\
    Registry.getWorkflowAgents this w s1 = (Ok found, s1) /\
    agent_clean a ∈ found /\ lifespan a = workflow /\ scope a = w /\
    forall b, b ∈ found -> scope b = w.
Proof.
  intros Hok%reachable_state_ok Hsafe Hvalid Hwf Hw.
  destruct (valid_config_fields this env config Hvalid)
    as (nm0 & l0 & sc0 & st0 & _ & _ & Hl0 & Hsc0 & Hne0 & _).
  destruct (create_spec this env uuid now later config s Hok Hsafe Hvalid)
    as (nm & l & sc & found & a0 & s1 & Hnm & Hl & Hsc & Ha0 & Hrun & Hok1 & Hdur & _).
  rewrite Hwf in Hl, Hl0. simpl in Hl, Hl0. injection Hl as <-. injection Hl0 as <-.
  assert (sc = w) as ->.
  { unfold Registry.getScope in Hsc. rewrite Hwf in Hsc. simpl in Hsc. congruence. }
  assert (Hwne : w <> "").
  { assert (sc0 = w) as <- by congruence. by apply Hne0. }
  destruct Hdur as (Hmem & Hpl & Hla & Hna & Hsa & _ & _ & Hdisk);
    [unfold durable; tauto|].
  specialize (Hsa ltac:(done)).
  destruct Hok as [_ Hfs]. pose proof Hok1 as [_ Hfs1].
  pose proof (can_write_placeable (storagePath this) (disk s) a0 Hfs Hpl) as Hcw.
  exists a0, s1,
    (listing (store (storagePath this) workflow) (Some (by_scope w)) (disk s1)).
  split; [|split; [|split; [|split; [done|split; [done|]]]]].
  - unfold Registry.startWorkflow. erewrite bind_Ok by exact Hrun. done.
  - unfold Registry.getWorkflowAgents, on_disk.
    unfold Registry.fileStorage. fold (store (storagePath this) workflow).
    rewrite list_eq.
    + by destruct s1.
    + by eapply tree_ok_names_valid.
    + rewrite lifespanDir_eq. apply Hfs1. unfold durable; tauto.
  - apply elem_of_listing_ok; [done|]. split; [|split; [done|]].
    + rewrite Hdisk, document_at_written by done.
      by rewrite decide_True.
    + simpl. rewrite matchesFilter_by_scope by done.
      by apply bool_decide_eq_true_2.
  - intros b (_ & _ & Hp)%elem_of_listing_ok; [|done]. simpl in Hp.
    rewrite matchesFilter_by_scope in Hp by done.
    by apply bool_decide_eq_true in Hp.
Qed.


End CreateThenUse.

Section CreateThenGet.
Context `{JsonLaws}.
Variable this : AgentRegistry.

(** X18: in a reachable state whose records have distinct ids, none of
    them the fresh id, the agent [create] returns for an accepted
    configuration, with a name and scope usable as file names, is what
    [get] returns for its id right after: the record itself from the
    memory table, the record as JSON keeps it from a file storage. *)
Theorem create_then_get (env : Env) (uuid now later : string)
    (config : AnyAgentConfig) (s : State) :
  reachable this s -> safe_config env config -> valid_config config ->
  NoDup (map agentId (all_listed this s)) ->
  uuid ∉ map agentId (all_listed this s) ->
  exists r s1,
    Registry.create this env uuid now later config s = (Ok r, s1) /\
    Registry.get this (agentId (agent r)) s1
    = (Ok (Some (if decide (durable (lifespan (agent r)))
                 then agent_clean (agent r) else agent r)), s1).
Proof.
  intros Hok%reachable_state_ok Hsafe Hvalid Hnd Hfresh.
  destruct (create_spec this env uuid now later config s Hok Hsafe Hvalid)
    as (nm & l & sc & found & a0 & s1 & Hnm & Hl & Hsc & Ha0 & Hrun & Hok1
        & Hdur & Hvol).
  exists {| agent := a0; isNew := bool_decide (found = None) |}, s1.
  split; [done|]. simpl. rewrite (get_spec this _ s1 Hok1). simpl.
  f_equal. f_equal.
  pose proof Hok as [Hm Hfs].
  assert (Hin_mem : forall k x, agents (memory s) !! k = Some x ->
            x ∈ all_listed this s /\ agentId x = k /\ ~ durable (lifespan x)).
  { intros k x Hk. destruct (Hm k x Hk) as [? ?]. split; [|done].
    apply elem_of_all_listed. exists MemoryBackend.
    split; [apply elem_of_backends; by left|].
    destruct (listed_memory s) as [_ ->]. apply elem_of_values. eauto. }
  assert (Hin_file : forall l' x, durable l' ->
            x ∈ listing (store (storagePath this) l') None (disk s) ->
            x ∈ all_listed this s /\ lifespan x = l').
  { intros l' x Hl' Hx. split.
    - apply elem_of_all_listed. exists (FileBackend (store (storagePath this) l')).
      split; [apply elem_of_backends; right; eauto|].
      by destruct (listed_file this l' s Hfs Hl') as [_ ->].
    - apply elem_of_listing_ok in Hx; [tauto|done]. }
  destruct (decide (durable l)) as [Hd|Hnd'].
  - (* a file storage *)
    destruct (Hdur Hd) as (Hmem & Hpl & Hla & Hna & Hsa & Hfound & Hmiss & Hdisk).
    rewrite decide_True by (by rewrite Hla).
    (* every stored record with the id of [a0] is the one [create] found *)
    assert (Hsame : forall x, x ∈ all_listed this s -> agentId x = agentId a0 ->
              found = Some x).
    { intros x Hx Hid. destruct found as [e|].
      - f_equal. subst a0. simpl in Hid.
        destruct (Hin_file l e Hd (Hfound e eq_refl)) as [He _].
        symmetry. by eapply (NoDup_fmap_inj_on agentId).
      - exfalso. apply Hfresh. subst a0.
        destruct (new_agent_fields uuid now later config nm l sc) as (Hu & _).
        rewrite Hu in Hid. rewrite <- Hid. by apply list_elem_of_fmap_2. }
    assert (Hpath : forall e, found = Some e ->
              agent_path (storagePath this) e = agent_path (storagePath this) a0).
    { intros e ->. by subst a0. }
    rewrite Hmem.
    destruct (agents (memory s) !! agentId a0) as [x|] eqn:Hx.
    { exfalso. destruct (Hin_mem _ _ Hx) as (Hxin & Hxid & Hxnd).
      pose proof (Hsame x Hxin Hxid) as Hf.
      destruct (Hin_file l x Hd (Hfound x Hf)) as [_ Hlx].
      apply Hxnd. by rewrite Hlx. }
    assert (Htier : forall l', durable l' ->
              find_id (agentId a0)
                (listing (store (storagePath this) l') None (disk s1))
              = if decide (l' = l) then Some (agent_clean a0) else None).
    { intros l' Hl'. rewrite Hdisk.
      destruct (decide (l' = l)) as [->|Hne].
      - destruct (find_id _ _) as [b|] eqn:Hfind.
        + apply find_id_Some in Hfind as [Hb Hid].
          apply (listing_written this l l a0 b (disk s) Hfs Hpl Hla) in Hb
            as [[-> _] | [Hb Hpb]]; [done|].
          exfalso. apply Hpb.
          destruct (Hin_file l b Hd Hb) as [Hbin _].
          by apply Hpath, Hsame.
        + exfalso. rewrite find_id_None in Hfind.
          apply (Hfind (agent_clean a0)); [|done].
          apply (listing_written this l l a0 _ (disk s) Hfs Hpl Hla). by left.
      - apply find_id_None. intros b Hb Hid.
        apply (listing_written this l l' a0 b (disk s) Hfs Hpl Hla) in Hb
          as [[_ ?] | [Hb Hpb]]; [done|].
        destruct (Hin_file l' b Hl' Hb) as [Hbin Hlb].
        pose proof (Hsame b Hbin Hid) as Hf.
        destruct (Hin_file l b Hd (Hfound b Hf)) as [_ Hlb'].
        congruence. }
    rewrite !Htier by (unfold durable; tauto).
    by destruct Hd as [-> | [-> | ->]].
  - (* the memory table *)
    destruct (Hvol Hnd') as (Hdisk & Hmem & Hfound).
    assert (Hnd0 : ~ durable (lifespan a0)).
    { subst a0. destruct found as [e|].
      - destruct (Hfound e eq_refl) as (k & Hk). simpl.
        by destruct (Hin_mem _ _ Hk) as (_ & _ & ?).
      - by destruct (new_agent_fields uuid now later config nm l sc) as (_ & _ & -> & _). }
    rewrite decide_False by done. rewrite Hmem. simpl.
    by rewrite lookup_insert_eq.
Qed.

(** X19: where the memory table has no name entry and the tree has no
    regular file, [resume] throws [AgentNotFoundError] with the name it
    was given, for every name and scope, and changes nothing. *)
Theorem resume_nothing_stored (env : Env) (now nm : string)
    (sc : option string) (s : State) :
  nameIndex (memory s) = ∅ ->
  (forall p content, disk s !! p <> Some (File content)) ->
  Registry.resume this env now nm sc s = (Throw (AgentNotFoundError nm), s).
Proof.
  intros Hidx Hfiles.
  assert (Hs : {| memory := memory s; disk := disk s |} = s) by (by destruct s).
  assert (Hmem : forall x, Registry.storage_findByNameAndScope MemoryBackend nm x s
                           = (Ok None, s)).
  { intros x. simpl. unfold on_memory, MemoryStorage.findByNameAndScope, gets.
    rewrite Hidx, lookup_empty. by rewrite Hs. }
  assert (Hfile : forall l x, durable l ->
            Registry.storage_findByNameAndScope
              (FileBackend (Registry.fileStorage this l)) nm x s = (Ok None, s)).
  { intros l x Hl. simpl. unfold on_disk. rewrite findByNameAndScope_eq.
    unfold Registry.fileStorage. fold (store (storagePath this) l).
    destruct (getAgentPath_durable (store (storagePath this) l) nm x Hl)
      as [p ->].
    assert (document_at (disk s) p = None) as ->.
    { unfold document_at. destruct (disk s !! p) as [[c|]|] eqn:Hp; try done.
      by apply Hfiles in Hp. }
    by rewrite Hs. }
  unfold Registry.resume, Registry.resume_storages. simpl.
  erewrite bind_Ok by apply Hmem. simpl.
  erewrite bind_Ok by apply Hmem. simpl.
  erewrite bind_Ok by (apply Hfile; unfold durable; tauto). simpl.
  erewrite bind_Ok by (apply Hfile; unfold durable; tauto). simpl.
  erewrite bind_Ok by (apply Hfile; unfold durable; tauto). simpl.
  done.
Qed.

End CreateThenGet.

Section ConstructorAndHooks.
Context `{JsonLaws}.
Variable this : AgentRegistry.

Lemma prefix_snoc {A} (q d : list A) (x : A) :
  q `prefix_of` d ++ [x] <-> q `prefix_of` d \/ q = d ++ [x].
Proof.
  split.
  - intros [k E]. destruct k as [|y k _] using rev_ind.
    + right. by rewrite app_nil_r in E.
    + left. exists k. rewrite app_assoc in E.
      by apply app_inj_tail in E as [-> _].
  - intros [[k ->] | ->]; [|done]. exists (k ++ [x]). by rewrite app_assoc.
Qed.

Lemma ensureBaseDir_spec (base : path) (l : AgentLifespan) (fs : FS) :
  existsb (Fs.is_file fs) (Fs.prefixes base) = false ->
  exists fs',
    FileStorage.ensureBaseDir (store base l) fs = (Ok tt, fs') /\
    fs' !! (base ++ [lifespan_name l])
    = Some (match fs !! (base ++ [lifespan_name l]) with
            | Some n => n
            | None => Dir
            end) /\
    (forall q n, fs !! q = Some n -> fs' !! q = Some n) /\
    (forall q n, fs' !! q = Some n ->
       fs !! q = Some n \/
       (n = Dir /\ q `prefix_of` base ++ [lifespan_name l])) /\
    existsb (Fs.is_file fs') (Fs.prefixes base) = false.
Proof.
  intros Hfiles. unfold FileStorage.ensureBaseDir. unfold_m.
  rewrite existsSync_eq, lifespanDir_eq. simpl.
  set (ld := base ++ [lifespan_name l]).
  case_bool_decide as Hex; simpl.
  - exists fs. split_and!; try done.
    + by destruct Hex as [n ->].
    + intros q n Hq. by left.
  - unfold Fs.mkdirSync_recursive.
    assert (Hnf : existsb (Fs.is_file fs) (Fs.prefixes ld) = false).
    { apply not_true_iff_false. intros (q & Hq & Hfile)%existsb_exists.
      apply list_elem_of_In, elem_of_prefixes, prefix_snoc in Hq as [Hq | ->].
      - assert (existsb (Fs.is_file fs) (Fs.prefixes base) = true); [|congruence].
        apply existsb_exists. exists q.
        split; [by apply list_elem_of_In, elem_of_prefixes | done].
      - apply Hex. unfold Fs.is_file in Hfile. subst ld.
        destruct (fs !! (base ++ [lifespan_name l])); [eauto | done]. }
    rewrite Hnf. eexists. split; [reflexivity|].
    assert (Hkeep : forall q n, fs !! q = Some n ->
              foldr (fun q m => <[q := Dir]> m) fs (Fs.prefixes ld) !! q = Some n).
    { intros q n Hq. rewrite lookup_mkdirs.
      destruct (decide (q ∈ Fs.prefixes ld)) as [Hin|]; [|done].
      destruct n as [c|]; [|done]. exfalso.
      assert (existsb (Fs.is_file fs) (Fs.prefixes ld) = true); [|congruence].
      apply existsb_exists. exists q. split; [by apply list_elem_of_In|].
      unfold Fs.is_file. by rewrite Hq. }
    assert (Hnf' : existsb
              (Fs.is_file (foldr (fun q m => <[q := Dir]> m) fs (Fs.prefixes ld)))
              (Fs.prefixes base) = false).
    { apply not_true_iff_false. intros (q & Hq & Hfile)%existsb_exists.
      unfold Fs.is_file in Hfile. rewrite lookup_mkdirs in Hfile.
      rewrite decide_True in Hfile; [done|].
      apply list_elem_of_In, elem_of_prefixes in Hq.
      apply elem_of_prefixes, prefix_snoc. by left. }
    split; [|split; [done|split; [|done]]].
    + rewrite lookup_mkdirs, decide_True by (by apply elem_of_prefixes).
      destruct (fs !! ld) as [n|] eqn:Hld; [|done].
      exfalso. apply Hex. eauto.
    + intros q n. rewrite lookup_mkdirs.
      destruct (decide (q ∈ Fs.prefixes ld)) as [Hin|]; [|by left].
      intros [= <-]. right. split; [done|]. by apply elem_of_prefixes.
Qed.

Lemma tier_not_prefix (base : path) (l l' : AgentLifespan) :
  l <> l' ->
  ~ (base ++ [lifespan_name l]) `prefix_of` (base ++ [lifespan_name l']).
Proof.
  intros Hne Hpre. apply prefix_app_inv in Hpre.
  apply prefix_cons_inv_1 in Hpre. by apply lifespan_name_inj in Hpre.
Qed.

Lemma ensureBaseDir_exists (base : path) (l : AgentLifespan) (fs : FS) :
  is_Some (fs !! (base ++ [lifespan_name l])) ->
  FileStorage.ensureBaseDir (store base l) fs = (Ok tt, fs).
Proof.
  intros Hex. unfold FileStorage.ensureBaseDir. unfold_m.
  rewrite existsSync_eq, lifespanDir_eq. simpl.
  by rewrite bool_decide_eq_true_2.
Qed.

(** X20: where no regular file lies on the way to the storage path,
    the constructor returns.  Afterwards each of the three lifespan
    paths holds what it held before and, where it held nothing, a
    directory: a regular file at a lifespan path is left in place and
    not reported.  Nothing that was in the tree has changed, no document
    was added, the memory table is untouched, and running the
    constructor again changes nothing. *)
Theorem new_registry_builds_tiers (base : path) (s : State) :
  existsb (Fs.is_file (disk s)) (Fs.prefixes base) = false ->
  exists s1,
    Registry.new_registry base s = (Ok {| storagePath := base |}, s1) /\
    memory s1 = memory s /\
    (forall l, durable l ->
       disk s1 !! (base ++ [lifespan_name l])
       = Some (match disk s !! (base ++ [lifespan_name l]) with
               | Some n => n
               | None => Dir
               end)) /\
    (forall q n, disk s !! q = Some n -> disk s1 !! q = Some n) /\
    (forall q content, disk s1 !! q = Some (File content) ->
       disk s !! q = Some (File content)) /\
    Registry.new_registry base s1 = (Ok {| storagePath := base |}, s1).
Proof.
  intros Hfiles.
  destruct (ensureBaseDir_spec base session (disk s) Hfiles)
    as (fs1 & E1 & Hd1 & Hk1 & Hn1 & Hf1).
  destruct (ensureBaseDir_spec base workflow fs1 Hf1)
    as (fs2 & E2 & Hd2 & Hk2 & Hn2 & Hf2).
  destruct (ensureBaseDir_spec base project fs2 Hf2)
    as (fs3 & E3 & Hd3 & Hk3 & Hn3 & Hf3).
  assert (Hrun : forall m,
    Registry.new_registry base {| memory := m; disk := disk s |}
    = (Ok {| storagePath := base |}, {| memory := m; disk := fs3 |})).
  { intros m. unfold Registry.new_registry, Registry.fileStorages,
      Registry.fileStorage. simpl.
    fold (store base session). fold (store base workflow).
    fold (store base project).
    unfold bind, on_disk, ret. simpl. by rewrite E1, E2, E3. }
  (* a step for one tier leaves the other tier paths as they were *)
  assert (Hother : forall (l l' : AgentLifespan) (fa fb : FS),
    l <> l' ->
    (forall q n, fa !! q = Some n -> fb !! q = Some n) ->
    (forall q n, fb !! q = Some n ->
       fa !! q = Some n \/ (n = Dir /\ q `prefix_of` base ++ [lifespan_name l])) ->
    fb !! (base ++ [lifespan_name l']) = fa !! (base ++ [lifespan_name l'])).
  { intros l l' fa fb Hne Hk Hn.
    destruct (fa !! (base ++ [lifespan_name l'])) as [n|] eqn:Ha;
      [by apply Hk|].
    destruct (fb !! (base ++ [lifespan_name l'])) as [n|] eqn:Hb; [|done].
    apply Hn in Hb as [Hb | [_ Hpre]]; [congruence|].
    exfalso. by apply (tier_not_prefix base l' l). }
  assert (Htiers : forall l, durable l ->
    fs3 !! (base ++ [lifespan_name l])
    = Some (match disk s !! (base ++ [lifespan_name l]) with
            | Some n => n
            | None => Dir
            end)).
  { intros l [-> | [-> | ->]].
    - rewrite (Hother project session fs2 fs3), (Hother workflow session fs1 fs2);
        done.
    - rewrite (Hother project workflow fs2 fs3) by done. rewrite Hd2.
      by rewrite (Hother session workflow (disk s) fs1).
    - rewrite Hd3. rewrite (Hother workflow project fs1 fs2) by done.
      by rewrite (Hother session project (disk s) fs1). }
  exists {| memory := memory s; disk := fs3 |}.
  split; [|split; [done|split; [done|split; [|split]]]].
  - rewrite <- (Hrun (memory s)). by destruct s.
  - simpl. eauto.
  - simpl. intros q c Hq.
    apply Hn3 in Hq as [Hq | [? _]]; [|done].
    apply Hn2 in Hq as [Hq | [? _]]; [|done].
    apply Hn1 in Hq as [Hq | [? _]]; done.
  - unfold Registry.new_registry, Registry.fileStorages,
      Registry.fileStorage. simpl.
    fold (store base session). fold (store base workflow).
    fold (store base project).
    unfold bind, on_disk, ret. simpl.
    rewrite !ensureBaseDir_exists
      by (rewrite Htiers by (unfold durable; tauto); eauto).
    done.
Qed.

(** X24: in every reachable state the [SessionEnd] handler returns.
    For a session id that is not empty it leaves every backend with
    exactly its former records of other scopes; for the empty session
    id it leaves every backend without records. *)
Theorem onSessionEnd_disposes_session (session_id : string) (s : State) :
  reachable this s ->
  exists s',
    LifecycleManager.onSessionEnd this session_id s = (Ok tt, s') /\
    (session_id <> "" ->
       forall st, st ∈ backends this ->
         listed st s'
           ≡ₚ filter (fun a => ~ in_scope session_id a) (listed st s)) /\
    (session_id = "" ->
       forall st, st ∈ backends this -> listed st s' = []).
Proof.
  intros Hok%reachable_state_ok.
  destruct (disposeByScope_sel this session_id s Hok) as (s' & Hrun & _ & Hl).
  exists s'. split; [|split].
  - unfold LifecycleManager.onSessionEnd, try_catch.
    erewrite bind_Ok by exact Hrun. done.
  - intros Hne st Hst. destruct (Hl st Hst) as (_ & _ & Hp).
    by destruct (filter_selected_in_scope session_id (listed st s) Hne)
      as [_ <-].
  - intros -> st Hst. destruct (Hl st Hst) as (_ & _ & Hp).
    destruct (filter_selected_empty (listed st s)) as [_ E].
    rewrite E in Hp. by apply Permutation_nil_r in Hp.
Qed.

(** X21: in every reachable state [create] returns for every
    configuration it does not reject whose name and scope are usable as
    file names.  A new record carries the fresh id, the name, lifespan
    and scope of the configuration, the first reading of the clock as
    [createdAt], the second as [lastUsedAt], and a turn count of zero; a
    found record comes back with the one reading of the clock as
    [lastUsedAt]; and a record of a file storage has the requested name
    and lifespan and, outside the project storage, the requested scope. *)
Theorem create_returns_requested (env : Env) (uuid now later : string)
    (config : AnyAgentConfig) (s : State) :
  reachable this s -> safe_config env config -> valid_config config ->
  exists r s1 nm l sc,
    Registry.create this env uuid now later config s = (Ok r, s1) /\
    c_name config = Some nm /\
    c_lifespan config = Some (lifespan_name l) /\
    Registry.getScope env config = Some sc /\
    (isNew r = true ->
       agentId (agent r) = uuid /\ name (agent r) = nm /\
       lifespan (agent r) = l /\ scope (agent r) = sc /\
       createdAt (agent r) = now /\ lastUsedAt (agent r) = later /\
       turnCount (agent r) = 0) /\
    (isNew r = false -> lastUsedAt (agent r) = now) /\
    (durable l ->
       name (agent r) = nm /\ lifespan (agent r) = l /\
       (l <> project -> scope (agent r) = sc)).
Proof.
  intros Hok%reachable_state_ok Hsafe Hvalid.
  destruct (create_spec this env uuid now later config s Hok Hsafe Hvalid)
    as (nm & l & sc & found & a0 & s1 & Hnm & Hl & Hsc & Ha0 & Hrun & _ & Hdur & _).
  exists {| agent := a0; isNew := bool_decide (found = None) |}, s1, nm, l, sc.
  split; [done|]. split; [done|]. split.
  { destruct (c_lifespan config) as [raw|]; [|done]. simpl in Hl. f_equal.
    unfold parse_lifespan in Hl. revert Hl.
    repeat match goal with
           | |- context [String.eqb raw ?t] =>
               destruct (String.eqb_spec raw t) as [->|?];
                 [simpl; by intros [= <-]|]
           end. done. }
  split; [done|]. simpl. split; [|split].
  - intros Hnew. apply bool_decide_eq_true in Hnew. subst found a0.
    destruct (new_agent_fields uuid now later config nm l sc)
      as (? & ? & ? & ? & ? & ?).
    split_and!; try done. unfold Registry.new_agent.
    by destruct (bool_decide (l = workflow)).
  - intros Hold. apply bool_decide_eq_false in Hold.
    destruct found as [e|]; [|done]. by subst a0.
  - intros Hd. destruct (Hdur Hd) as (_ & _ & ? & ? & ? & _). done.
Qed.

End ConstructorAndHooks.

Section GetById.
Context `{JsonLaws}.
Variable this : AgentRegistry.

(** X22: in every reachable state [get id] leaves the state as it is,
    returns a stored record with that id if it returns one, and returns
    [null] exactly when no backend holds a record with that id. *)
Theorem get_finds_by_id (id : string) (s : State) :
  reachable this s ->
  exists found,
    Registry.get this id s = (Ok found, s) /\
    (forall a, found = Some a -> agentId a = id /\ a ∈ all_listed this s) /\
    (found = None <-> forall a, a ∈ all_listed this s -> agentId a <> id).
Proof.
  intros Hok%reachable_state_ok.
  pose proof (get_spec this id s Hok) as Hget. simpl in Hget.
  destruct Hok as [Hm Hfs].
  assert (Hfile : forall l a, durable l ->
            a ∈ listing (store (storagePath this) l) None (disk s) ->
            a ∈ all_listed this s).
  { intros l a Hl Ha. apply elem_of_all_listed.
    exists (FileBackend (store (storagePath this) l)).
    split; [apply elem_of_backends; right; eauto|].
    by destruct (listed_file this l s Hfs Hl) as [_ ->]. }
  assert (Hmem : forall k a, agents (memory s) !! k = Some a ->
            a ∈ all_listed this s).
  { intros k a Hk. apply elem_of_all_listed. exists MemoryBackend.
    split; [apply elem_of_backends; by left|].
    destruct (listed_memory s) as [_ ->]. apply elem_of_values. eauto. }
  assert (Hall : forall a, a ∈ all_listed this s ->
            (exists k, agents (memory s) !! k = Some a) \/
            exists l, durable l /\
                      a ∈ listing (store (storagePath this) l) None (disk s)).
  { intros a (st & [-> | (l & Hl & ->)]%elem_of_backends & Ha)%elem_of_all_listed.
    - left. destruct (listed_memory s) as [_ E]. rewrite E in Ha.
      by apply elem_of_values.
    - right. exists l. split; [done|].
      destruct (listed_file this l s Hfs Hl) as [_ E]. by rewrite E in Ha. }
  eexists. split; [exact Hget|].
  destruct (agents (memory s) !! id) as [a|] eqn:Ha.
  { split.
    - intros b [= <-]. split; [by apply Hm in Ha as [? _] | by eapply Hmem].
    - split; [done|]. intros Hnone. exfalso.
      apply (Hnone a); [by eapply Hmem | by apply Hm in Ha as [? _]]. }
  assert (Hnomem : forall b k, agents (memory s) !! k = Some b -> agentId b <> id).
  { intros b k Hk E. destruct (Hm k b Hk) as [E' _]. congruence. }
  assert (Htier : forall l b, durable l ->
            find_id id (listing (store (storagePath this) l) None (disk s)) = Some b ->
            agentId b = id /\ b ∈ all_listed this s).
  { intros l b Hl [Hb Hid]%find_id_Some. split; [done|]. by eapply Hfile. }
  destruct (find_id id (listing (store (storagePath this) session) None (disk s)))
    as [b|] eqn:E1.
  { split.
    - intros ? [= <-]. apply (Htier session); [unfold durable; tauto | done].
    - split; [done|]. intros Hnone. exfalso.
      destruct (Htier session b) as [Hid Hb]; [unfold durable; tauto | done|].
      by apply (Hnone b). }
  destruct (find_id id (listing (store (storagePath this) workflow) None (disk s)))
    as [b|] eqn:E2.
  { split.
    - intros ? [= <-]. apply (Htier workflow); [unfold durable; tauto | done].
    - split; [done|]. intros Hnone. exfalso.
      destruct (Htier workflow b) as [Hid Hb]; [unfold durable; tauto | done|].
      by apply (Hnone b). }
  destruct (find_id id (listing (store (storagePath this) project) None (disk s)))
    as [b|] eqn:E3.
  { split.
    - intros ? [= <-]. apply (Htier project); [unfold durable; tauto | done].
    - split; [done|]. intros Hnone. exfalso.
      destruct (Htier project b) as [Hid Hb]; [unfold durable; tauto | done|].
      by apply (Hnone b). }
  split; [done|]. split; [|done]. intros _ a Ha'.
  destruct (Hall a Ha') as [(k & Hk) | (l & Hl & Hin)].
  - by eapply Hnomem.
  - rewrite find_id_None in E1, E2, E3.
    destruct Hl as [-> | [-> | ->]]; eauto.
Qed.

(** X23: the [Stop] handler returns, leaves the tree as it is, and
    removes from the memory table exactly the records of lifespan
    [turn]. *)
Theorem onStop_disposes_turn_agents (s : State) :
  memory_keyed (memory s) ->
  exists s',
    LifecycleManager.onStop this s = (Ok tt, s') /\
    disk s' = disk s /\
    forall k a, agents (memory s') !! k = Some a <->
                agents (memory s) !! k = Some a /\ lifespan a <> turn.
Proof.
  intros Hkeyed.
  unfold LifecycleManager.onStop, Registry.disposeByLifespan.
  rewrite getStorage_backend_of. simpl. unfold try_catch, bind, lift_result.
  simpl. unfold on_memory, ret.
  destruct (memory_deleteMany_keyed (by_lifespan turn) (memory s) Hkeyed)
    as (m' & -> & Hlook).
  exists {| memory := m'; disk := disk s |}. split; [done|].
  split; [done|]. simpl.
  intros k a. rewrite Hlook, matchesFilter_by_lifespan.
  by rewrite bool_decide_spec.
Qed.

End GetById.

(** ** Path helpers *)

(** X25: for the three lifespans with files, [getAgentPath] of the
    path helpers computes the path the file storage computes, for every
    name and scope; and for a name without ['/'] and a scope of one
    segment that path is the lifespan path followed by the scope (not
    for project) and [name.json]. *)
Theorem paths_getAgentPath_layout (base : path) (l : AgentLifespan)
    (sc nm : string) :
  durable l ->
  exists p,
    Paths.getAgentPath base (lifespan_name l) sc nm = Some p /\
    FileStorage.getAgentPathByNameAndScope (store base l) nm sc = Ok p /\
    (has_sep nm = false -> (l <> project -> is_segment sc = true) ->
     p = Paths.getLifespanPath base (lifespan_name l)
         ++ (if decide (l = project) then [] else [sc]) ++ [nm +:+ ".json"]).
Proof.
  intros Hl. unfold Paths.getLifespanPath.
  destruct Hl as [-> | [-> | ->]]; eexists; (split; [reflexivity|]);
    (split; [reflexivity|]); intros Hnm Hsc;
    pose proof (is_segment_json nm Hnm) as Hj;
    rewrite ?decide_True, ?decide_False by done;
    rewrite !join_segments; rewrite <- ?app_assoc; try done;
    repeat constructor; try done; by apply Hsc.
Qed.

(** ** The logger *)

Section LoggerCalls.
Context `{PayloadJson}.

(** X26: a logger built without [debug: true], in a process whose
    [AGENT_LIFECYCLE_DEBUG] is not ["true"], is disabled, and each of
    its six event methods prints nothing and writes nothing. *)
Theorem logger_silent_unless_debug (env_debug : option string)
    (config : LoggerConfig) (now : string) (c : LogCall) (st : LogState) :
  env_debug <> Some "true" -> cfg_debug config <> Some true ->
  Logger.isEnabled (Logger.make env_debug config) = false /\
  run_log (Logger.make env_debug config) now c st = (Ok tt, st).
Proof.
  intros Henv Hcfg.
  assert (Hd : log_debug (Logger.make env_debug config) = false).
  { simpl. by rewrite !bool_decide_eq_false_2. }
  split; [done|].
  destruct c; simpl;
    unfold Logger.agentCreated, Logger.agentResumed, Logger.agentDisposed,
      Logger.workflowStarted, Logger.workflowCompleted, Logger.lifecycleCleanup,
      Logger.log; by rewrite Hd.
Qed.

Lemma log_appends (this : LifecycleLogger) (now : string) (c : LogCall)
    (p : path) (st : LogState) :
  log_debug this = true -> log_path this = Some p ->
  Fs.is_dir (log_disk st) (dirname p) = true ->
  Fs.is_dir (log_disk st) p = false ->
  exists st',
    run_log this now c st = (Ok tt, st') /\
    length (console st') = S (length (console st)) /\
    file_content (log_disk st') p
    = file_content (log_disk st) p
      +:+ JSON_stringify_payload (call_payload now c) +:+ newline /\
    (forall q, q <> p -> log_disk st' !! q = log_disk st !! q) /\
    Fs.is_dir (log_disk st') p = false.
Proof.
  intros Hd Hp Hdir Hnd.
  assert (Hlog : forall event data,
    exists st',
      Logger.log this now event data st = (Ok tt, st') /\
      length (console st') = S (length (console st)) /\
      file_content (log_disk st') p
      = file_content (log_disk st) p
        +:+ JSON_stringify_payload (Logger.payload_of event now data)
        +:+ newline /\
      (forall q, q <> p -> log_disk st' !! q = log_disk st !! q) /\
      Fs.is_dir (log_disk st') p = false).
  { intros event data. unfold Logger.log, Logger.logToFile, Logger.logToConsole.
    rewrite Hd, Hp. simpl.
    set (payload := Logger.payload_of event now data).
    set (line := match log_format this with
                 | format_json => JSON_stringify_payload payload
                 | format_text => Logger.text_line this payload
                 end).
    assert (Hconsole : (match log_format this with
                        | format_json =>
                            Logger.console_log (JSON_stringify_payload payload)
                        | format_text =>
                            Logger.console_log (Logger.text_line this payload)
                        end) st
                       = (Ok tt, {| console := console st ++ [line];
                                    log_disk := log_disk st |})).
    { unfold line. by destruct (log_format this). }
    erewrite bind_Ok by exact Hconsole.
    unfold Logger.on_log_disk, Fs.appendFileSync. simpl.
    unfold Fs.is_dir in Hnd. apply bool_decide_eq_false in Hnd.
    unfold file_content.
    destruct (log_disk st !! p) as [[content|]|] eqn:Hfile; [| done |].
    - eexists. split; [reflexivity|]. simpl.
      rewrite length_app, lookup_insert_eq. simpl.
      split; [lia|]. split; [done|].
      split; [intros q Hq; by rewrite lookup_insert_ne|].
      unfold Fs.is_dir. rewrite lookup_insert_eq. by apply bool_decide_eq_false_2.
    - unfold Fs.is_dir in Hdir. apply bool_decide_eq_true in Hdir.
      rewrite Hdir. eexists. split; [reflexivity|]. simpl.
      rewrite length_app, lookup_insert_eq. simpl.
      split; [lia|]. split; [done|].
      split; [intros q Hq; by rewrite lookup_insert_ne|].
      unfold Fs.is_dir. rewrite lookup_insert_eq. by apply bool_decide_eq_false_2. }
  destruct c; simpl; apply Hlog.
Qed.

End LoggerCalls.

Lemma string_app_assoc (s t u : string) : (s +:+ t) +:+ u = s +:+ (t +:+ u).
Proof.
  induction s as [|c s IH]; [done|].
  change (String c ((s +:+ t) +:+ u) = String c (s +:+ (t +:+ u))).
  by rewrite IH.
Qed.

Lemma string_app_nil_r (s : string) : s +:+ "" = s.
Proof.
  induction s as [|c s IH]; [done|].
  change (String c (s +:+ "") = String c s). by rewrite IH.
Qed.

Section LoggerSequence.
Context `{PayloadJson}.

(** X28: an enabled logger with a log file whose directory exists
    handles every call: it prints one console line per call, and the log
    file afterwards is its former content followed by one line per call,
    in call order; no other path changes. *)
Theorem logger_appends_in_order (this : LifecycleLogger)
    (calls : list (string * LogCall)) (p : path) (st : LogState) :
  log_debug this = true -> log_path this = Some p ->
  Fs.is_dir (log_disk st) (dirname p) = true ->
  Fs.is_dir (log_disk st) p = false ->
  exists st',
    for_each calls (fun nc => run_log this nc.1 nc.2) st = (Ok tt, st') /\
    length (console st') = length (console st) + length calls /\
    file_content (log_disk st') p
    = file_content (log_disk st) p +:+ log_lines calls /\
    (forall q, q <> p -> log_disk st' !! q = log_disk st !! q).
Proof.
  intros Hd Hp. revert st.
  induction calls as [|[now c] calls IH]; intros st Hdir Hnd.
  - exists st. simpl. rewrite string_app_nil_r. split_and!; try done.
  - destruct (log_appends this now c p st Hd Hp Hdir Hnd)
      as (st1 & Hrun & Hlen & Hfile & Hframe & Hnd1).
    assert (Hne : dirname p <> p).
    { intros E. rewrite E in Hdir. congruence. }
    destruct (IH st1) as (st' & Hrun' & Hlen' & Hfile' & Hframe'); [|done|].
    { unfold Fs.is_dir in *. by rewrite Hframe. }
    exists st'. split_and!.
    + simpl. erewrite bind_Ok by exact Hrun. exact Hrun'.
    + rewrite Hlen', Hlen. simpl. lia.
    + rewrite Hfile', Hfile. simpl. by rewrite !string_app_assoc.
    + intros q Hq. by rewrite Hframe', Hframe.
Qed.

End LoggerSequence.

Section LoggerConstructor.
Context `{PayloadJson}.

(** X27: the constructor of the logger, given a log path with no
    regular file on the way to its directory, returns the logger [make]
    describes, prints nothing, and leaves the directory of the log file
    in place without changing what was in the tree; this does not depend
    on [debug]. *)
Theorem new_logger_prepares_directory (env_debug : option string)
    (config : LoggerConfig) (p : path) (st : LogState) :
  cfg_logPath config = Some p ->
  existsb (Fs.is_file (log_disk st)) (Fs.prefixes (dirname p)) = false ->
  exists st1,
    Logger.new_logger env_debug config st
    = (Ok (Logger.make env_debug config), st1) /\
    console st1 = console st /\
    Fs.is_dir (log_disk st1) (dirname p) = true /\
    (forall q n, log_disk st !! q = Some n -> log_disk st1 !! q = Some n) /\
    (forall q content, log_disk st1 !! q = Some (File content) ->
       log_disk st !! q = Some (File content)).
Proof.
  intros Hp Hfiles. unfold Logger.new_logger. simpl. rewrite Hp.
  unfold bind, Logger.on_log_disk. rewrite existsSync_eq.
  case_bool_decide as Hex; simpl.
  - exists st. split; [by destruct st|]. split; [done|]. split; [|done].
    destruct Hex as [n Hn]. unfold Fs.is_dir. apply bool_decide_eq_true.
    destruct n as [c|]; [|done]. exfalso.
    assert (existsb (Fs.is_file (log_disk st)) (Fs.prefixes (dirname p)) = true);
      [|congruence].
    apply existsb_exists. exists (dirname p).
    split; [by apply list_elem_of_In, elem_of_prefixes|].
    unfold Fs.is_file. by rewrite Hn.
  - unfold Fs.mkdirSync_recursive. rewrite Hfiles. unfold ret.
    eexists. split; [reflexivity|]. cbn [console log_disk].
    split; [done|]. split; [|split].
    + unfold Fs.is_dir. apply bool_decide_eq_true.
      rewrite lookup_mkdirs, decide_True; [done|]. by apply elem_of_prefixes.
    + intros q n Hq. rewrite lookup_mkdirs.
      destruct (decide (q ∈ Fs.prefixes (dirname p))) as [Hin|]; [|done].
      destruct n as [c|]; [|done]. exfalso.
      assert (existsb (Fs.is_file (log_disk st)) (Fs.prefixes (dirname p)) = true);
        [|congruence].
      apply existsb_exists. exists q. split; [by apply list_elem_of_In|].
      unfold Fs.is_file. by rewrite Hq.
    + intros q c. rewrite lookup_mkdirs.
      by destruct (decide (q ∈ Fs.prefixes (dirname p))).
Qed.

End LoggerConstructor.

(** ** The further properties at concrete inputs *)

Lemma demo_memory_keyed : memory_keyed demo_memory.
Proof.
  intros k a. unfold demo_memory. simpl.
  destruct (decide (k = "id-scratch")) as [->|Hne].
  - rewrite lookup_insert_eq. by intros [= <-].
  - rewrite lookup_insert_ne by done.
    destruct (decide (k = "id-notes")) as [->|Hne'].
    + rewrite lookup_insert_eq. by intros [= <-].
    + rewrite lookup_insert_ne by done. by rewrite lookup_empty.
Qed.

Lemma memory_deleteMany_count_witness :
  exists n m',
    MemoryStorage.deleteMany (by_lifespan turn) demo_memory = (Ok n, m') /\
    n = length (filter (fun a => matchesFilter a (by_lifespan turn))
                  (MemoryStorage.values demo_memory)) /\
    MemoryStorage.size m' + n = MemoryStorage.size demo_memory /\
    memory_keyed m' /\
    forall k a, agents m' !! k = Some a <->
                agents demo_memory !! k = Some a /\
                matchesFilter a (by_lifespan turn) = false.
Proof.
  apply (memory_deleteMany_count (by_lifespan turn) demo_memory).
  exact demo_memory_keyed.
Defined.

Example memory_deleteMany_turn :
  exists m', MemoryStorage.deleteMany (by_lifespan turn) demo_memory = (Ok 1, m') /\
             MemoryStorage.size m' = 1.
Proof. eexists. split; vm_compute; reflexivity. Qed.

Ltac solve_safe_config :=
  let l := fresh "l" in let nm := fresh "nm" in let sc := fresh "sc" in
  let Hl := fresh "Hl" in let Hnm := fresh "Hnm" in let Hsc := fresh "Hsc" in
  intros l nm sc Hl ? Hnm Hsc; vm_compute in Hl, Hnm, Hsc;
  try discriminate;
  injection Hnm as <-; injection Hsc as <-;
  split; [reflexivity | intros _; reflexivity].

Lemma demo_session_state_reachable :
  reachable (H := RefCodec.json) demo_registry demo_session_state.
Proof.
  apply reachable_call; [apply demo_state_reachable | solve_safe_config].
Qed.

Lemma demo_mixed_state_reachable :
  reachable (H := RefCodec.json) demo_registry demo_mixed_state.
Proof.
  apply reachable_call; [apply demo_session_state_reachable|].
  intros l nm sc Hl Hd. vm_compute in Hl. injection Hl as <-.
  by destruct Hd as [|[|]].
Qed.

Lemma demo_session_tree_ok :
  tree_ok (H := RefCodec.json) ["srv"; "agents"] (disk demo_session_state).
Proof.
  apply (reachable_state_ok (H0 := RefCodec_laws) demo_registry).
  apply demo_session_state_reachable.
Qed.

Lemma demo_tree_ok :
  tree_ok (H := RefCodec.json) ["srv"; "agents"] (disk demo_state).
Proof.
  apply (reachable_state_ok (H0 := RefCodec_laws) demo_registry).
  apply demo_state_reachable.
Qed.

Lemma nested_agent_placeable : placeable nested_agent.
Proof. split; [right; left; reflexivity|]. split; [reflexivity|done]. Qed.

Lemma save_touches_one_document_witness :
  let p := ["srv"; "agents"; "workflow"; "FEAT-001"; "executor.json"] in
  exists fs',
    FileStorage.save (H := RefCodec.json) (store ["srv"; "agents"] workflow)
      nested_agent (disk demo_state) = (Ok tt, fs') /\
    fs' !! p = Some (File (JSON_stringify (Json := RefCodec.json) nested_agent)) /\
    (forall q n, q <> p -> disk demo_state !! q = Some n -> fs' !! q = Some n) /\
    (forall q n, q <> p -> fs' !! q = Some n ->
       disk demo_state !! q = Some n \/ (n = Dir /\ q `prefix_of` dirname p)).
Proof.
  intros p.
  apply (save_touches_one_document (H := RefCodec.json)
           (store ["srv"; "agents"] workflow) nested_agent (disk demo_state) p).
  - reflexivity.
  - split; vm_compute; reflexivity.
Defined.

Lemma agent_paths_distinct_witness :
  session = session /\ "advisor" = "advisor" /\ (session <> project -> "s-1" = "s-1").
Proof.
  apply (agent_paths_distinct ["srv"; "agents"] session session
           "advisor" "advisor" "s-1" "s-1"
           ["srv"; "agents"; "session"; "s-1"; "advisor.json"]);
    try reflexivity; intros _; reflexivity.
Defined.

Lemma save_then_load_witness :
  exists fs',
    FileStorage.save (H := RefCodec.json) (store ["srv"; "agents"] workflow)
      nested_agent (disk demo_state) = (Ok tt, fs') /\
    FileStorage.load (H := RefCodec.json) (store ["srv"; "agents"] workflow)
      (agentId nested_agent) fs' = (Ok (Some nested_agent), fs').
Proof.
  apply (save_then_load (H0 := RefCodec_laws) ["srv"; "agents"] workflow
           nested_agent (disk demo_state)).
  - apply demo_tree_ok.
  - apply nested_agent_placeable.
  - reflexivity.
  - reflexivity.
  - intros b Hb. vm_compute in Hb. by apply elem_of_nil in Hb.
Defined.

Lemma findByNameAndScope_agrees_with_list_witness :
  let base := ["srv"; "agents"] in
  let fs := disk demo_session_state in
  exists found,
    FileStorage.findByNameAndScope (H := RefCodec.json) (store base session)
      "advisor" "s-1" fs = (Ok found, fs) /\
    forall a, found = Some a <->
      a ∈ listing (H := RefCodec.json) (store base session) None fs /\
      name a = "advisor" /\ (session <> project -> scope a = "s-1").
Proof.
  intros base fs.
  apply (findByNameAndScope_agrees_with_list (H := RefCodec.json) base session
           "advisor" "s-1" fs).
  - apply demo_session_tree_ok.
  - left. reflexivity.
  - reflexivity.
  - intros _. reflexivity.
Defined.

Lemma delete_removes_loaded_witness :
  let base := ["srv"; "agents"] in
  let fs := disk demo_session_state in
  exists found fs',
    FileStorage.load (H := RefCodec.json) (store base session) "u-1" fs
    = (Ok found, fs) /\
    FileStorage.delete_ (H := RefCodec.json) (store base session) "u-1" fs
    = (Ok tt, fs') /\
    match found with
    | Some b =>
        agentId b = "u-1" /\
        listing (H := RefCodec.json) (store base session) None fs
          ≡ₚ b :: listing (H := RefCodec.json) (store base session) None fs' /\
        forall l', l' <> session ->
          listing (H := RefCodec.json) (store base l') None fs'
            ≡ₚ listing (H := RefCodec.json) (store base l') None fs
    | None =>
        fs' = fs /\
        forall a, a ∈ listing (H := RefCodec.json) (store base session) None fs ->
                  agentId a <> "u-1"
    end.
Proof.
  intros base fs.
  apply (delete_removes_loaded (H := RefCodec.json) base session "u-1" fs).
  - apply demo_session_tree_ok.
  - left. reflexivity.
Defined.

Lemma list_filter_commutes_witness :
  let this := store ["srv"; "agents"] session in
  let fs := disk demo_session_state in
  exists found,
    FileStorage.list_ (H := RefCodec.json) this None fs = (Ok found, fs) /\
    FileStorage.list_ (H := RefCodec.json) this (Some (by_scope "s-1")) fs
    = (Ok (filter (fun a => matchesFilter a (by_scope "s-1")) found), fs) /\
    (fs !! FileStorage.lifespanDir this = None -> found = []).
Proof.
  intros this fs.
  apply (list_filter_commutes (H := RefCodec.json) this (by_scope "s-1") fs).
  - apply names_valid_check. vm_compute. reflexivity.
  - vm_compute. reflexivity.
Defined.

Lemma session_config_valid : valid_config (session_config "helper" "s-1").
Proof. split; [reflexivity | by eexists]. Qed.

Lemma create_then_get_witness :
  exists r s1,
    Registry.create (H := RefCodec.json) demo_registry demo_env "u-9" "t9" "t9"
      (session_config "helper" "s-1") demo_mixed_state = (Ok r, s1) /\
    Registry.get (H := RefCodec.json) demo_registry (agentId (agent r)) s1
    = (Ok (Some (if decide (durable (lifespan (agent r)))
                 then agent_clean (agent r) else agent r)), s1).
Proof.
  apply (create_then_get (H0 := RefCodec_laws) demo_registry demo_env
           "u-9" "t9" "t9" (session_config "helper" "s-1") demo_mixed_state).
  - apply demo_mixed_state_reachable.
  - solve_safe_config.
  - apply session_config_valid.
  - apply (bool_decide_unpack _). vm_compute. reflexivity.
  - apply (bool_decide_unpack _). vm_compute. reflexivity.
Defined.

Lemma dispose_removes_found_witness :
  exists found s',
    Registry.get (H := RefCodec.json) demo_registry "u-1" demo_mixed_state
    = (Ok found, demo_mixed_state) /\
    Registry.dispose (H := RefCodec.json) demo_registry "u-1" demo_mixed_state
    = (Ok tt, s') /\
    match found with
    | None => s' = demo_mixed_state
    | Some a =>
        agentId a = "u-1" /\
        listed (H := RefCodec.json) (backend_of demo_registry (lifespan a))
          demo_mixed_state
          ≡ₚ a :: listed (H := RefCodec.json)
                    (backend_of demo_registry (lifespan a)) s' /\
        forall st, st ∈ backends demo_registry ->
          st <> backend_of demo_registry (lifespan a) ->
          listed (H := RefCodec.json) st s'
            ≡ₚ listed (H := RefCodec.json) st demo_mixed_state
    end.
Proof.
  apply (dispose_removes_found (H0 := RefCodec_laws) demo_registry "u-1"
           demo_mixed_state).
  apply demo_mixed_state_reachable.
Defined.

Lemma disposeByLifespan_exact_witness :
  exists n s',
    Registry.disposeByLifespan (H := RefCodec.json) demo_registry turn
      demo_mixed_state = (Ok n, s') /\
    n = length (filter (has_lifespan turn)
                  (all_listed (H := RefCodec.json) demo_registry demo_mixed_state)) /\
    forall st, st ∈ backends demo_registry ->
      listed (H := RefCodec.json) st s'
        ≡ₚ filter (fun a => ~ has_lifespan turn a)
             (listed (H := RefCodec.json) st demo_mixed_state).
Proof.
  apply (disposeByLifespan_exact (H0 := RefCodec_laws) demo_registry turn
           demo_mixed_state).
  apply demo_mixed_state_reachable.
Defined.

Lemma list_all_backends_witness :
  Registry.list_ (H := RefCodec.json) demo_registry
    (Some (by_lifespan session)) demo_mixed_state
  = (Ok (filter (fun a => passes (Some (by_lifespan session)) a)
           (all_listed (H := RefCodec.json) demo_registry demo_mixed_state)),
     demo_mixed_state).
Proof.
  apply (list_all_backends (H0 := RefCodec_laws) demo_registry
           (Some (by_lifespan session)) demo_mixed_state).
  apply demo_mixed_state_reachable.
Defined.

Lemma demo_state_no_files (p : path) (content : string) :
  disk demo_state !! p <> Some (File content).
Proof.
  intros Hp. apply elem_of_map_to_list in Hp. vm_compute in Hp.
  repeat (apply elem_of_cons in Hp as [Hp|Hp]; [discriminate|]).
  by apply elem_of_nil in Hp.
Qed.

Lemma resume_nothing_stored_witness :
  Registry.resume (H := RefCodec.json) demo_registry demo_env "t1"
    "../session/advisor" (Some "s-1") demo_state
  = (Throw (AgentNotFoundError "../session/advisor"), demo_state).
Proof.
  apply (resume_nothing_stored (H := RefCodec.json) demo_registry demo_env "t1"
           "../session/advisor" (Some "s-1") demo_state).
  - reflexivity.
  - apply demo_state_no_files.
Defined.


Lemma workflow_config_valid : valid_config (workflow_config "executor" "F1").
Proof. split; [reflexivity | by eexists]. Qed.

Lemma startWorkflow_then_getWorkflowAgents_witness :
  exists a s1 found,
    Registry.startWorkflow (H := RefCodec.json) demo_registry demo_env "u-9" "t9" "t9"
      (workflow_config "executor" "F1") demo_mixed_state = (Ok a, s1) /\
    Registry.getWorkflowAgents (H := RefCodec.json) demo_registry "F1" s1
    = (Ok found, s1) /\
    agent_clean a ∈ found /\ lifespan a = workflow /\ scope a = "F1" /\
    forall b, b ∈ found -> scope b = "F1".
Proof.
  apply (startWorkflow_then_getWorkflowAgents (H0 := RefCodec_laws) demo_registry
           demo_env "u-9" "t9" "t9" (workflow_config "executor" "F1") "F1"
           demo_mixed_state).
  - apply demo_mixed_state_reachable.
  - solve_safe_config.
  - apply workflow_config_valid.
  - reflexivity.
  - reflexivity.
Defined.

Lemma new_registry_builds_tiers_witness :
  let base := ["srv"; "agents"] in
  let s := {| memory := MemoryStorage.empty; disk := ∅ |} in
  exists s1,
    Registry.new_registry base s = (Ok {| storagePath := base |}, s1) /\
    memory s1 = memory s /\
    (forall l, durable l ->
       disk s1 !! (base ++ [lifespan_name l])
       = Some (match disk s !! (base ++ [lifespan_name l]) with
               | Some n => n
               | None => Dir
               end)) /\
    (forall q n, disk s !! q = Some n -> disk s1 !! q = Some n) /\
    (forall q content, disk s1 !! q = Some (File content) ->
       disk s !! q = Some (File content)) /\
    Registry.new_registry base s1 = (Ok {| storagePath := base |}, s1).
Proof.
  intros base s. apply (new_registry_builds_tiers base s). reflexivity.
Defined.

Lemma onSessionEnd_disposes_session_witness :
  exists s',
    LifecycleManager.onSessionEnd (H := RefCodec.json) demo_registry "s-1"
      demo_mixed_state = (Ok tt, s') /\
    ("s-1" <> "" ->
       forall st, st ∈ backends demo_registry ->
         listed (H := RefCodec.json) st s'
           ≡ₚ filter (fun a => ~ in_scope "s-1" a)
                (listed (H := RefCodec.json) st demo_mixed_state)) /\
    ("s-1" = "" ->
       forall st, st ∈ backends demo_registry ->
         listed (H := RefCodec.json) st s' = []).
Proof.
  apply (onSessionEnd_disposes_session (H0 := RefCodec_laws) demo_registry "s-1"
           demo_mixed_state).
  apply demo_mixed_state_reachable.
Defined.

Lemma create_returns_requested_witness :
  exists r s1 nm l sc,
    Registry.create (H := RefCodec.json) demo_registry demo_env "u-9" "t9" "t9b"
      (session_config "helper" "s-1") demo_mixed_state = (Ok r, s1) /\
    c_name (session_config "helper" "s-1") = Some nm /\
    c_lifespan (session_config "helper" "s-1") = Some (lifespan_name l) /\
    Registry.getScope demo_env (session_config "helper" "s-1") = Some sc /\
    (isNew r = true ->
       agentId (agent r) = "u-9" /\ name (agent r) = nm /\
       lifespan (agent r) = l /\ scope (agent r) = sc /\
       createdAt (agent r) = "t9" /\ lastUsedAt (agent r) = "t9b" /\
       turnCount (agent r) = 0) /\
    (isNew r = false -> lastUsedAt (agent r) = "t9") /\
    (durable l ->
       name (agent r) = nm /\ lifespan (agent r) = l /\
       (l <> project -> scope (agent r) = sc)).
Proof.
  apply (create_returns_requested (H0 := RefCodec_laws) demo_registry demo_env
           "u-9" "t9" "t9b" (session_config "helper" "s-1") demo_mixed_state).
  - apply demo_mixed_state_reachable.
  - solve_safe_config.
  - apply session_config_valid.
Defined.

Lemma cleanEmptyDirs_exact_witness :
  let base := ["srv"; "agents"] in
  exists fs',
    FileStorage.cleanEmptyDirs (store base session) tree_with_empty_scope
    = (Ok tt, fs') /\
    match tree_with_empty_scope !! (base ++ [lifespan_name session]) with
    | None => fs' = tree_with_empty_scope
    | Some _ =>
        forall q n, fs' !! q = Some n <->
          tree_with_empty_scope !! q = Some n /\
          (session = project \/
           forall sc, base ++ [lifespan_name session; sc] `prefix_of` q ->
             ~ empty_dir tree_with_empty_scope
                 (base ++ [lifespan_name session; sc]))
    end.
Proof.
  intros base.
  apply (cleanEmptyDirs_exact base session tree_with_empty_scope).
  - apply names_valid_check. vm_compute. reflexivity.
  - vm_compute. reflexivity.
Defined.

Example cleanEmptyDirs_removes_old :
  let r := FileStorage.cleanEmptyDirs (store ["srv"; "agents"] session)
             tree_with_empty_scope in
  fst r = Ok tt /\
  snd r !! ["srv"; "agents"; "session"; "old"] = None /\
  snd r !! ["srv"; "agents"; "session"; "s-1"] = Some Dir.
Proof. split; [|split]; vm_compute; reflexivity. Qed.

Lemma deleteMany_leaves_no_empty_scope_witness :
  let base := ["srv"; "agents"] in
  exists n fs',
    FileStorage.deleteMany (H := RefCodec.json) (store base session)
      (by_scope "s-1") (disk demo_session_state) = (Ok n, fs') /\
    (forall l', durable l' -> fs' !! (base ++ [lifespan_name l']) = Some Dir) /\
    forall sc, fs' !! (base ++ [lifespan_name session; sc]) = Some Dir ->
      exists x content,
        fs' !! (base ++ [lifespan_name session; sc; x]) = Some (File content).
Proof.
  intros base.
  apply (deleteMany_leaves_no_empty_scope (H := RefCodec.json) base session
           (by_scope "s-1") (disk demo_session_state)).
  - apply demo_session_tree_ok.
  - left. reflexivity.
Defined.

Lemma memory_find_uses_joined_key_witness :
  let a := sample_agent "a:b" "c" turn in
  let m' := snd (MemoryStorage.save a MemoryStorage.empty) in
  MemoryStorage.findByNameAndScope "a" "b:c" m' = (Ok (Some a), m').
Proof.
  intros a.
  apply (memory_find_uses_joined_key a "a" "b:c" MemoryStorage.empty).
  - discriminate.
  - reflexivity.
Defined.

Lemma get_finds_by_id_witness :
  exists found,
    Registry.get (H := RefCodec.json) demo_registry "u-1" demo_mixed_state
    = (Ok found, demo_mixed_state) /\
    (forall a, found = Some a ->
       agentId a = "u-1" /\
       a ∈ all_listed (H := RefCodec.json) demo_registry demo_mixed_state) /\
    (found = None <->
     forall a, a ∈ all_listed (H := RefCodec.json) demo_registry demo_mixed_state ->
               agentId a <> "u-1").
Proof.
  apply (get_finds_by_id (H0 := RefCodec_laws) demo_registry "u-1" demo_mixed_state).
  apply demo_mixed_state_reachable.
Defined.

Lemma onStop_disposes_turn_agents_witness :
  let s := {| memory := demo_memory; disk := disk demo_state |} in
  exists s',
    LifecycleManager.onStop (H := RefCodec.json) demo_registry s = (Ok tt, s') /\
    disk s' = disk s /\
    forall k a, agents (memory s') !! k = Some a <->
                agents (memory s) !! k = Some a /\ lifespan a <> turn.
Proof.
  intros s.
  apply (onStop_disposes_turn_agents (H := RefCodec.json) demo_registry s).
  exact demo_memory_keyed.
Defined.

Lemma paths_getAgentPath_layout_witness :
  let base := ["srv"; "agents"] in
  exists p,
    Paths.getAgentPath base (lifespan_name session) "s-1" "advisor" = Some p /\
    FileStorage.getAgentPathByNameAndScope (store base session) "advisor" "s-1"
    = Ok p /\
    (has_sep "advisor" = false -> (session <> project -> is_segment "s-1" = true) ->
     p = Paths.getLifespanPath base (lifespan_name session)
         ++ (if decide (session = project) then [] else ["s-1"])
         ++ ["advisor" +:+ ".json"]).
Proof.
  intros base.
  apply (paths_getAgentPath_layout base session "s-1" "advisor").
  left. reflexivity.
Defined.

Lemma new_logger_prepares_directory_witness :
  let st := {| console := []; log_disk := ∅ |} in
  let p := ["srv"; "agents"; "lifecycle.log"] in
  exists st1,
    Logger.new_logger None debug_config st
    = (Ok (Logger.make None debug_config), st1) /\
    console st1 = console st /\
    Fs.is_dir (log_disk st1) (dirname p) = true /\
    (forall q n, log_disk st !! q = Some n -> log_disk st1 !! q = Some n) /\
    (forall q content, log_disk st1 !! q = Some (File content) ->
       log_disk st !! q = Some (File content)).
Proof.
  intros st p.
  apply (new_logger_prepares_directory None debug_config p st);
    reflexivity.
Defined.

Lemma logger_silent_unless_debug_witness :
  Logger.isEnabled (Logger.make None silent_config) = false /\
  run_log (H := RefPayload.json) (Logger.make None silent_config) "t1"
    (AgentCreated "u-1" "advisor" "session" "s-1") demo_log_state
  = (Ok tt, demo_log_state).
Proof.
  apply (logger_silent_unless_debug (H := RefPayload.json) None silent_config "t1"
           (AgentCreated "u-1" "advisor" "session" "s-1") demo_log_state);
    discriminate.
Defined.

Lemma logger_appends_in_order_witness :
  let this := Logger.make None debug_config in
  let p := ["srv"; "agents"; "lifecycle.log"] in
  exists st',
    for_each demo_calls (fun nc => run_log (H := RefPayload.json) this nc.1 nc.2)
      demo_log_state = (Ok tt, st') /\
    length (console st') = length (console demo_log_state) + length demo_calls /\
    file_content (log_disk st') p
    = file_content (log_disk demo_log_state) p
      +:+ log_lines (H := RefPayload.json) demo_calls /\
    (forall q, q <> p -> log_disk st' !! q = log_disk demo_log_state !! q).
Proof.
  intros this p.
  apply (logger_appends_in_order (H := RefPayload.json) this demo_calls p
           demo_log_state); vm_compute; reflexivity.
Defined.

Example logger_two_lines :
  exists st',
    for_each demo_calls
      (fun nc => run_log (H := RefPayload.json) (Logger.make None debug_config)
                   nc.1 nc.2) demo_log_state = (Ok tt, st') /\
    console st' = ["agent:created@t1"; "lifecycle:cleanup@t2"] /\
    file_content (log_disk st') ["srv"; "agents"; "lifecycle.log"]
    = "agent:created@t1" +:+ newline +:+ "lifecycle:cleanup@t2" +:+ newline.
Proof. eexists. split; [vm_compute; reflexivity|]. split; reflexivity. Qed.
